(** * Gain-ratio decision-tree induction: a model of [main.py]

    The Python program is embedded function by function, under the names
    it has in the source.

    - Cells of the table are Python scalars ([int], [float], [str]) with
      Python's [==].  Each cell is taken to be an object of its own, as
      [load_data] produces them, so a [dict] or [set] recognises a key by
      [==] alone; this matters for NaN cells only.
    - A Python [float] is an IEEE-754 binary64 number and is modelled by
      Rocq's primitive floats, so [/], [*], [-], [+], [>] and [==] are the
      operations the interpreter performs.  [math.log2] comes from the C
      library and is a parameter of the model.
    - Dictionaries are association lists in insertion order; exceptions are
      an explicit result type; [print] appends to a list of lines.
    - The recursion of [build_tree] is driven by fuel, and the fuel that
      [build_tree] is given is proved sufficient.  The limits of an
      interpreter (recursion depth, memory) are not modelled.
    - [load_data] and [main] read a file and format text for the console:
      the model begins with the table that [load_data] returns and ends
      with the lines that [print_tree] writes. *)

From Stdlib Require Import String Ascii DecimalString.
From Stdlib Require Import ZArith List Floats Uint63 Lia Bool.
From Stdlib Require Import Permutation Sorted.
Import ListNotations.

Set Implicit Arguments.

(** ** Exceptions and the result monad *)

Inductive exn : Type :=
| IndexError
| TypeError
| ZeroDivisionError
| ValueError.

Inductive result (A : Type) : Type :=
| Ok (a : A)
| Raise (e : exn).

Arguments Ok {A} a.
Arguments Raise {A} e.

Definition bind {A B : Type} (c : result A) (k : A -> result B) : result B :=
  match c with
  | Ok a => k a
  | Raise e => Raise e
  end.

Declare Scope py_scope.
Delimit Scope py_scope with py.
Notation "x <- c ;; k" := (bind c (fun x => k))
  (at level 61, c at next level, right associativity) : py_scope.
Notation "' p <- c ;; k" := (bind c (fun x => let 'p := x in k))
  (at level 61, p pattern, c at next level, right associativity) : py_scope.
Open Scope py_scope.

(** [for x in xs: s = body(s, x)], stopping at the first exception. *)
Fixpoint for_loop {S X : Type} (xs : list X) (s : S)
    (body : S -> X -> result S) : result S :=
  match xs with
  | [] => Ok s
  | x :: xs' => s' <- body s x ;; for_loop xs' s' body
  end.

(** [[f(x) for x in xs]] *)
Fixpoint py_map {X Y : Type} (f : X -> result Y) (xs : list X) : result (list Y) :=
  match xs with
  | [] => Ok []
  | x :: xs' => y <- f x ;; ys <- py_map f xs' ;; Ok (y :: ys)
  end.

(** [[x for x in xs if p(x)]] *)
Fixpoint py_filter {X : Type} (p : X -> result bool) (xs : list X) : result (list X) :=
  match xs with
  | [] => Ok []
  | x :: xs' =>
      b <- p x ;; ys <- py_filter p xs' ;; Ok (if b then x :: ys else ys)
  end.

(** A computation that may also run out of fuel ([None]). *)
Definition comp (A : Type) : Type := option (result A).

Definition lift {A : Type} (c : result A) : comp A := Some c.

Definition cbind {A B : Type} (c : comp A) (k : A -> comp B) : comp B :=
  match c with
  | None => None
  | Some (Raise e) => Some (Raise e)
  | Some (Ok a) => k a
  end.

Notation "x <~ c ;; k" := (cbind c (fun x => k))
  (at level 61, c at next level, right associativity) : py_scope.
Notation "' p <~ c ;; k" := (cbind c (fun x => let 'p := x in k))
  (at level 61, p pattern, c at next level, right associativity) : py_scope.

Fixpoint for_comp {S X : Type} (xs : list X) (s : S)
    (body : S -> X -> comp S) : comp S :=
  match xs with
  | [] => Some (Ok s)
  | x :: xs' => s' <~ body s x ;; for_comp xs' s' body
  end.

(** ** Sequences *)

Definition len {A : Type} (l : list A) : Z := Z.of_nat (length l).

(** [l[i]] with Python's negative indices. *)
Definition py_getitem {A : Type} (l : list A) (i : Z) : result A :=
  let j := if (i <? 0)%Z then (len l + i)%Z else i in
  if (j <? 0)%Z then Raise IndexError
  else match nth_error l (Z.to_nat j) with
       | Some a => Ok a
       | None => Raise IndexError
       end.

(** [l[i]] where [i] may be [None]. *)
Definition py_getitem_opt {A : Type} (l : list A) (i : option Z) : result A :=
  match i with
  | Some j => py_getitem l j
  | None => Raise TypeError
  end.

(** ** Scalars and their equality *)

Inductive value : Type :=
| VInt (n : Z)
| VFloat (x : float)
| VStr (s : string).

(** Python compares numbers by exact mathematical value across [int] and
    [float] (and hashes them alike), a [str] equals only the same [str], and
    NaN equals nothing.  A number is keyed by its odd mantissa and binary
    exponent. *)
Inductive pykey : Type :=
| KNum (m e : Z)
| KInf (negative : bool)
| KStr (s : string).

Fixpoint odd_part (p : positive) (e : Z) : positive * Z :=
  match p with
  | xO q => odd_part q (e + 1)
  | _ => (p, e)
  end.

Definition num_key (negative : bool) (p : positive) (e : Z) : pykey :=
  let '(q, e') := odd_part p e in
  KNum (if negative then Zneg q else Zpos q) e'.

Definition py_key (v : value) : option pykey :=
  match v with
  | VInt Z0 => Some (KNum 0 0)
  | VInt (Zpos p) => Some (num_key false p 0)
  | VInt (Zneg p) => Some (num_key true p 0)
  | VFloat x =>
      match Prim2SF x with
      | S754_zero _ => Some (KNum 0 0)
      | S754_infinity s => Some (KInf s)
      | S754_nan => None
      | S754_finite s m e => Some (num_key s m e)
      end
  | VStr s => Some (KStr s)
  end.

Definition pykey_eqb (a b : pykey) : bool :=
  match a, b with
  | KNum m e, KNum m' e' => (m =? m')%Z && (e =? e')%Z
  | KInf s, KInf s' => Bool.eqb s s'
  | KStr s, KStr s' => String.eqb s s'
  | _, _ => false
  end.

(** [a == b] on scalars.  Every cell is an object of its own, so this is
    also the test by which a [dict] or [set] recognises a key. *)
Definition py_eq (a b : value) : bool :=
  match py_key a, py_key b with
  | Some k, Some k' => pykey_eqb k k'
  | _, _ => false
  end.

(** ** Dictionaries and sets

    A [dict] keeps its keys in insertion order; an assignment to a present
    key keeps the stored key and replaces the value. *)

Definition dict (A : Type) : Type := list (value * A).

Fixpoint dict_get {A : Type} (d : dict A) (k : value) : option A :=
  match d with
  | [] => None
  | (k', a) :: d' => if py_eq k' k then Some a else dict_get d' k
  end.

(** [d.get(k, default)] *)
Definition dict_get_default {A : Type} (d : dict A) (k : value) (default : A) : A :=
  match dict_get d k with
  | Some a => a
  | None => default
  end.

(** [d[k] = a] *)
Fixpoint dict_set {A : Type} (d : dict A) (k : value) (a : A) : dict A :=
  match d with
  | [] => [(k, a)]
  | (k', a') :: d' =>
      if py_eq k' k then (k', a) :: d' else (k', a') :: dict_set d' k a
  end.

(** [d.setdefault(k, []).append(x)] *)
Fixpoint setdefault_append {X : Type} (d : dict (list X)) (k : value) (x : X)
    : dict (list X) :=
  match d with
  | [] => [(k, [x])]
  | (k', xs) :: d' =>
      if py_eq k' k then (k', xs ++ [x]) :: d'
      else (k', xs) :: setdefault_append d' k x
  end.

Definition dict_values {A : Type} (d : dict A) : list A := map snd d.
Definition dict_keys {A : Type} (d : dict A) : list value := map fst d.

(** [for v in vs: counts[v] = counts.get(v, 0) + 1] *)
Definition count_step (counts : dict Z) (v : value) : dict Z :=
  dict_set counts v (dict_get_default counts v 0 + 1)%Z.

Definition count_values (vs : list value) : dict Z :=
  fold_left count_step vs [].

(** The elements of [set(vs)], each kept at its first occurrence. *)
Definition set_add (s : list value) (v : value) : list value :=
  if existsb (fun k => py_eq k v) s then s else s ++ [v].

Definition py_set (vs : list value) : list value := fold_left set_add vs [].

(** [max(d, key=d.get)]: the first key whose count is the largest. *)
Definition max_step (best : value * Z) (entry : value * Z) : value * Z :=
  if (snd best <? snd entry)%Z then entry else best.

Definition py_max_key (d : dict Z) : result value :=
  match d with
  | [] => Raise ValueError
  | entry :: d' => Ok (fst (fold_left max_step d' entry))
  end.

(** [sorted(xs, key=key)] with string keys: Python's sort is stable and
    compares with [<] only, and a stable sort has a single result. *)
Fixpoint sorted_insert {X : Type} (key : X -> string) (x : X) (l : list X) : list X :=
  match l with
  | [] => [x]
  | y :: l' =>
      if String.ltb (key y) (key x) then y :: sorted_insert key x l'
      else x :: l
  end.

Fixpoint py_sorted {X : Type} (key : X -> string) (l : list X) : list X :=
  match l with
  | [] => []
  | x :: l' => sorted_insert key x (py_sorted key l')
  end.

(** Ascending order of strings, and of items by their string keys. *)
Definition str_le (a b : string) : Prop := String.ltb b a = false.

Definition key_le {X : Type} (key : X -> string) (x y : X) : Prop :=
  str_le (key x) (key y).

(** ** Numbers *)

(** The [float] nearest to an [int], for an [int] below [2^63] in
    magnitude; exact below [2^53].  Python converts an [int] of any size;
    the conversion here goes through a 63-bit word and wraps beyond it, so
    every statement about a quotient of [int]s is made of numbers below
    [2^53]. *)
Definition float_of_Z (z : Z) : float :=
  match z with
  | Z0 => 0%float
  | Zpos _ => of_uint63 (Uint63.of_Z z)
  | Zneg p => (- of_uint63 (Uint63.of_Z (Zpos p)))%float
  end.

(** [a / b] on [int]s: true division.  It is the quotient of the two
    converted operands whenever both are below [2^53] in magnitude, which
    every count of rows is. *)
Definition int_truediv (a b : Z) : result float :=
  if (b =? 0)%Z then Raise ZeroDivisionError
  else Ok (float_of_Z a / float_of_Z b)%float.

(** [x / y] on [float]s. *)
Definition float_truediv (x y : float) : result float :=
  if (y =? 0)%float then Raise ZeroDivisionError else Ok (x / y)%float.

(** [str(n)] for an [int] within the interpreter's limit on the digits of
    a conversion (4300 by default since CPython 3.11): beyond it [str]
    raises [ValueError], which [str_of_int] does not; see [str_int_ok]. *)
Definition str_of_int (n : Z) : string := NilZero.string_of_int (Z.to_int n).

(** ** What the program takes from its platform

    [math.log2] is the C library's; [repr] of a [float] is the shortest
    string that reads back; a [set] is iterated in hash-table order.  None
    of the three is fixed by the program text, so the model is parametric
    in them. *)
Class Platform : Type := {
  libm_log2 : float -> float;
  float_repr : float -> string;
  set_iter : list value -> list value
}.

(** What is relied upon: [log2(1.0)] is [+0] (C99 F.9.3.10). *)
Class PlatformOk (P : Platform) : Prop := {
  log2_one : libm_log2 1%float = 0%float
}.

(** ** The program *)

(** A row is a list of cells and a table a list of rows. *)
Abbreviation row := (list value) (only parsing).
Abbreviation table := (list (list value)) (only parsing).

(** [class TreeNode]: the three attributes set by [__init__]; a child may be
    [None]. *)
#[local] Unset Elimination Schemes.
Inductive TreeNode : Type :=
| TreeNode_init (attribute : option Z)
                (children : dict (option TreeNode))
                (label : option value).
#[local] Set Elimination Schemes.

Definition attribute (node : TreeNode) : option Z :=
  let 'TreeNode_init a _ _ := node in a.
Definition children (node : TreeNode) : dict (option TreeNode) :=
  let 'TreeNode_init _ c _ := node in c.
Definition label (node : TreeNode) : option value :=
  let 'TreeNode_init _ _ l := node in l.

(** What [print] has written: the lines, and the exception that ended the
    call if one was raised. *)
Definition printed : Type := (list string * option exn)%type.

Definition print_line (s : string) : printed := ([s], None).

Definition then_print (p : printed) (q : printed) : printed :=
  match snd p with
  | Some e => p
  | None => (fst p ++ fst q, snd q)
  end.

Fixpoint repeat_string (s : string) (n : nat) : string :=
  match n with
  | O => EmptyString
  | S n' => (s ++ repeat_string s n')%string
  end.

Section Program.

Context {P : Platform}.

(** [math.log2(x)]: a domain error unless [x] is positive or NaN. *)
Definition math_log2 (x : float) : result float :=
  if (0 <? x)%float || is_nan x then Ok (libm_log2 x) else Raise ValueError.

(** [str(v)] *)
Definition py_str (v : value) : string :=
  match v with
  | VInt n => str_of_int n
  | VFloat x => float_repr x
  | VStr s => s
  end.

Definition calculate_entropy (counts : dict Z) : result float :=
  let total := fold_left Z.add (dict_values counts) 0%Z in
  for_loop (dict_values counts) 0%float (fun entropy count =>
    p <- int_truediv count total ;;
    if (0 <? p)%float then
      l <- math_log2 p ;;
      Ok (entropy - p * l)%float
    else Ok entropy).

Definition calculate_attribute_info (data : table) (attribute_index : Z)
    : result float :=
  let total := len data in
  groups <- for_loop data [] (fun groups row =>
    value <- py_getitem row attribute_index ;;
    Ok (setdefault_append groups value row)) ;;
  for_loop (dict_values groups) 0%float (fun info subset =>
    decision_counts <- for_loop subset [] (fun decision_counts r =>
      dec_value <- py_getitem r (-1) ;;
      Ok (count_step decision_counts dec_value)) ;;
    subset_entropy <- calculate_entropy decision_counts ;;
    weight <- int_truediv (len subset) total ;;
    Ok (info + weight * subset_entropy)%float).

Definition calculate_gain (data : table) (attribute_index : Z)
    (decision_entropy : float) : result float :=
  attribute_info <- calculate_attribute_info data attribute_index ;;
  Ok (decision_entropy - attribute_info)%float.

Definition calculate_split_info (data : table) (attribute_index : Z)
    : result float :=
  counts <- for_loop data [] (fun counts row =>
    value <- py_getitem row attribute_index ;;
    Ok (count_step counts value)) ;;
  calculate_entropy counts.

(** The literal [0] returned for a zero split is an [int]; it compares and
    prints nowhere differently from [0.0] in this program. *)
Definition calculate_gain_ratio (data : table) (attribute_index : Z)
    (decision_entropy : float) : result float :=
  gain <- calculate_gain data attribute_index decision_entropy ;;
  split_info <- calculate_split_info data attribute_index ;;
  if (split_info =? 0)%float then Ok 0%float
  else float_truediv gain split_info.

(** The loop of [build_tree] over [range(num_attributes)]: the state is
    [(best_attribute, best_gain_ratio)]. *)
Definition select_step (data : table) (decision_entropy : float)
    (best : option Z * float) (i : nat) : result (option Z * float) :=
  gr <- calculate_gain_ratio data (Z.of_nat i) decision_entropy ;;
  if (snd best <? gr)%float then Ok (Some (Z.of_nat i), gr) else Ok best.

Definition select_attribute (data : table) (decision_entropy : float)
    (num_attributes : Z) : result (option Z * float) :=
  for_loop (seq 0 (Z.to_nat num_attributes)) (None, (-1)%float)
    (select_step data decision_entropy).

Fixpoint build_tree_fuel (fuel : nat) (data : table) {struct fuel}
    : comp (option TreeNode) :=
  match fuel with
  | O => None
  | S fuel' =>
    match data with
    | [] => lift (Ok None)
    | row0 :: _ =>
      decisions <~ lift (py_map (fun row => py_getitem row (-1)) data) ;;
      if (len (py_set decisions) =? 1)%Z then
        first <~ lift (py_getitem decisions 0) ;;
        lift (Ok (Some (TreeNode_init None [] (Some first))))
      else
        let decision_counts := count_values decisions in
        decision_entropy <~ lift (calculate_entropy decision_counts) ;;
        let num_attributes := (len row0 - 1)%Z in
        '(best_attribute, best_gain_ratio) <~
          lift (select_attribute data decision_entropy num_attributes) ;;
        if (best_gain_ratio =? 0)%float then
          majority_label <~ lift (py_max_key decision_counts) ;;
          lift (Ok (Some (TreeNode_init None [] (Some majority_label))))
        else
          cells <~ lift (py_map (fun row => py_getitem_opt row best_attribute) data) ;;
          let values := set_iter (py_set cells) in
          node_children <~ for_comp values [] (fun node_children value =>
            subset <~ lift (py_filter (fun row =>
                         cell <- py_getitem_opt row best_attribute ;;
                         Ok (py_eq cell value)) data) ;;
            child <~ build_tree_fuel fuel' subset ;;
            lift (Ok (dict_set node_children value child))) ;;
          lift (Ok (Some (TreeNode_init best_attribute node_children None)))
    end
  end.

(** Each recursive call is on fewer rows (proved below), so one unit of fuel
    per row and one more always suffice. *)
Definition build_tree (data : table) : comp (option TreeNode) :=
  build_tree_fuel (S (length data)) data.

Definition indent_of (indent_level : nat) : string :=
  repeat_string "          " indent_level.

Definition item_key (item : value * printed) : string := py_str (fst item).

(** The line for a missing tree. *)
Definition print_none (indent_level : nat) (value_prefix : string) : printed :=
  print_line (indent_of indent_level ++ value_prefix ++ "Brak drzewa")%string.

(** The body of [print_tree] for a node that is not [None].  The lines of
    each child are computed where the child is met and then arranged in
    sorted order; [print_tree_internal] below states the loop in the order
    the program runs it. *)
Fixpoint print_node (node : TreeNode) (indent_level : nat)
    (value_prefix : string) {struct node} : printed :=
  let indent := indent_of indent_level in
  let 'TreeNode_init node_attribute node_children node_label := node in
  match node_label with
  | Some l => print_line (indent ++ value_prefix ++ " -> D: " ++ py_str l)%string
  | None =>
    match node_attribute with
    | None => ([], Some TypeError)
    | Some a =>
      let attribute_display_index := (a + 1)%Z in
      let header :=
        if Nat.eqb indent_level 0 then
          print_line ("Atrybut: " ++ str_of_int attribute_display_index)%string
        else
          print_line (indent ++ value_prefix ++ "->Atrybut: "
                      ++ str_of_int attribute_display_index)%string in
      let outputs :=
        (fix visit (items : dict (option TreeNode)) : list (value * printed) :=
           match items with
           | [] => []
           | (value, child) :: items' =>
               (value,
                match child with
                | None => print_none (S indent_level) (py_str value)
                | Some n => print_node n (S indent_level) (py_str value)
                end) :: visit items'
           end) node_children in
      fold_left then_print (map snd (py_sorted item_key outputs)) header
    end
  end.

Definition print_tree (node : option TreeNode) (indent_level : nat)
    (value_prefix : string) : printed :=
  match node with
  | None => print_none indent_level value_prefix
  | Some n => print_node n indent_level value_prefix
  end.

(** What [print_tree] runs for one entry of [sorted_children]. *)
Definition print_child (indent_level : nat) (item : value * option TreeNode)
    : printed :=
  print_tree (snd item) (S indent_level) (py_str (fst item)).

Definition child_key (item : value * option TreeNode) : string :=
  py_str (fst item).

Definition header_line (a : Z) (indent_level : nat) (value_prefix : string)
    : string :=
  if Nat.eqb indent_level 0 then ("Atrybut: " ++ str_of_int (a + 1))%string
  else (indent_of indent_level ++ value_prefix ++ "->Atrybut: "
        ++ str_of_int (a + 1))%string.

End Program.

(** ** The specification's format contract *)

(** The root line as the specification's format contract spells it. *)
Definition spec_root_line (display_index : Z) : string :=
  ("Attribute: " ++ str_of_int display_index)%string.

(** ** A platform to run examples on

    [log2_ref] stands in for the C library: exact at the powers of two and
    within a few units in the last place elsewhere.  No example prints a
    [float], so [float_repr] is a placeholder, and the set is iterated in
    first-occurrence order. *)

Fixpoint atanh_series (n : nat) (t2 pow k acc : float) : float :=
  match n with
  | O => acc
  | S n' => atanh_series n' t2 (pow * t2) (k + 2) (acc + pow / k)
  end.

Definition log2_ref (x : float) : float :=
  let '(m, e) := Z.frexp x in
  let y := (2 * m)%float in
  let t := ((y - 1) / (y + 1))%float in
  (float_of_Z (e - 1) + 2 * atanh_series 24 (t * t) t 1 0 / 0x1.62e42fefa39efp-1)%float.

Definition ref_platform : Platform :=
  {| libm_log2 := log2_ref;
     float_repr := fun _ => "nan"%string;
     set_iter := fun s => s |}.

(** ** Vocabulary of the statements *)

(** The sum of the counts of a distribution, and the counts being positive. *)
Definition total_count (d : dict Z) : Z := fold_left Z.add (dict_values d) 0%Z.

Definition positive_counts (d : dict Z) : Prop := Forall (fun e => (0 < snd e)%Z) d.

(** A row has a cell at index [i]; every row of a table can be read at the
    attribute index and at its decision (last) cell. *)
Definition has_cell (i : Z) (r : row) : Prop := exists c, py_getitem r i = Ok c.

Definition readable (i : Z) (data : table) : Prop :=
  Forall (fun r => has_cell i r /\ has_cell (-1) r) data.

(** All rows have the same number of cells. *)
Definition rectangular (width : nat) (data : table) : Prop :=
  Forall (fun r => length r = width) data.

(** The groups that [calculate_attribute_info] accumulates, from the rows
    paired with their cells. *)
Definition group_step (groups : dict table) (rc : row * value) : dict table :=
  setdefault_append groups (snd rc) (fst rc).

Definition group_rows (data : table) (cells : list value) : dict table :=
  fold_left group_step (combine data cells) [].

(** Every group is non-empty and made of rows of the table. *)
Definition groups_inv (data : table) (groups : dict table) : Prop :=
  Forall (fun g => snd g <> [] /\ incl (snd g) data) groups.

(** The entropy that [calculate_attribute_info] computes for one group:
    the decisions of its rows are counted and the counts passed to
    [calculate_entropy]. *)
Definition group_entropy {P : Platform} (group : table) : result float :=
  decisions <- py_map (fun r : row => py_getitem r (-1)) group ;;
  calculate_entropy (count_values decisions).

(** The term one group adds to the conditional information of a table
    with [total] rows. *)
Definition group_term {P : Platform} (total : Z) (info : float) (subset : table)
    : result float :=
  entropy <- group_entropy subset ;;
  weight <- int_truediv (len subset) total ;;
  Ok (info + weight * entropy)%float.

(** The cells of all rows at an index are equal to one another. *)
Definition constant_column (i : Z) (data : table) : Prop :=
  forall r r' c c', In r data -> In r' data ->
    py_getitem r i = Ok c -> py_getitem r' i = Ok c' -> py_eq c c' = true.

(** ** Example tables *)

(** Scenario 1 of the specification. *)
Definition scenario_1 : table :=
  [[VInt 1; VInt 1; VStr "A"]; [VInt 1; VInt 2; VStr "A"];
   [VInt 2; VInt 1; VStr "B"]; [VInt 2; VInt 2; VStr "B"]].

(** Two groups of two rows; the decisions of the first are split evenly
    and those of the second agree. *)
Definition mixed_groups : table :=
  [[VInt 1; VStr "A"]; [VInt 1; VStr "B"]; [VInt 2; VStr "A"]; [VInt 2; VStr "A"]].

(** Attribute 0 is constant while the decisions vary (scenario 3). *)
Definition scenario_3 : table :=
  [[VInt 7; VInt 1; VStr "A"]; [VInt 7; VInt 2; VStr "B"];
   [VInt 7; VInt 1; VStr "A"]].

(** Two rows that have a decision and no condition attribute. *)
Definition decisions_only : table := [[VStr "A"]; [VStr "B"]].

(** Three rows that have a decision and no condition attribute. *)
Definition votes_only : table := [[VStr "tak"]; [VStr "nie"]; [VStr "nie"]].

(** A single row (scenario 2 of the specification). *)
Definition scenario_2 : table := [[VInt 5; VStr "X"]].

(** A table whose first row has NaN as its condition attribute. *)
Definition nan_table : table :=
  [[VFloat nan; VStr "A"]; [VFloat 1; VStr "B"]].

(** ** Vocabulary of the selection loop *)

(** The gain ratio of the attribute with index [j]. *)
Definition gain_ratio_at {P : Platform} (data : table) (decision_entropy : float)
    (j : nat) : result float :=
  calculate_gain_ratio data (Z.of_nat j) decision_entropy.

(** Among the indices below [hi], [i] is the first whose gain ratio is the
    highest: none is strictly higher, none before [i] is as high, and it
    exceeds the initial [-1.0]. *)
Definition first_maximal {P : Platform} (data : table) (decision_entropy : float)
    (hi i : nat) (best : float) : Prop :=
  i < hi
  /\ gain_ratio_at data decision_entropy i = Ok best
  /\ (-1 <? best)%float = true
  /\ (forall j g, j < hi -> gain_ratio_at data decision_entropy j = Ok g ->
                  (best <? g)%float = false)
  /\ (forall j g, j < i -> gain_ratio_at data decision_entropy j = Ok g ->
                  (best <=? g)%float = false).

(** The state [(best_attribute, best_gain_ratio)] after the indices below
    [hi] have been scanned. *)
Definition selection_inv {P : Platform} (data : table) (decision_entropy : float)
    (hi : nat) (st : option Z * float) : Prop :=
  (forall j, j < hi -> exists g, gain_ratio_at data decision_entropy j = Ok g)
  /\ match fst st with
     | Some a => exists i, a = Z.of_nat i
                           /\ first_maximal data decision_entropy hi i (snd st)
     | None => snd st = (-1)%float
               /\ forall j g, j < hi ->
                    gain_ratio_at data decision_entropy j = Ok g ->
                    (-1 <? g)%float = false
     end.

(** The scan stopped at index [j] with exception [e]: the earlier indices
    were computed and [j] is the first to raise. *)
Definition first_raise {P : Platform} (data : table) (decision_entropy : float)
    (hi : nat) (e : exn) : Prop :=
  exists j, j < hi
    /\ gain_ratio_at data decision_entropy j = Raise e
    /\ forall j', j' < j -> exists g, gain_ratio_at data decision_entropy j' = Ok g.

(** ** Vocabulary of keyed accumulation *)

(** The common shape of [counts[v] = counts.get(v, 0) + 1] and of
    [groups.setdefault(v, []).append(row)]: update the entry of the key if
    there is one, else append a fresh entry. *)
Fixpoint dict_upsert {A X : Type} (upd : A -> X -> A) (init : X -> A)
    (d : dict A) (k : value) (x : X) : dict A :=
  match d with
  | [] => [(k, init x)]
  | (k', a) :: d' =>
      if py_eq k' k then (k', upd a x) :: d'
      else (k', a) :: dict_upsert upd init d' k x
  end.

(** The items filed under a key, in order. *)
Definition matches {X : Type} (key : value) (pairs : list (value * X)) : list X :=
  map snd (filter (fun kx => py_eq key (fst kx)) pairs).

(** A group with the items of [pairs] that are filed under its key. *)
Definition group_extended {X : Type} (pairs : list (value * X))
    (group : value * list X) : value * list X :=
  (fst group, snd group ++ matches (fst group) pairs).

(** No two of the keys are equal. *)
Definition distinct_keys (keys : list value) : Prop :=
  ForallOrdPairs (fun a b => py_eq a b = false) keys.

(** How often a value occurs in a list. *)
Definition occurrences (v : value) (vs : list value) : Z :=
  len (filter (fun x => py_eq v x) vs).

(** No cell of the list is NaN. *)
Definition no_nan (vs : list value) : Prop :=
  Forall (fun v => py_eq v v = true) vs.

(** ** The specification's reading of conditional information

    Sections 4.1 and 4.2 of the specification, word for word and without
    the program's functions.  A distribution groups values by equality and
    counts each group; the entropy of a distribution is the sum of
    [- p * log2(p)] over its counts, with [p = count / total] and the terms
    of probability zero left out; the conditional information partitions
    the rows into groups keyed by the attribute's value and sums the
    entropies of the groups' decision distributions, each weighted by
    [|group| / |table|]. *)

(** Grouping by equality of the key.  The items are taken in order: an item
    whose key equals one met before belongs to the group opened there;
    any other item opens a group, made of it and of the later items whose
    key equals its own.  [seen] holds the keys met so far. *)
Fixpoint spec_groups {X : Type} (pairs : list (value * X)) (seen : list value)
    : dict (list X) :=
  match pairs with
  | [] => []
  | (k, x) :: rest =>
      if existsb (fun k' => py_eq k' k) seen then spec_groups rest seen
      else (k, x :: matches k rest) :: spec_groups rest (seen ++ [k])
  end.

(** The rows in groups keyed by their cells. *)
Definition spec_partition (data : table) (cells : list value) : list table :=
  dict_values (spec_groups (combine cells data) []).

(** The values in groups of equal values, each group with its size. *)
Definition spec_distribution (values : list value) : dict Z :=
  map (fun group => (fst group, len (snd group)))
      (spec_groups (combine values values) []).

Section SpecificationEntropy.

Context {P : Platform}.

Definition spec_entropy (distribution : dict Z) : float :=
  let total := total_count distribution in
  fold_left (fun sum count =>
               let p := (float_of_Z count / float_of_Z total)%float in
               if (0 <? p)%float then (sum + - (p * libm_log2 p))%float else sum)
            (dict_values distribution) 0%float.

Definition spec_weight (group data : table) : float :=
  (float_of_Z (len group) / float_of_Z (len data))%float.

Definition spec_conditional_info (data : table) (attribute_index : Z)
    : result float :=
  cells <- py_map (fun r : row => py_getitem r attribute_index) data ;;
  terms <- py_map (fun group : table =>
             decisions <- py_map (fun r : row => py_getitem r (-1)) group ;;
             Ok (spec_weight group data
                 * spec_entropy (spec_distribution decisions))%float)
           (spec_partition data cells) ;;
  Ok (fold_left (fun sum term => (sum + term)%float) terms 0%float).

End SpecificationEntropy.

(** ** Vocabulary of the builder *)

(** [[row[-1] for row in data]] *)
Definition decisions_of (data : table) : result (list value) :=
  py_map (fun r : row => py_getitem r (-1)) data.

(** [TreeNode(label=l)] *)
Definition leaf (l : value) : TreeNode := TreeNode_init None [] (Some l).

(** Every decision after the first equals the first: all rows share one
    decision value. *)
Definition same_decision (d0 : value) (ds : list value) : Prop :=
  forall d, In d ds -> py_eq d0 d = true.

(** The label has the largest count of the distribution. *)
Definition majority (counts : dict Z) (m : value) : Prop :=
  exists c, In (m, c) counts /\ forall k c', In (k, c') counts -> (c' <= c)%Z.

(** [[row for row in data if row[best_attribute] == value]], from the rows
    paired with their cells. *)
Definition select_rows (data : table) (cells : list value) (v : value) : table :=
  map fst (filter (fun rc => py_eq (snd rc) v) (combine data cells)).

(** The scan of the attributes selects nothing on the table itself, or on
    one of the subsets that [build_tree] visits below it. *)
Inductive unselected {P : Platform} : table -> Prop :=
| unselected_here (row0 : row) (rest : table) (ds : list value) (de best : float) :
    decisions_of (row0 :: rest) = Ok ds ->
    calculate_entropy (count_values ds) = Ok de ->
    select_attribute (row0 :: rest) de (len row0 - 1) = Ok (None, best) ->
    unselected (row0 :: rest)
| unselected_below (row0 : row) (rest : table) (ds : list value) (de best : float)
    (a : Z) (cells : list value) (v : value) :
    decisions_of (row0 :: rest) = Ok ds ->
    calculate_entropy (count_values ds) = Ok de ->
    select_attribute (row0 :: rest) de (len row0 - 1) = Ok (Some a, best) ->
    py_map (fun r : row => py_getitem r a) (row0 :: rest) = Ok cells ->
    unselected (select_rows (row0 :: rest) cells v) ->
    unselected (row0 :: rest).

(** ** The attribute statistics

    [calculate_attribute_stats] looks up [data[0]] and [stats[i]]; its
    exceptions are the two lookup errors, [KeyError] with the missing key. *)

Inductive stats_result (A : Type) : Type :=
| StatsOk (a : A)
| StatsIndexError
| StatsKeyError (key : Z).

Arguments StatsOk {A} a.
Arguments StatsIndexError {A}.
Arguments StatsKeyError {A} key.

(** A dictionary with [int] keys, in insertion order. *)
Definition int_dict (A : Type) : Type := list (Z * A).

Fixpoint int_dict_get {A : Type} (d : int_dict A) (k : Z) : option A :=
  match d with
  | [] => None
  | (k', a) :: d' => if (k' =? k)%Z then Some a else int_dict_get d' k
  end.

Fixpoint int_dict_set {A : Type} (d : int_dict A) (k : Z) (a : A) : int_dict A :=
  match d with
  | [] => [(k, a)]
  | (k', a') :: d' =>
      if (k' =? k)%Z then (k', a) :: d' else (k', a') :: int_dict_set d' k a
  end.

(** [for x in xs: s = body(s, x)], stopping at the first exception. *)
Fixpoint stats_loop {S X : Type} (xs : list X) (s : S)
    (body : S -> X -> stats_result S) : stats_result S :=
  match xs with
  | [] => StatsOk s
  | x :: xs' =>
      match body s x with
      | StatsOk s' => stats_loop xs' s' body
      | StatsIndexError => StatsIndexError
      | StatsKeyError k => StatsKeyError k
      end
  end.

(** [enumerate(row)] *)
Definition enumerate {A : Type} (l : list A) : list (Z * A) :=
  combine (map Z.of_nat (seq 0 (length l))) l.

(** The assignment [stats[i][value] = stats[i].get(value, 0) + 1] changes
    the dictionary that is stored under [i]. *)
Definition stats_step (stats : int_dict (dict Z)) (item : Z * value)
    : stats_result (int_dict (dict Z)) :=
  let '(i, value) := item in
  match int_dict_get stats i with
  | None => StatsKeyError i
  | Some column => StatsOk (int_dict_set stats i (count_step column value))
  end.

Definition calculate_attribute_stats (data : table)
    : stats_result (int_dict (dict Z)) :=
  match data with
  | [] => StatsIndexError
  | row0 :: _ =>
      let num_attributes := length row0 in
      let stats :=
        fold_left (fun stats i => int_dict_set stats (Z.of_nat i) [])
                  (seq 0 num_attributes) [] in
      stats_loop data stats (fun stats row =>
        stats_loop (enumerate row) stats stats_step)
  end.

(** The cells at index [i] of the rows that have one. *)
Definition column_cells (i : nat) (data : table) : list value :=
  flat_map (fun r : row => match nth_error r i with
                           | Some c => [c]
                           | None => []
                           end) data.

(** The columns after one more row has been counted. *)
Fixpoint count_row (columns : list (dict Z)) (r : row) : list (dict Z) :=
  match columns, r with
  | column :: columns', v :: r' => count_step column v :: count_row columns' r'
  | _, _ => columns
  end.

(** The dictionary that holds the columns under the keys [off], [off + 1],
    and so on. *)
Definition keyed_from (off : nat) (columns : list (dict Z)) : int_dict (dict Z) :=
  combine (map Z.of_nat (seq off (length columns))) columns.

(** ** Vocabulary of the outcomes *)

(** The index is within the bounds of the row, counting from either end. *)
Definition in_bounds (i : Z) (r : row) : Prop := (- len r <= i < len r)%Z.

(** How a function that reads the cell at [i] of every row ends: it
    returns when the index is within the bounds of every row, and raises
    [IndexError] when it is not within those of some row. *)
Definition reads_column (i : Z) (data : table) (outcome : result float) : Prop :=
  match outcome with
  | Ok _ => Forall (in_bounds i) data
  | Raise e => e = IndexError /\ Exists (fun r => ~ in_bounds i r) data
  end.

(** The counts and their sum are integers that a [float] holds exactly, so
    that [int_truediv] on them is Python's [/]. *)
Definition exact_counts (counts : dict Z) : Prop :=
  Forall (fun c => (Z.abs c < 2 ^ 53)%Z) (dict_values counts)
  /\ (Z.abs (total_count counts) < 2 ^ 53)%Z.

(** ** Vocabulary of one step of the builder *)

(** One call of [build_tree] on a non-empty table that returns a node, with
    [build] standing for the recursive calls: the three ways to a node. *)
Inductive build_step {P : Platform} (build : table -> comp (option TreeNode))
    (row0 : row) (rest : table) : TreeNode -> Prop :=
| step_pure (d0 : value) (ds : list value) :
    decisions_of (row0 :: rest) = Ok (d0 :: ds) ->
    same_decision d0 ds ->
    build_step build row0 rest (leaf d0)
| step_majority (ds : list value) (de best : float) (best_attribute : option Z)
    (m : value) :
    decisions_of (row0 :: rest) = Ok ds ->
    (len (py_set ds) =? 1)%Z = false ->
    calculate_entropy (count_values ds) = Ok de ->
    select_attribute (row0 :: rest) de (len row0 - 1) = Ok (best_attribute, best) ->
    (best =? 0)%float = true ->
    py_max_key (count_values ds) = Ok m ->
    build_step build row0 rest (leaf m)
| step_internal (ds : list value) (de best : float) (a : Z) (cells : list value)
    (cs : dict (option TreeNode)) :
    decisions_of (row0 :: rest) = Ok ds ->
    (len (py_set ds) =? 1)%Z = false ->
    calculate_entropy (count_values ds) = Ok de ->
    select_attribute (row0 :: rest) de (len row0 - 1) = Ok (Some a, best) ->
    (best =? 0)%float = false ->
    py_map (fun r : row => py_getitem r a) (row0 :: rest) = Ok cells ->
    dict_keys cs = py_set (set_iter (py_set cells)) ->
    (forall k child, In (k, child) cs ->
       In k (set_iter (py_set cells))
       /\ build (select_rows (row0 :: rest) cells k) = Some (Ok child)) ->
    build_step build row0 rest (TreeNode_init (Some a) cs None).

(** ** Vocabulary of trees *)

(** The node occurs in the tree: it is the tree itself or occurs in one of
    its children. *)
Inductive occurs (n : TreeNode) : TreeNode -> Prop :=
| occurs_here : occurs n n
| occurs_below (a : option Z) (cs : dict (option TreeNode)) (l : option value)
    (k : value) (child : TreeNode) :
    In (k, Some child) cs -> occurs n child -> occurs n (TreeNode_init a cs l).

(** Along every path from the root, each internal node tests an attribute
    below [bound] that none of its ancestors (nor [used]) tests. *)
Inductive tests_fresh (bound : Z) (used : list Z) : TreeNode -> Prop :=
| fresh_leaf (l : value) : tests_fresh bound used (leaf l)
| fresh_internal (a : Z) (cs : dict (option TreeNode)) :
    (0 <= a < bound)%Z -> ~ In a used ->
    (forall k child, In (k, Some child) cs -> tests_fresh bound (a :: used) child) ->
    tests_fresh bound used (TreeNode_init (Some a) cs None).

(** The largest number of internal nodes on a path from the root. *)
Fixpoint depth (node : TreeNode) : nat :=
  let 'TreeNode_init node_attribute node_children _ := node in
  match node_attribute with
  | None => 0
  | Some _ =>
      S ((fix deepest (items : dict (option TreeNode)) : nat :=
            match items with
            | [] => 0
            | (_, child) :: items' =>
                Nat.max (match child with
                         | None => 0
                         | Some n => depth n
                         end) (deepest items')
            end) node_children)
  end.

(** The largest depth among the children of a node. *)
Definition deepest_child (cs : dict (option TreeNode)) : nat :=
  fold_right (fun item d =>
    Nat.max (match snd item with None => 0 | Some n => depth n end) d) 0 cs.

(** What a platform's [set] iteration can be relied upon for: it yields the
    elements of the set, each once. *)
Class SetIterOk (P : Platform) : Prop := {
  set_iter_perm : forall s, Permutation (set_iter s) s
}.

(** Every node that is reached without a label has an attribute. *)
Inductive printable : TreeNode -> Prop :=
| printable_leaf (a : option Z) (cs : dict (option TreeNode)) (l : value) :
    printable (TreeNode_init a cs (Some l))
| printable_internal (a : Z) (cs : dict (option TreeNode)) :
    (forall k child, In (k, Some child) cs -> printable child) ->
    printable (TreeNode_init (Some a) cs None).

(** The nodes and missing children that [print_tree] visits: one for a
    labelled node, and for an internal node one more than its children
    have together. *)
Fixpoint line_count (node : TreeNode) : nat :=
  let 'TreeNode_init _ node_children node_label := node in
  match node_label with
  | Some _ => 1
  | None =>
      S ((fix total (items : dict (option TreeNode)) : nat :=
            match items with
            | [] => 0
            | (_, child) :: items' =>
                match child with
                | None => 1
                | Some n => line_count n
                end + total items'
            end) node_children)
  end.

Definition child_line_count (item : value * option TreeNode) : nat :=
  match snd item with
  | None => 1
  | Some n => line_count n
  end.

(** ** Vocabulary of the serializer *)

(** [str] of an [int] raises [ValueError] when the number has more digits
    than the interpreter converts, 4300 unless it is configured otherwise
    (CPython 3.11 and later).  [str_of_int] is [str] on the numbers below
    that limit; these are the values and the trees whose numbers are. *)
Definition int_max_str_digits : Z := 4300.

Definition str_int_ok (n : Z) : Prop := (Z.abs n < 10 ^ int_max_str_digits)%Z.

Definition str_ok (v : value) : Prop :=
  match v with
  | VInt n => str_int_ok n
  | _ => True
  end.

(** The numbers that [print_tree] converts on its way through a tree: the
    label of a labelled node, the display index of an internal node and the
    branch values of its children, and the same below each child. *)
Inductive strs_ok : TreeNode -> Prop :=
| strs_ok_leaf (a : option Z) (cs : dict (option TreeNode)) (l : value) :
    str_ok l -> strs_ok (TreeNode_init a cs (Some l))
| strs_ok_bare (cs : dict (option TreeNode)) :
    strs_ok (TreeNode_init None cs None)
| strs_ok_internal (a : Z) (cs : dict (option TreeNode)) :
    str_int_ok (a + 1) ->
    (forall k child, In (k, child) cs -> str_ok k) ->
    (forall k child, In (k, Some child) cs -> strs_ok child) ->
    strs_ok (TreeNode_init (Some a) cs None).

(** What a sequence of calls has written and how it ended, each call given
    by what it writes on its own: the calls run in order up to the first
    that raises, and that one's exception ends the sequence. *)
Definition calls_in_order (outs : list printed) (result : printed) : Prop :=
  (Forall (fun q => snd q = None) outs
   /\ result = (concat (map fst outs), None))
  \/ (exists before q after e,
        outs = before ++ q :: after
        /\ Forall (fun q' => snd q' = None) before
        /\ snd q = Some e
        /\ result = (concat (map fst before) ++ fst q, Some e)).

(** ** Vocabulary of the order of set iteration *)

(** Cells of one column that are written the same way are the same value. *)
Definition str_injective {P : Platform} (data : table) : Prop :=
  forall r r' i c c', In r data -> In r' data ->
    nth_error r i = Some c -> nth_error r' i = Some c' ->
    py_str c = py_str c' -> c = c'.

(** The reference platform with its sets iterated from the last element to
    the first. *)
Definition rev_platform : Platform :=
  {| libm_log2 := log2_ref;
     float_repr := fun _ => "nan"%string;
     set_iter := @rev value |}.

(** The output of [print_tree] for the child that [build] returns on the
    rows selected for a branch value. *)
Definition branch_output {P : Platform} (build : table -> comp (option TreeNode))
    (data : table) (cells : list value) (indent_level : nat) (k : value)
    : value * printed :=
  (k, match build (select_rows data cells k) with
      | Some (Ok child) => print_tree child (S indent_level) (py_str k)
      | _ => ([], None)
      end).

(** The tree of scenario 1: a test of attribute 0 with a leaf under each of
    its two values. *)
Definition scenario_1_children : dict (option TreeNode) :=
  [(VInt 1, Some (leaf (VStr "A"))); (VInt 2, Some (leaf (VStr "B")))].

Definition scenario_1_tree : TreeNode :=
  TreeNode_init (Some 0%Z) scenario_1_children None.

(** The line begins with the indentation of the level. *)
Definition indented (indent_level : nat) (line : string) : Prop :=
  exists rest, line = (indent_of indent_level ++ rest)%string.

(** * Properties *)

(** ** Scalar equality is a partial equivalence *)

Lemma pykey_eqb_eq (a b : pykey) : pykey_eqb a b = true <-> a = b.
Proof.
  destruct a, b; simpl; try (split; [discriminate | congruence]).
  - rewrite andb_true_iff, !Z.eqb_eq. split; [intros [-> ->] | intros [= -> ->]]; auto.
  - rewrite Bool.eqb_true_iff. split; congruence.
  - rewrite String.eqb_eq. split; congruence.
Qed.

Lemma py_eq_keys (a b : value) :
  py_eq a b = true <-> exists k, py_key a = Some k /\ py_key b = Some k.
Proof.
  unfold py_eq. destruct (py_key a) as [k |], (py_key b) as [k' |].
  - rewrite pykey_eqb_eq. split.
    + intros ->. eauto.
    + intros (k0 & [= ->] & [= ->]). reflexivity.
  - split; [discriminate | intros (? & _ & [=])].
  - split; [discriminate | intros (? & [=] & _)].
  - split; [discriminate | intros (? & [=] & _)].
Qed.

Lemma py_eq_sym (a b : value) : py_eq a b = py_eq b a.
Proof.
  apply eq_true_iff_eq. rewrite !py_eq_keys.
  split; intros (k & ? & ?); eauto.
Qed.

Lemma py_eq_trans (a b c : value) :
  py_eq a b = true -> py_eq b c = true -> py_eq a c = true.
Proof.
  rewrite !py_eq_keys. intros (k & Ha & Hb) (k' & Hb' & Hc).
  exists k. split; congruence.
Qed.

(** A scalar that equals anything equals itself: it is not NaN. *)
Lemma py_eq_refl_l (a b : value) : py_eq a b = true -> py_eq a a = true.
Proof. intros H. eapply py_eq_trans; [exact H | now rewrite py_eq_sym]. Qed.

Lemma py_eq_refl_r (a b : value) : py_eq a b = true -> py_eq b b = true.
Proof. rewrite py_eq_sym. apply py_eq_refl_l. Qed.

(** ** Binary64 facts

    Read off the specification of the primitive operations. *)

Module FloatFacts.

Lemma digits2_pos_le (p : positive) :
  forall n : Z, (0 <= n)%Z -> (Zpos p < 2 ^ n)%Z -> (Zpos (digits2_pos p) <= n)%Z.
Proof.
  induction p as [q IH | q IH | ]; intros n Hn Hlt; simpl digits2_pos;
    assert (Hn0 : n <> 0%Z) by (intros ->; simpl in Hlt; lia);
    try (replace n with (Z.succ (n - 1)) in Hlt by lia;
         rewrite Z.pow_succ_r in Hlt by lia;
         specialize (IH (n - 1)%Z));
    lia.
Qed.

Lemma digits2_pos_shift (k p : positive) :
  digits2_pos (Pos.iter xO p k) = (digits2_pos p + k)%positive.
Proof.
  induction k as [| k IH] using Pos.peano_ind.
  - simpl. lia.
  - rewrite Pos.iter_succ. simpl. rewrite IH. lia.
Qed.

(** A 53-bit mantissa with an exponent in range is not rounded. *)
Lemma shr_fexp_full (m : positive) (e : Z) :
  Zpos (digits2_pos m) = 53%Z -> (-1074 <= e)%Z ->
  shr_fexp prec emax (Zpos m) e loc_Exact =
  ({| shr_m := Zpos m; shr_r := false; shr_s := false |}, e).
Proof.
  intros Hd He. unfold shr_fexp. simpl Zdigits2. rewrite Hd.
  replace (fexp prec emax (53 + e) - e)%Z with 0%Z
    by (unfold fexp, emin, prec, emax; lia).
  reflexivity.
Qed.

Lemma binary_round_aux_full (s : bool) (m : positive) (e : Z) :
  Zpos (digits2_pos m) = 53%Z -> (-1074 <= e <= 971)%Z ->
  binary_round_aux prec emax s (Zpos m) e loc_Exact = S754_finite s m e.
Proof.
  intros Hd He. unfold binary_round_aux.
  rewrite (shr_fexp_full m Hd) by lia.
  cbn [shr_m loc_of_shr_record round_nearest_even].
  rewrite (shr_fexp_full m Hd) by lia.
  cbn [shr_m].
  replace (e <=? emax - prec)%Z with true; [reflexivity |].
  symmetry. apply Z.leb_le. unfold emax, prec. lia.
Qed.

Lemma binary_round_small (p : positive) :
  (Zpos p < 2 ^ 53)%Z ->
  exists m e, binary_round prec emax false p 0 = S754_finite false m e.
Proof.
  intros Hp.
  pose proof (@digits2_pos_le p 53 ltac:(lia) Hp) as Hd.
  unfold binary_round.
  set (d := digits2_pos p) in *.
  assert (Hf : fexp prec emax (Z.pos d + 0) = (Z.pos d - 53)%Z)
    by (unfold fexp, emin, prec, emax; lia).
  rewrite Hf. unfold shl_align.
  destruct (Z.pos d - 53 - 0)%Z as [| k | k] eqn:Hk; try lia.
  - rewrite binary_round_aux_full; eauto; fold d; lia.
  - rewrite binary_round_aux_full; eauto.
    + rewrite digits2_pos_shift. fold d. lia.
    + lia.
Qed.

(** A positive count below [2^53] converts to a finite nonzero float. *)
Lemma float_of_Z_finite (n : Z) :
  (0 < n < 2 ^ 53)%Z ->
  exists m e, Prim2SF (float_of_Z n) = S754_finite false m e.
Proof.
  intros [Hpos Hlt]. destruct n as [| p | p]; try lia.
  unfold float_of_Z. rewrite of_uint63_spec, Uint63.of_Z_spec.
  rewrite Z.mod_small.
  - simpl binary_normalize. now apply binary_round_small.
  - split; [lia |]. eapply Z.lt_trans; [exact Hlt |]. reflexivity.
Qed.

Lemma SFdiv_self (s : bool) (m : positive) (e : Z) :
  SF64div (S754_finite s m e) (S754_finite s m e) = Prim2SF 1%float.
Proof.
  unfold SF64div, SFdiv, SFdiv_core_binary.
  replace (Zdigits2 (Z.pos m) + e - (Zdigits2 (Z.pos m) + e))%Z with 0%Z by lia.
  replace (e - e)%Z with 0%Z by lia.
  change (Z.min (fexp prec emax 0) 0) with (-53)%Z.
  change (0 - -53)%Z with 53%Z. cbv iota.
  rewrite Z.shiftl_mul_pow2 by lia.
  assert (Hdiv : Z.div_eucl (Z.pos m * 2 ^ 53) (Z.pos m) = (2 ^ 53, 0)%Z).
  { pose proof (@Z.div_mul (2 ^ 53) (Z.pos m) ltac:(lia)) as Hq.
    pose proof (@Z.mod_mul (2 ^ 53) (Z.pos m) ltac:(lia)) as Hr.
    rewrite (Z.mul_comm (2 ^ 53)) in Hq, Hr.
    unfold Z.div in Hq. unfold Z.modulo in Hr.
    destruct (Z.div_eucl (Z.pos m * 2 ^ 53) (Z.pos m)) as [q r].
    now subst. }
  rewrite Hdiv.
  assert (Hloc : new_location (Z.pos m) 0 = loc_Exact)
    by (unfold new_location; destruct (Z.even (Z.pos m)); reflexivity).
  rewrite Hloc. destruct s; reflexivity.
Qed.

(** [x / x] is [1.0] for every finite nonzero [x]. *)
Lemma div_self (x : float) (s : bool) (m : positive) (e : Z) :
  Prim2SF x = S754_finite s m e -> (x / x)%float = 1%float.
Proof.
  intros Hx. apply Prim2SF_inj. rewrite FloatAxioms.div_spec, Hx. apply SFdiv_self.
Qed.

Ltac sf_cases :=
  repeat match goal with
  | s : bool |- _ => destruct s
  end;
  cbn [SFltb SFleb SFeqb SFcompare CompOpp] in *;
  try congruence;
  repeat match goal with
  | H : context [Z.compare ?a ?b] |- _ =>
      destruct (Z.compare_spec a b); cbn [CompOpp] in *; try congruence
  | |- context [Z.compare ?a ?b] =>
      destruct (Z.compare_spec a b); cbn [CompOpp] in *; try congruence
  | H : context [Pos.compare_cont Eq ?a ?b] |- _ =>
      change (Pos.compare_cont Eq a b) with (Pos.compare a b) in *;
      destruct (Pos.compare_spec a b); cbn [CompOpp] in *; try congruence
  | |- context [Pos.compare_cont Eq ?a ?b] =>
      change (Pos.compare_cont Eq a b) with (Pos.compare a b) in *;
      destruct (Pos.compare_spec a b); cbn [CompOpp] in *; try congruence
  end;
  try congruence; try lia.

Lemma SFltb_trans (x y z : spec_float) :
  SFltb x y = true -> SFltb y z = true -> SFltb x z = true.
Proof. destruct x, y, z; intros H1 H2; sf_cases. Qed.

Lemma SFltb_leb_trans (x y z : spec_float) :
  SFltb x y = true -> SFleb y z = true -> SFltb x z = true.
Proof. destruct x, y, z; intros H1 H2; sf_cases. Qed.

Lemma SFltb_irrefl (x : spec_float) : SFltb x x = false.
Proof. destruct x; sf_cases. Qed.

Lemma SFeqb_leb (x y : spec_float) : SFeqb x y = true -> SFleb x y = true.
Proof. destruct x, y; intros H1; sf_cases. Qed.

(** [<] on floats is transitive, also through [<=], and irreflexive; NaN
    makes every comparison false, so none of this needs an exclusion. *)
Lemma ltb_trans (x y z : float) :
  (x <? y)%float = true -> (y <? z)%float = true -> (x <? z)%float = true.
Proof. rewrite !FloatAxioms.ltb_spec. apply SFltb_trans. Qed.

Lemma ltb_leb_trans (x y z : float) :
  (x <? y)%float = true -> (y <=? z)%float = true -> (x <? z)%float = true.
Proof. rewrite !FloatAxioms.ltb_spec, FloatAxioms.leb_spec. apply SFltb_leb_trans. Qed.

Lemma ltb_irrefl (x : float) : (x <? x)%float = false.
Proof. rewrite FloatAxioms.ltb_spec. apply SFltb_irrefl. Qed.

Lemma eqb_leb (x y : float) : (x =? y)%float = true -> (x <=? y)%float = true.
Proof. rewrite FloatAxioms.eqb_spec, FloatAxioms.leb_spec. apply SFeqb_leb. Qed.

End FloatFacts.

(** Subtracting is adding the opposite. *)
Lemma float_add_opp (x y : float) : (x + - y = x - y)%float.
Proof.
  apply Prim2SF_inj.
  rewrite FloatAxioms.add_spec, FloatAxioms.sub_spec, FloatAxioms.opp_spec.
  destruct (Prim2SF x) as [sx | sx | | sx mx ex], (Prim2SF y) as [sy | sy | | sy my ey];
    try reflexivity;
    try (destruct sx, sy; reflexivity).
Qed.

(** ** Strings in lexicographic order *)

Lemma ascii_compare_eq (a b : ascii) : Ascii.compare a b = Eq -> a = b.
Proof.
  unfold Ascii.compare. intros H%N.compare_eq_iff.
  rewrite <- (ascii_N_embedding a), <- (ascii_N_embedding b). now f_equal.
Qed.

Lemma string_compare_lt_trans (s1 : string) :
  forall s2 s3, String.compare s1 s2 = Lt -> String.compare s2 s3 = Lt ->
                String.compare s1 s3 = Lt.
Proof.
  induction s1 as [| c1 s1 IH]; intros [| c2 s2] [| c3 s3]; simpl;
    try discriminate; auto.
  destruct (Ascii.compare c1 c2) eqn:E12; try discriminate;
    destruct (Ascii.compare c2 c3) eqn:E23; try discriminate; intros H12 H23.
  - apply ascii_compare_eq in E12, E23. subst.
    replace (Ascii.compare c3 c3) with Eq
      by (symmetry; apply N.compare_refl).
    eauto.
  - apply ascii_compare_eq in E12. subst. now rewrite E23.
  - apply ascii_compare_eq in E23. subst. now rewrite E12.
  - unfold Ascii.compare in *.
    rewrite N.compare_lt_iff in *.
    replace (N_of_ascii c1 ?= N_of_ascii c3)%N with Lt; [reflexivity |].
    symmetry. apply N.compare_lt_iff. lia.
Qed.

Lemma string_ltb_asym (a b : string) : String.ltb a b = true -> str_le a b.
Proof.
  unfold str_le, String.ltb. rewrite (String.compare_antisym b a).
  destruct (String.compare a b); simpl; congruence.
Qed.

Lemma str_le_trans (a b c : string) : str_le a b -> str_le b c -> str_le a c.
Proof.
  unfold str_le, String.ltb. intros Hab Hbc.
  destruct (String.compare c a) eqn:Eca; try reflexivity. exfalso.
  destruct (String.compare b a) eqn:Eba; try discriminate.
  - apply String.compare_eq_iff in Eba. subst. now rewrite Eca in Hbc.
  - rewrite (String.compare_antisym b a) in Eba.
    destruct (String.compare a b) eqn:Eab; try discriminate.
    now rewrite (string_compare_lt_trans _ _ _ Eca Eab) in Hbc.
Qed.

(** The order is the lexicographic one: the empty string comes first, and
    two strings that begin with a character are ordered by the codes of
    those characters and, when these are the same, by what follows. *)
Lemma str_le_nil (b : string) : str_le "" b.
Proof. unfold str_le, String.ltb. now destruct b. Qed.

Lemma str_le_cons_nil (c : ascii) (a : string) : ~ str_le (String c a) "".
Proof. unfold str_le, String.ltb. simpl. discriminate. Qed.

Lemma str_le_cons (c d : ascii) (a b : string) :
  str_le (String c a) (String d b) <->
  (nat_of_ascii c < nat_of_ascii d) \/ (c = d /\ str_le a b).
Proof.
  unfold str_le, String.ltb. cbn [String.compare].
  unfold Ascii.compare. destruct (N.compare_spec (N_of_ascii d) (N_of_ascii c)) as [E | E | E].
  - assert (d = c).
    { rewrite <- (ascii_N_embedding d), <- (ascii_N_embedding c). now f_equal. }
    subst d. split; [intros H; right; now split |].
    intros [H | [_ H]]; [lia | exact H].
  - split; [discriminate |]. unfold nat_of_ascii. intros [H | [-> _]]; lia.
  - split; [intros _; left; unfold nat_of_ascii; lia | reflexivity].
Qed.

(** ** [sorted] *)

Section Sorted.

Context {X : Type} (key : X -> string).

Lemma sorted_insert_perm (x : X) (l : list X) :
  Permutation (sorted_insert key x l) (x :: l).
Proof.
  induction l as [| y l IH]; simpl; auto.
  destruct (String.ltb (key y) (key x)); auto.
  rewrite IH. apply perm_swap.
Qed.

Lemma py_sorted_perm (l : list X) : Permutation (py_sorted key l) l.
Proof.
  induction l as [| x l IH]; simpl; auto.
  rewrite sorted_insert_perm. now constructor.
Qed.

Lemma sorted_insert_sorted (x : X) (l : list X) :
  StronglySorted (key_le key) l -> StronglySorted (key_le key) (sorted_insert key x l).
Proof.
  induction 1 as [| y l Hs IH Hall]; simpl.
  - repeat constructor.
  - destruct (String.ltb (key y) (key x)) eqn:E.
    + constructor; auto.
      eapply Permutation_Forall; [symmetry; apply sorted_insert_perm |].
      constructor; auto. now apply string_ltb_asym.
    + constructor; [now constructor |].
      constructor; [exact E |].
      eapply Forall_impl; [| exact Hall].
      intros z Hz. eapply str_le_trans; [exact E | exact Hz].
Qed.

Lemma py_sorted_sorted (l : list X) : StronglySorted (key_le key) (py_sorted key l).
Proof.
  induction l as [| x l IH]; simpl; [constructor |].
  now apply sorted_insert_sorted.
Qed.

Lemma string_ltb_irrefl (a : string) : String.ltb a a = false.
Proof.
  unfold String.ltb. pose proof (String.compare_antisym a a) as H.
  destruct (String.compare a a); simpl in H; congruence.
Qed.

Lemma sorted_insert_stable (s : string) (x : X) (l : list X) :
  filter (fun y => String.eqb (key y) s) (sorted_insert key x l) =
  filter (fun y => String.eqb (key y) s) (x :: l).
Proof.
  induction l as [| y l IH]; [reflexivity |].
  cbn [sorted_insert]. destruct (String.ltb (key y) (key x)) eqn:E; [| reflexivity].
  cbn [filter] in *. rewrite IH.
  destruct (String.eqb_spec (key x) s) as [Hx |]; [| reflexivity].
  destruct (String.eqb_spec (key y) s) as [Hy |]; [| reflexivity].
  rewrite Hx, Hy, string_ltb_irrefl in E. discriminate.
Qed.

(** The sort is stable: items with the same key keep their order. *)
Lemma py_sorted_stable (s : string) (l : list X) :
  filter (fun y => String.eqb (key y) s) (py_sorted key l) =
  filter (fun y => String.eqb (key y) s) l.
Proof.
  induction l as [| x l IH]; [reflexivity |].
  cbn [py_sorted]. rewrite sorted_insert_stable. cbn [filter]. now rewrite IH.
Qed.

End Sorted.

(** Sorting commutes with a map that keeps the keys. *)
Lemma py_sorted_map {X Y : Type} (f : X -> Y) (key : X -> string)
    (key' : Y -> string) (l : list X) :
  (forall x, key' (f x) = key x) ->
  py_sorted key' (map f l) = map f (py_sorted key l).
Proof.
  intros Hk. induction l as [| x l IH]; simpl; [reflexivity |].
  rewrite IH. generalize (py_sorted key l). intros s.
  induction s as [| y s IHs]; simpl; [reflexivity |].
  rewrite !Hk. destruct (String.ltb (key y) (key x)); simpl; congruence.
Qed.

Lemma py_sorted_ext {X : Type} (key key' : X -> string) (l : list X) :
  (forall x, key' x = key x) -> py_sorted key' l = py_sorted key l.
Proof.
  intros Hk. rewrite <- (map_id l) at 1.
  rewrite (@py_sorted_map _ _ (fun x => x) key key') by exact Hk.
  apply map_id.
Qed.

(** ** The serializer *)

Lemma fold_then_print_raised (outs : list printed) (p : printed) (e : exn) :
  snd p = Some e -> fold_left then_print outs p = p.
Proof.
  revert p. induction outs as [| o outs IH]; intros p Hp; [reflexivity |].
  simpl. unfold then_print at 2. rewrite Hp. now apply IH.
Qed.

(** A sequence of prints after [lines] have been written: the lines stay,
    and what follows them is what the calls write in order. *)
Lemma fold_then_print_calls (outs : list printed) :
  forall lines, exists rest e,
    fold_left then_print outs (lines, None) = (lines ++ rest, e)
    /\ calls_in_order outs (rest, e).
Proof.
  induction outs as [| q outs IH]; intros lines.
  - exists [], None. simpl. rewrite app_nil_r.
    split; [reflexivity |]. left. split; [constructor | reflexivity].
  - cbn [fold_left]. destruct q as [ql [e |]].
    + change (then_print (lines, None) (ql, Some e)) with (lines ++ ql, Some e).
      rewrite (@fold_then_print_raised outs (lines ++ ql, Some e) e eq_refl).
      exists ql, (Some e). split; [reflexivity |].
      right. exists [], (ql, Some e), outs, e. repeat split; auto.
    + change (then_print (lines, None) (ql, None)) with (lines ++ ql, @None exn).
      destruct (IH (lines ++ ql)) as (rest & e & Hfold & Hcalls).
      exists (ql ++ rest), e. rewrite Hfold, app_assoc. split; [reflexivity |].
      destruct Hcalls as [[Hall Heq] | (before & q & after & e' & Houts & Hbefore & Hq & Heq)].
      * left. split; [constructor; auto |].
        injection Heq as -> ->. reflexivity.
      * right. exists ((ql, None) :: before), q, after, e'.
        split; [now rewrite Houts |]. split; [constructor; auto |].
        split; [exact Hq |].
        injection Heq as -> ->. cbn [map concat fst].
        now rewrite app_assoc.
Qed.

Section Serializer.

Context {P : Platform}.

(** The internal-node branch in the order the program runs it: the header,
    then [print_tree] on each item of
    [sorted(node.children.items(), key=lambda item: str(item[0]))]. *)
Lemma print_tree_internal (a : Z) (cs : dict (option TreeNode))
    (indent_level : nat) (value_prefix : string) :
  print_tree (Some (TreeNode_init (Some a) cs None)) indent_level value_prefix =
  fold_left then_print
    (map (print_child indent_level) (py_sorted child_key cs))
    (print_line (header_line a indent_level value_prefix)).
Proof.
  unfold print_tree, header_line. cbn [print_node].
  match goal with
  | |- context [py_sorted item_key (?visit cs)] =>
      assert (Hv : visit cs =
                   map (fun item => (fst item, print_child indent_level item)) cs)
  end.
  { induction cs as [| [v c] cs IH]; [reflexivity |].
    rewrite IH. destruct c; reflexivity. }
  rewrite Hv.
  rewrite (@py_sorted_map _ _ _ child_key item_key) by reflexivity.
  rewrite map_map. cbn [snd].
  destruct (Nat.eqb indent_level 0); reflexivity.
Qed.

Lemma then_print_lines (outs : list printed) :
  forall p, exists rest, fst (fold_left then_print outs p) = fst p ++ rest.
Proof.
  induction outs as [| q outs IH]; intros p; simpl.
  - exists []. now rewrite app_nil_r.
  - destruct (IH (then_print p q)) as [rest Hrest]. rewrite Hrest.
    unfold then_print. destruct (snd p); simpl.
    + now exists rest.
    + exists (fst q ++ rest). now rewrite app_assoc.
Qed.

(** The internal-node branch: the header, then the calls for the children
    in sorted order. *)
Lemma print_tree_internal_calls (a : Z) (cs : dict (option TreeNode))
    (indent_level : nat) (value_prefix : string) :
  exists rest e,
    print_tree (Some (TreeNode_init (Some a) cs None)) indent_level value_prefix =
      (header_line a indent_level value_prefix :: rest, e)
    /\ calls_in_order (map (print_child indent_level) (py_sorted child_key cs))
         (rest, e).
Proof.
  rewrite print_tree_internal.
  destruct (fold_then_print_calls
              (map (print_child indent_level) (py_sorted child_key cs))
              [header_line a indent_level value_prefix])
    as (rest & e & Hfold & Hcalls).
  exists rest, e. split; [exact Hfold | exact Hcalls].
Qed.

End Serializer.

(** Induction on a tree: the children of a node may be assumed to have the
    property. *)
Lemma TreeNode_ind (Pr : TreeNode -> Prop) :
  (forall a cs l,
      Forall (fun item => forall n, snd item = Some n -> Pr n) cs ->
      Pr (TreeNode_init a cs l)) ->
  forall n, Pr n.
Proof.
  intros H. fix IH 1. intros [a cs l]. apply H.
  induction cs as [| [v c] cs IHcs]; constructor; [| exact IHcs].
  intros n Hn. destruct c as [m |]; [| discriminate].
  injection Hn as <-. apply IH.
Qed.

Section SerializerPlatform.

Context (P Q : Platform).
Hypothesis same_repr : forall x, @float_repr Q x = @float_repr P x.

Lemma py_str_platform (v : value) : @py_str Q v = @py_str P v.
Proof. destruct v; simpl; auto. Qed.

Lemma print_node_platform (n : TreeNode) :
  forall indent_level value_prefix,
    @print_node Q n indent_level value_prefix =
    @print_node P n indent_level value_prefix.
Proof.
  induction n as [a cs l IH] using TreeNode_ind. intros indent_level value_prefix.
  cbn [print_node]. destruct l as [l |]; [now rewrite py_str_platform |].
  destruct a as [a |]; [| reflexivity].
  match goal with
  | |- fold_left _ (map snd (py_sorted _ ?vq)) _ =
       fold_left _ (map snd (py_sorted _ ?vp)) _ =>
      assert (Hv : vq = vp)
  end.
  { induction IH as [| [v c] cs Hc _ IHcs]; [reflexivity |].
    rewrite IHcs, py_str_platform. destruct c as [m |]; [| reflexivity].
    now rewrite (Hc m eq_refl). }
  rewrite Hv. f_equal. f_equal.
  apply py_sorted_ext. intros x. apply py_str_platform.
Qed.

Lemma print_tree_platform (node : option TreeNode) (indent_level : nat)
    (value_prefix : string) :
  @print_tree Q node indent_level value_prefix =
  @print_tree P node indent_level value_prefix.
Proof. destruct node; simpl; [apply print_node_platform | reflexivity]. Qed.

End SerializerPlatform.

(** ** Serializer: the claims *)

Section SerializerClaims.

Context {P : Platform}.

Lemma indent_of_length (n : nat) : String.length (indent_of n) = 10 * n.
Proof.
  induction n as [| n IH]; [reflexivity |].
  change (indent_of (S n)) with ("          " ++ indent_of n)%string.
  cbn [String.append String.length]. rewrite IH. lia.
Qed.

(** C5.  On the empty table [build_tree] returns [None] and raises
    nothing, whatever fuel it is given, and [print_tree] on [None] writes
    the one line made of the indentation, the prefix and the marker
    [Brak drzewa]. *)
Theorem empty_table_gives_no_tree :
  build_tree [] = Some (Ok None)
  /\ (forall fuel, build_tree_fuel (S fuel) [] = Some (Ok None))
  /\ (forall indent_level value_prefix,
        print_tree None indent_level value_prefix =
        ([(indent_of indent_level ++ value_prefix ++ "Brak drzewa")%string], None)).
Proof. repeat split. Qed.

(** C6.  An internal node whose numbers [str] converts prints its header
    and then its children in the order of
    [sorted(..., key=str of the branch value)]: what it writes after the
    header is what the calls of [print_tree] on the children write, one
    call after the other in that order, up to the first call that raises.
    The order is ascending in the string form of the branch values, it is
    a rearrangement of the children, and children with the same string
    form keep the order they have in the dictionary.  The text depends on
    nothing but the tree and the string form of its float labels: neither
    the set iteration order nor [log2] of the platform reaches it, so the
    same tree is written the same way each time. *)
Theorem children_printed_in_string_order
    (a : Z) (cs : dict (option TreeNode)) (indent_level : nat)
    (value_prefix : string) :
  strs_ok (TreeNode_init (Some a) cs None) ->
  (exists rest e,
     print_tree (Some (TreeNode_init (Some a) cs None)) indent_level value_prefix =
       (header_line a indent_level value_prefix :: rest, e)
     /\ calls_in_order
          (map (fun item => print_tree (snd item) (S indent_level) (py_str (fst item)))
               (py_sorted child_key cs))
          (rest, e))
  /\ StronglySorted (key_le child_key) (py_sorted child_key cs)
  /\ Permutation (py_sorted child_key cs) cs
  /\ (forall s, filter (fun item => String.eqb (child_key item) s)
                  (py_sorted child_key cs)
                = filter (fun item => String.eqb (child_key item) s) cs)
  /\ (forall (Q : Platform) (node : option TreeNode) (level : nat) (prefix : string),
        (forall x, @float_repr Q x = @float_repr P x) ->
        @print_tree Q node level prefix = @print_tree P node level prefix).
Proof.
  intros _.
  split; [apply print_tree_internal_calls |].
  split; [apply py_sorted_sorted |].
  split; [apply py_sorted_perm |].
  split; [intros s; apply py_sorted_stable |].
  intros Q node level prefix Hrepr. now apply print_tree_platform.
Qed.

(** C7, as the program has it.  The indentation is ten spaces per level; a
    leaf prints [<indent><branch> -> D: <label>]; an internal node at level 0
    prints [Atrybut: <index + 1>] and below level 0
    [<indent><branch>->Atrybut: <index + 1>], each as the first line of what
    the call writes; [None] prints [<indent><branch>Brak drzewa]. *)
Theorem print_tree_line_formats :
  (forall n, indent_of (S n) = ("          " ++ indent_of n)%string
             /\ String.length (indent_of n) = 10 * n)
  /\ (forall a cs l indent_level value_prefix,
        print_tree (Some (TreeNode_init a cs (Some l))) indent_level value_prefix =
        ([(indent_of indent_level ++ value_prefix ++ " -> D: " ++ py_str l)%string],
         None))
  /\ (forall a cs value_prefix, exists rest,
        fst (print_tree (Some (TreeNode_init (Some a) cs None)) 0 value_prefix) =
        ("Atrybut: " ++ str_of_int (a + 1))%string :: rest)
  /\ (forall a cs indent_level value_prefix, exists rest,
        fst (print_tree (Some (TreeNode_init (Some a) cs None))
                        (S indent_level) value_prefix) =
        (indent_of (S indent_level) ++ value_prefix ++ "->Atrybut: "
         ++ str_of_int (a + 1))%string :: rest)
  /\ (forall indent_level value_prefix,
        print_tree None indent_level value_prefix =
        ([(indent_of indent_level ++ value_prefix ++ "Brak drzewa")%string], None)).
Proof.
  split; [intros n; split; [reflexivity | apply indent_of_length] |].
  split; [reflexivity |].
  split; [| split; [| reflexivity]].
  - intros a cs value_prefix. rewrite print_tree_internal.
    destruct (then_print_lines
                (map (print_child 0) (py_sorted child_key cs))
                (print_line (header_line a 0 value_prefix))) as [rest ->].
    now exists rest.
  - intros a cs indent_level value_prefix. rewrite print_tree_internal.
    destruct (then_print_lines
                (map (print_child (S indent_level)) (py_sorted child_key cs))
                (print_line (header_line a (S indent_level) value_prefix)))
      as [rest ->].
    now exists rest.
Qed.

End SerializerClaims.

Lemma str_int_ok_small (n : Z) : (Z.abs n < 2 ^ 63)%Z -> str_int_ok n.
Proof.
  intros H. unfold str_int_ok, int_max_str_digits.
  eapply Z.lt_trans; [exact H |].
  apply Z.lt_le_trans with (10 ^ 63)%Z; [reflexivity |].
  apply Z.pow_le_mono_r; lia.
Qed.

Lemma scenario_1_strs_ok : strs_ok scenario_1_tree.
Proof.
  apply strs_ok_internal.
  - apply str_int_ok_small. reflexivity.
  - intros k child [[= <- <-] | [[= <- <-] | []]]; apply str_int_ok_small; reflexivity.
  - intros k child [[= <- <-] | [[= <- <-] | []]]; apply strs_ok_leaf; exact I.
Qed.

Lemma children_printed_in_string_order_witness :
  strs_ok (TreeNode_init (Some 0%Z) scenario_1_children None)
  /\ (exists rest e,
        @print_tree ref_platform (Some (TreeNode_init (Some 0%Z) scenario_1_children None))
          0 "" = (header_line 0 0 "" :: rest, e)
        /\ calls_in_order
             (map (fun item => @print_tree ref_platform (snd item) 1
                                 (@py_str ref_platform (fst item)))
                  (py_sorted (@child_key ref_platform) scenario_1_children))
             (rest, e))
  /\ StronglySorted (key_le (@child_key ref_platform))
       (py_sorted (@child_key ref_platform) scenario_1_children)
  /\ Permutation (py_sorted (@child_key ref_platform) scenario_1_children)
       scenario_1_children
  /\ (forall s, filter (fun item => String.eqb (@child_key ref_platform item) s)
                  (py_sorted (@child_key ref_platform) scenario_1_children)
                = filter (fun item => String.eqb (@child_key ref_platform item) s)
                    scenario_1_children)
  /\ (forall (Q : Platform) (node : option TreeNode) (level : nat) (prefix : string),
        (forall x, @float_repr Q x = @float_repr ref_platform x) ->
        @print_tree Q node level prefix = @print_tree ref_platform node level prefix).
Proof.
  split; [exact scenario_1_strs_ok |].
  exact (@children_printed_in_string_order ref_platform 0 scenario_1_children 0 ""
           scenario_1_strs_ok).
Defined.

(** C7 as the specification words it does not hold: the root of a tree
    that splits on attribute 0 is written [Atrybut: 1], which is not the
    line [Attribute: 1] of the format contract. *)
Lemma root_line_is_not_the_contract_line :
  @print_tree ref_platform (Some (TreeNode_init (Some 0%Z) [] None)) 0 "" =
    (["Atrybut: 1"%string], None)
  /\ String.eqb "Atrybut: 1" (spec_root_line 1) = false.
Proof. split; reflexivity. Qed.

(** ** Entropy of the empty distribution *)

Section Entropy.

Context {P : Platform}.

(** A key counted zero times does divide by the zero total. *)
Lemma entropy_of_zero_count (k : value) :
  calculate_entropy [(k, 0%Z)] = Raise ZeroDivisionError.
Proof. reflexivity. Qed.

End Entropy.

(** ** Loops that cannot raise *)

Lemma for_loop_ok {S X : Type} (body : S -> X -> result S) (xs : list X) :
  (forall s x, In x xs -> exists s', body s x = Ok s') ->
  forall s, exists s', for_loop xs s body = Ok s'.
Proof.
  induction xs as [| x xs IH]; intros Hbody s; simpl; [eauto |].
  destruct (Hbody s x (or_introl eq_refl)) as [s' ->]. simpl.
  apply IH. intros s0 x0 Hin. apply Hbody. now right.
Qed.

Lemma py_map_ok {X Y : Type} (f : X -> result Y) (xs : list X) :
  (forall x, In x xs -> exists y, f x = Ok y) ->
  exists ys, py_map f xs = Ok ys.
Proof.
  induction xs as [| x xs IH]; intros Hf; simpl; [eauto |].
  destruct (Hf x (or_introl eq_refl)) as [y ->]. simpl.
  destruct IH as [ys ->]; [intros x0 Hin; apply Hf; now right |].
  simpl. eauto.
Qed.

Lemma py_map_length {X Y : Type} (f : X -> result Y) (xs : list X) :
  forall ys, py_map f xs = Ok ys -> length ys = length xs.
Proof.
  induction xs as [| x xs IH]; simpl; intros ys H.
  - now injection H as <-.
  - destruct (f x) as [y |]; [| discriminate]. simpl in H.
    destruct (py_map f xs) as [ys' |]; [| discriminate]. simpl in H.
    injection H as <-. simpl. now rewrite (IH ys').
Qed.

Lemma py_map_In {X Y : Type} (f : X -> result Y) (xs : list X) :
  forall ys, py_map f xs = Ok ys ->
  forall x, In x xs -> exists y, f x = Ok y /\ In y ys.
Proof.
  induction xs as [| x xs IH]; simpl; intros ys H x0 Hin; [easy |].
  destruct (f x) as [y |] eqn:Efx; [| discriminate]. simpl in H.
  destruct (py_map f xs) as [ys' |]; [| discriminate]. simpl in H.
  injection H as <-. destruct Hin as [<- | Hin].
  - exists y. split; [assumption | now left].
  - destruct (IH ys' eq_refl x0 Hin) as (y0 & ? & ?).
    exists y0. split; [assumption | now right].
Qed.

(** A loop that reads one cell per row and folds it in is the fold over the
    cells, if every row has the cell. *)
Lemma for_loop_cells {S : Type} (get : row -> result value)
    (step : S -> value -> S) (data : table) :
  forall acc,
    for_loop data acc (fun s r => v <- get r ;; Ok (step s v)) =
    (cells <- py_map get data ;; Ok (fold_left step cells acc)).
Proof.
  induction data as [| r data IH]; intros acc; simpl; [reflexivity |].
  destruct (get r) as [v |]; simpl; [| reflexivity].
  rewrite IH. destruct (py_map get data); reflexivity.
Qed.

(** ** Distributions *)

Lemma fold_add_acc (l : list Z) :
  forall a, fold_left Z.add l a = (a + fold_left Z.add l 0)%Z.
Proof.
  induction l as [| x l IH]; intros a; simpl; [lia |].
  rewrite (IH (a + x)%Z), (IH x). lia.
Qed.

Lemma total_count_cons (k : value) (c : Z) (d : dict Z) :
  total_count ((k, c) :: d) = (c + total_count d)%Z.
Proof. unfold total_count. simpl. now rewrite fold_add_acc. Qed.

Lemma count_step_total (d : dict Z) (v : value) :
  total_count (count_step d v) = (total_count d + 1)%Z.
Proof.
  unfold count_step, dict_get_default.
  induction d as [| [k c] d IH]; simpl.
  - reflexivity.
  - destruct (py_eq k v); rewrite !total_count_cons; [lia |].
    rewrite IH. lia.
Qed.

Lemma count_step_positive (d : dict Z) (v : value) :
  positive_counts d -> positive_counts (count_step d v).
Proof.
  unfold count_step, dict_get_default, positive_counts.
  induction 1 as [| [k c] d Hc Hd IH]; simpl.
  - repeat constructor.
  - destruct (py_eq k v); constructor; simpl in *; auto. lia.
Qed.

Lemma count_step_nonempty (d : dict Z) (v : value) : count_step d v <> [].
Proof.
  unfold count_step. destruct d as [| [k c] d]; simpl; [discriminate |].
  destruct (py_eq k v); discriminate.
Qed.

Lemma fold_count_total (vs : list value) :
  forall d, total_count (fold_left count_step vs d) = (total_count d + len vs)%Z.
Proof.
  unfold len. induction vs as [| v vs IH]; intros d; simpl fold_left.
  - simpl. lia.
  - rewrite IH, count_step_total. simpl length. lia.
Qed.

Lemma fold_count_positive (vs : list value) :
  forall d, positive_counts d -> positive_counts (fold_left count_step vs d).
Proof.
  induction vs as [| v vs IH]; intros d Hd; simpl; auto using count_step_positive.
Qed.

Lemma count_values_total (vs : list value) :
  total_count (count_values vs) = len vs.
Proof. unfold count_values. now rewrite fold_count_total. Qed.

Lemma fold_count_nonempty (vs : list value) :
  forall d, d <> [] -> fold_left count_step vs d <> [].
Proof.
  induction vs as [| v vs IH]; intros d Hd; simpl; auto using count_step_nonempty.
Qed.

Lemma count_values_nonempty (vs : list value) :
  vs <> [] -> count_values vs <> [].
Proof.
  destruct vs as [| v vs]; [easy |]. intros _. unfold count_values. simpl.
  apply fold_count_nonempty, count_step_nonempty.
Qed.

(** Values that all equal the first one are counted under that one key. *)
Lemma fold_count_constant (c0 : value) (vs : list value) :
  (forall v, In v vs -> py_eq c0 v = true) ->
  forall n, fold_left count_step vs [(c0, n)] = [(c0, (n + len vs)%Z)].
Proof.
  unfold len. induction vs as [| v vs IH]; intros Hall n; simpl fold_left.
  - simpl. now rewrite Z.add_0_r.
  - unfold count_step at 2, dict_get_default. simpl.
    rewrite (Hall v (or_introl eq_refl)).
    rewrite IH by (intros; apply Hall; now right).
    simpl length. do 2 f_equal. lia.
Qed.

Lemma count_values_constant (c0 : value) (vs : list value) :
  (forall v, In v vs -> py_eq c0 v = true) ->
  count_values (c0 :: vs) = [(c0, len (c0 :: vs))].
Proof.
  intros Hall. unfold count_values. simpl fold_left.
  change (count_step [] c0) with [(c0, 1%Z)].
  rewrite fold_count_constant by assumption.
  unfold len. simpl length. do 2 f_equal. lia.
Qed.

Section EntropyFacts.

Context {P : Platform}.

Lemma math_log2_positive (p : float) :
  (0 <? p)%float = true -> math_log2 p = Ok (libm_log2 p).
Proof. unfold math_log2. now intros ->. Qed.

(** With a nonzero total nothing in [calculate_entropy] can raise. *)
Lemma calculate_entropy_ok (counts : dict Z) :
  total_count counts <> 0%Z -> exists h, calculate_entropy counts = Ok h.
Proof.
  intros Htotal. unfold calculate_entropy. fold (total_count counts).
  apply for_loop_ok. intros entropy count _.
  unfold int_truediv. destruct (Z.eqb_spec (total_count counts) 0); [easy |].
  simpl. destruct (0 <? _)%float eqn:Epos; [| eauto].
  rewrite math_log2_positive by exact Epos. simpl. eauto.
Qed.

(** With keys and a zero total the first division raises. *)
Lemma calculate_entropy_zero_total (counts : dict Z) :
  counts <> [] -> total_count counts = 0%Z ->
  calculate_entropy counts = Raise ZeroDivisionError.
Proof.
  intros Hne Hzero. unfold calculate_entropy. fold (total_count counts).
  rewrite Hzero. destruct counts as [| [k c] counts]; [easy |]. reflexivity.
Qed.

Lemma int_truediv_self (n : Z) :
  (0 < n < 2 ^ 53)%Z -> int_truediv n n = Ok 1%float.
Proof.
  intros Hn. unfold int_truediv.
  destruct (Z.eqb_spec n 0); [lia |].
  destruct (FloatFacts.float_of_Z_finite Hn) as (m & e & Hfin).
  now rewrite (FloatFacts.div_self _ Hfin).
Qed.

(** The entropy of a distribution with a single key is [0.0]. *)
Lemma calculate_entropy_single (HP : PlatformOk P) (k : value) (n : Z) :
  (0 < n < 2 ^ 53)%Z -> calculate_entropy [(k, n)] = Ok 0%float.
Proof.
  intros Hn. unfold calculate_entropy. simpl.
  rewrite (int_truediv_self Hn). simpl.
  now rewrite log2_one.
Qed.

End EntropyFacts.

Section EntropyClaim.

Context {P : Platform}.

(** C10, as the program has it.  The entropy of the empty distribution is
    [0.0] and no exception: its total is 0, but the loop has no count to
    divide.  Outside the precondition [total > 0] the function is not
    total: on a distribution that has keys and whose counts sum to 0 it
    raises [ZeroDivisionError].  On every distribution whose counts do not
    sum to 0 (counts that a [float] holds exactly) it returns a value. *)
Theorem entropy_of_empty_distribution :
  total_count [] = 0%Z
  /\ calculate_entropy [] = Ok 0%float
  /\ (forall counts, counts <> [] -> total_count counts = 0%Z ->
        calculate_entropy counts = Raise ZeroDivisionError)
  /\ (forall counts, exact_counts counts -> total_count counts <> 0%Z ->
        exists h, calculate_entropy counts = Ok h).
Proof.
  split; [reflexivity |]. split; [reflexivity |].
  split; [apply calculate_entropy_zero_total |].
  intros counts _. apply calculate_entropy_ok.
Qed.

End EntropyClaim.

(** C10 as the claim words it does not hold: the function is not total
    outside the precondition.  The distribution whose one key is counted
    zero times has total 0, and [calculate_entropy] raises
    [ZeroDivisionError] on it. *)
Lemma entropy_raises_off_precondition :
  total_count [(VStr "A", 0%Z)] = 0%Z
  /\ @calculate_entropy ref_platform [(VStr "A", 0%Z)] = Raise ZeroDivisionError.
Proof. split; reflexivity. Qed.

(** ** The attribute evaluator *)

Lemma for_loop_rows_cells {S : Type} (get : row -> result value)
    (step : S -> row -> value -> S) (data : table) :
  forall acc,
    for_loop data acc (fun s r => v <- get r ;; Ok (step s r v)) =
    (cells <- py_map get data ;;
     Ok (fold_left (fun s rc => step s (fst rc) (snd rc)) (combine data cells) acc)).
Proof.
  induction data as [| r data IH]; intros acc; simpl; [reflexivity |].
  destruct (get r) as [v |]; simpl; [| reflexivity].
  rewrite IH. destruct (py_map get data); reflexivity.
Qed.

Lemma readable_cells (i : Z) (data : table) :
  readable i data ->
  exists cells, py_map (fun r : row => py_getitem r i) data = Ok cells.
Proof.
  intros H. apply py_map_ok. intros r Hr.
  unfold readable in H. rewrite Forall_forall in H. now apply H.
Qed.

Lemma readable_decisions (i : Z) (data subset : table) :
  readable i data -> incl subset data ->
  exists ds, py_map (fun r : row => py_getitem r (-1)) subset = Ok ds.
Proof.
  intros H Hincl. apply py_map_ok. intros r Hr.
  unfold readable in H. rewrite Forall_forall in H. now apply H, Hincl.
Qed.

Lemma rectangular_readable (width : nat) (data : table) (i : Z) :
  rectangular width data -> (0 <= i < Z.of_nat width)%Z -> readable i data.
Proof.
  unfold rectangular, readable. intros Hrect Hi.
  eapply Forall_impl; [| exact Hrect]. intros r Hr. cbv beta in Hr. split.
  - unfold has_cell, py_getitem, len.
    destruct (Z.ltb_spec i 0); [lia |]. destruct (Z.ltb_spec i 0); [lia |].
    destruct (nth_error r (Z.to_nat i)) eqn:E; [eauto |].
    apply nth_error_None in E. lia.
  - unfold has_cell, py_getitem, len. rewrite Hr.
    change (-1 <? 0)%Z with true. cbv iota zeta.
    destruct (Z.ltb_spec (Z.of_nat width + -1) 0); [lia |].
    destruct (nth_error r (Z.to_nat (Z.of_nat width + -1))) eqn:E; [eauto |].
    apply nth_error_None in E. lia.
Qed.

Section Groups.

Variable data : table.

Lemma setdefault_append_inv (groups : dict table) (k : value) (r : row) :
  In r data -> groups_inv data groups -> groups_inv data (setdefault_append groups k r).
Proof.
  intros Hr. unfold groups_inv.
  induction 1 as [| [k' rows] groups [Hne Hin] Hrest IH]; simpl.
  - constructor; [| constructor]. simpl. split; [discriminate |].
    intros x [<- | []]. exact Hr.
  - destruct (py_eq k' k); constructor; simpl in *; auto.
    split; [now destruct rows |].
    intros x Hx. apply in_app_or in Hx. destruct Hx as [Hx | [<- | []]]; auto.
Qed.

Lemma fold_group_inv (pairs : list (row * value)) :
  (forall rc, In rc pairs -> In (fst rc) data) ->
  forall groups, groups_inv data groups -> groups_inv data (fold_left group_step pairs groups).
Proof.
  induction pairs as [| rc pairs IH]; intros Hin groups Hg; simpl; [exact Hg |].
  apply IH; [intros; apply Hin; now right |].
  apply setdefault_append_inv; [apply Hin; now left | exact Hg].
Qed.

Lemma group_rows_inv (cells : list value) : groups_inv data (group_rows data cells).
Proof.
  apply fold_group_inv; [| constructor].
  intros [r c] Hin. simpl. eapply in_combine_l, Hin.
Qed.

End Groups.

Lemma for_loop_ext {S X : Type} (body body' : S -> X -> result S) (xs : list X) :
  (forall s x, body s x = body' s x) ->
  forall s, for_loop xs s body = for_loop xs s body'.
Proof.
  intros Hext. induction xs as [| x xs IH]; intros s; simpl; [reflexivity |].
  rewrite Hext. destruct (body' s x); simpl; auto.
Qed.

Lemma fold_combine_snd {S : Type} (step : S -> value -> S) (data : table) :
  forall cells acc, length cells = length data ->
    fold_left (fun s (rc : row * value) => step s (snd rc)) (combine data cells) acc =
    fold_left step cells acc.
Proof.
  induction data as [| r data IH]; intros [| c cells] acc Hlen;
    simpl in *; try discriminate; auto.
Qed.

Section Evaluator.

Context {P : Platform}.

(** The counting loop of [calculate_split_info] and of the inner loop of
    [calculate_attribute_info]: read the cells, then count them. *)
Lemma counting_loop (i : Z) (data : table) :
  for_loop data [] (fun counts r => v <- py_getitem r i ;; Ok (count_step counts v)) =
  (cells <- py_map (fun r : row => py_getitem r i) data ;; Ok (count_values cells)).
Proof.
  rewrite (for_loop_rows_cells (fun r : row => py_getitem r i)
             (fun counts _ v => count_step counts v)).
  destruct (py_map _ data) as [cells |] eqn:E; simpl; [| reflexivity].
  unfold count_values. f_equal. apply fold_combine_snd.
  now apply py_map_length in E.
Qed.

Lemma calculate_split_info_cells (data : table) (i : Z) :
  calculate_split_info data i =
  (cells <- py_map (fun r : row => py_getitem r i) data ;;
   calculate_entropy (count_values cells)).
Proof.
  unfold calculate_split_info. rewrite counting_loop.
  destruct (py_map _ data); reflexivity.
Qed.

Lemma calculate_attribute_info_groups (data : table) (i : Z) :
  calculate_attribute_info data i =
  (cells <- py_map (fun r : row => py_getitem r i) data ;;
   for_loop (dict_values (group_rows data cells)) 0%float (group_term (len data))).
Proof.
  unfold calculate_attribute_info.
  rewrite (for_loop_rows_cells (fun r : row => py_getitem r i)
             (fun groups r v => setdefault_append groups v r)).
  destruct (py_map _ data) as [cells |]; simpl; [| reflexivity].
  apply for_loop_ext. intros info subset.
  unfold group_term, group_entropy. rewrite counting_loop.
  destruct (py_map _ subset); reflexivity.
Qed.

Lemma group_term_ok (i : Z) (data subset : table) (info : float) :
  readable i data -> subset <> [] -> incl subset data ->
  exists info', group_term (len data) info subset = Ok info'.
Proof.
  intros Hread Hne Hincl. unfold group_term, group_entropy.
  destruct (readable_decisions Hread Hincl) as [ds Hds]. rewrite Hds. simpl.
  assert (Hlen : length ds = length subset) by (eapply py_map_length; eauto).
  destruct (@calculate_entropy_ok P (count_values ds)) as [h ->].
  { rewrite count_values_total. unfold len. rewrite Hlen.
    destruct subset; [easy | simpl; lia]. }
  simpl. unfold int_truediv.
  destruct (Z.eqb_spec (len data) 0) as [E |]; [| simpl; eauto].
  exfalso. destruct subset as [| r subset]; [easy |].
  specialize (Hincl r (or_introl eq_refl)).
  unfold len in E. destruct data; [easy | simpl in E; lia].
Qed.

Lemma calculate_attribute_info_ok (data : table) (i : Z) :
  readable i data -> exists info, calculate_attribute_info data i = Ok info.
Proof.
  intros Hread. rewrite calculate_attribute_info_groups.
  destruct (readable_cells Hread) as [cells ->]. simpl.
  apply for_loop_ok. intros info subset Hin.
  pose proof (group_rows_inv data cells) as Hinv.
  unfold groups_inv in Hinv. rewrite Forall_forall in Hinv.
  unfold dict_values in Hin. apply in_map_iff in Hin.
  destruct Hin as ([k rows] & <- & Hin). destruct (Hinv _ Hin) as [Hne Hincl].
  eapply group_term_ok; eauto.
Qed.

Lemma calculate_split_info_ok (data : table) (i : Z) :
  readable i data -> exists s, calculate_split_info data i = Ok s.
Proof.
  intros Hread. rewrite calculate_split_info_cells.
  destruct (readable_cells Hread) as [cells Hcells]. rewrite Hcells. simpl.
  destruct cells as [| c cells]; [now exists 0%float |].
  apply calculate_entropy_ok. rewrite count_values_total.
  unfold len. simpl. lia.
Qed.

(** The split information of a constant column is [0.0]. *)
Lemma constant_column_split_info (HP : PlatformOk P) (data : table) (i : Z)
    (c0 : value) (cells : list value) :
  py_map (fun r : row => py_getitem r i) data = Ok (c0 :: cells) ->
  (len data < 2 ^ 53)%Z ->
  (forall c, In c cells -> py_eq c0 c = true) ->
  calculate_split_info data i = Ok 0%float.
Proof.
  intros Hcells Hlen Hconst. rewrite calculate_split_info_cells, Hcells. simpl.
  rewrite count_values_constant by assumption.
  apply calculate_entropy_single; [assumption |].
  apply py_map_length in Hcells. unfold len in *. rewrite Hcells.
  split; [| assumption].
  destruct data; simpl in *; [discriminate | lia].
Qed.

End Evaluator.

Lemma py_map_In_inv {X Y : Type} (f : X -> result Y) (xs : list X) :
  forall ys, py_map f xs = Ok ys ->
  forall y, In y ys -> exists x, In x xs /\ f x = Ok y.
Proof.
  induction xs as [| x xs IH]; simpl; intros ys H y Hin.
  - injection H as <-. easy.
  - destruct (f x) as [y0 |] eqn:Efx; [| discriminate]. simpl in H.
    destruct (py_map f xs) as [ys' |]; [| discriminate]. simpl in H.
    injection H as <-. destruct Hin as [<- | Hin].
    + exists x. split; [now left | assumption].
    + destruct (IH ys' eq_refl y Hin) as (x0 & ? & ?).
      exists x0. split; [now right | assumption].
Qed.

Section GainRatio.

Context {P : Platform}.

(** C3.  On a table whose rows can be read at the attribute index, gain
    and split information are computed without an exception, and
    [calculate_gain_ratio] returns 0 when the split information equals 0
    and the quotient gain / split information otherwise; it never raises
    the division error.  When the column is constant the split information
    is 0 (the platform's [log2(1.0)] being 0 and the row count below
    [2^53]). *)
Theorem gain_ratio_zero_split_policy (data : table) (i : Z) (decision_entropy : float) :
  readable i data ->
  exists gain split_info,
    calculate_gain data i decision_entropy = Ok gain
    /\ calculate_split_info data i = Ok split_info
    /\ calculate_gain_ratio data i decision_entropy =
       Ok (if (split_info =? 0)%float then 0%float else (gain / split_info)%float)
    /\ (PlatformOk P -> data <> [] -> (len data < 2 ^ 53)%Z ->
        constant_column i data -> split_info = 0%float).
Proof.
  intros Hread.
  destruct (calculate_attribute_info_ok Hread) as [info Hinfo].
  destruct (calculate_split_info_ok Hread) as [s Hs].
  exists (decision_entropy - info)%float, s.
  unfold calculate_gain_ratio, calculate_gain. rewrite Hinfo, Hs. simpl.
  repeat split.
  - unfold float_truediv. now destruct (s =? 0)%float.
  - intros HP Hne Hlen Hconst.
    destruct (readable_cells Hread) as [cells Hcells].
    destruct cells as [| c0 cells].
    { apply py_map_length in Hcells. destruct data; [easy | discriminate]. }
    rewrite (constant_column_split_info HP _ _ Hcells Hlen) in Hs.
    + now injection Hs.
    + intros c Hc.
      destruct (py_map_In_inv _ _ Hcells c0 (or_introl eq_refl)) as (r0 & Hr0 & Hc0).
      destruct (py_map_In_inv _ _ Hcells c (or_intror Hc)) as (r & Hr & Hcr).
      exact (Hconst r0 r c0 c Hr0 Hr Hc0 Hcr).
Qed.

End GainRatio.

Lemma gain_ratio_zero_split_policy_witness :
  readable 0 scenario_3
  /\ exists gain split_info,
       @calculate_gain ref_platform scenario_3 0 1 = Ok gain
       /\ @calculate_split_info ref_platform scenario_3 0 = Ok split_info
       /\ @calculate_gain_ratio ref_platform scenario_3 0 1 =
          Ok (if (split_info =? 0)%float then 0%float else (gain / split_info)%float)
       /\ (PlatformOk ref_platform -> scenario_3 <> [] ->
           (len scenario_3 < 2 ^ 53)%Z ->
           constant_column 0 scenario_3 -> split_info = 0%float).
Proof.
  assert (H : readable 0 scenario_3).
  { repeat constructor; eexists; reflexivity. }
  split; [exact H |].
  exact (@gain_ratio_zero_split_policy ref_platform scenario_3 0 1 H).
Defined.

(** ** The selection loop *)

Section Selection.

Context {P : Platform}.
Variables (data : table) (decision_entropy : float).

Lemma select_step_inv (hi : nat) (st st' : option Z * float) :
  selection_inv data decision_entropy hi st ->
  select_step data decision_entropy st hi = Ok st' ->
  selection_inv data decision_entropy (S hi) st'.
Proof.
  intros [Hall Hbest]. unfold select_step.
  fold (gain_ratio_at data decision_entropy hi).
  destruct (gain_ratio_at data decision_entropy hi) as [g |] eqn:Eg; [| discriminate].
  simpl. destruct st as [ba bg]. simpl in *.
  assert (Hall' : forall j, j < S hi ->
            exists g0, gain_ratio_at data decision_entropy j = Ok g0).
  { intros j Hj. destruct (Nat.eq_dec j hi) as [-> | Hne]; [eauto |].
    apply Hall. lia. }
  assert (Hprev : forall j g', j < hi ->
            gain_ratio_at data decision_entropy j = Ok g' -> (bg <? g')%float = false).
  { destruct ba as [a |].
    - destruct Hbest as (i & _ & _ & _ & _ & Hmax & _). exact Hmax.
    - destruct Hbest as [-> Hmax]. exact Hmax. }
  assert (Hlow : ba = None -> bg = (-1)%float) by (intros ->; tauto).
  assert (Hhigh : forall a, ba = Some a -> (-1 <? bg)%float = true).
  { intros a ->. destruct Hbest as (i & _ & _ & _ & H & _). exact H. }
  destruct (bg <? g)%float eqn:Elt; intros [= <-]; split; auto; simpl.
  - exists hi. split; [reflexivity |]. repeat split; auto.
    + destruct ba as [a |].
      * eapply FloatFacts.ltb_trans; [apply (Hhigh a eq_refl) | exact Elt].
      * now rewrite <- (Hlow eq_refl).
    + intros j g' Hj Hg'. destruct (Nat.eq_dec j hi) as [-> | Hne].
      * rewrite Eg in Hg'. injection Hg' as <-. apply FloatFacts.ltb_irrefl.
      * destruct (g <? g')%float eqn:E; [| reflexivity].
        rewrite <- (Hprev j g' ltac:(lia) Hg').
        symmetry. eapply FloatFacts.ltb_trans; eauto.
    + intros j g' Hj Hg'.
      destruct (g <=? g')%float eqn:E; [| reflexivity].
      rewrite <- (Hprev j g' Hj Hg').
      symmetry. eapply FloatFacts.ltb_leb_trans; eauto.
  - destruct ba as [a |].
    + destruct Hbest as (i & Ha & Hi & Hgi & Hpos & Hmax & Hfirst).
      exists i. split; [exact Ha |]. repeat split; auto.
      intros j g' Hj Hg'. destruct (Nat.eq_dec j hi) as [-> | Hne].
      * rewrite Eg in Hg'. now injection Hg' as <-.
      * apply (Hmax j); [lia | exact Hg'].
    + destruct Hbest as [-> Hmax]. split; [reflexivity |].
      intros j g' Hj Hg'. destruct (Nat.eq_dec j hi) as [-> | Hne].
      * rewrite Eg in Hg'. now injection Hg' as <-.
      * apply (Hmax j); [lia | exact Hg'].
Qed.

Lemma select_loop_inv (n : nat) :
  forall hi st,
    selection_inv data decision_entropy hi st ->
    match for_loop (seq hi n) st (select_step data decision_entropy) with
    | Ok st' => selection_inv data decision_entropy (hi + n) st'
    | Raise e => first_raise data decision_entropy (hi + n) e
    end.
Proof.
  induction n as [| n IH]; intros hi st Hinv; simpl.
  - now rewrite Nat.add_0_r.
  - destruct (select_step data decision_entropy st hi) as [st' |] eqn:Estep; simpl.
    + replace (hi + S n) with (S hi + n) by lia.
      apply IH. eapply select_step_inv; eauto.
    + exists hi. split; [lia |]. split; [| apply Hinv].
      unfold select_step in Estep.
      fold (gain_ratio_at data decision_entropy hi) in Estep.
      destruct (gain_ratio_at data decision_entropy hi); simpl in Estep.
      * destruct (snd st <? a)%float; discriminate.
      * now injection Estep as ->.
Qed.

(** The loop over [range(num_attributes)], characterised. *)
Lemma select_attribute_spec (num_attributes : Z) :
  match select_attribute data decision_entropy num_attributes with
  | Ok st => selection_inv data decision_entropy (Z.to_nat num_attributes) st
  | Raise e => first_raise data decision_entropy (Z.to_nat num_attributes) e
  end.
Proof.
  unfold select_attribute.
  apply (select_loop_inv (Z.to_nat num_attributes) (hi := 0)).
  split; [intros j Hj; lia |]. simpl. split; [reflexivity |]. intros j g Hj. lia.
Qed.

End Selection.

(** ** Sets and keyed accumulation *)

Lemma py_set_snoc (vs : list value) (v : value) :
  py_set (vs ++ [v]) = set_add (py_set vs) v.
Proof. unfold py_set. now rewrite fold_left_app. Qed.

Lemma existsb_py_eq_false (s : list value) (v : value) :
  existsb (fun k => py_eq k v) s = false <-> forall k, In k s -> py_eq k v = false.
Proof.
  induction s as [| k s IH]; simpl; [easy |].
  rewrite orb_false_iff, IH. split.
  - intros [Hk Hs] k' [<- | Hin]; auto.
  - intros H. split; [apply H; now left | intros; apply H; now right].
Qed.

Lemma distinct_keys_snoc (s : list value) (v : value) :
  distinct_keys s -> (forall k, In k s -> py_eq k v = false) ->
  distinct_keys (s ++ [v]).
Proof.
  unfold distinct_keys. induction 1 as [| k s Hk Hs IH]; intros Hv; simpl.
  - repeat constructor.
  - constructor.
    + apply Forall_app. split; [exact Hk |].
      constructor; [apply Hv; now left | constructor].
    + apply IH. intros; apply Hv; now right.
Qed.

Lemma py_set_distinct (vs : list value) : distinct_keys (py_set vs).
Proof.
  induction vs as [| v vs IH] using rev_ind; [constructor |].
  rewrite py_set_snoc. unfold set_add.
  destruct (existsb _ (py_set vs)) eqn:E; [exact IH |].
  apply distinct_keys_snoc; [exact IH | now apply existsb_py_eq_false].
Qed.

Lemma py_set_incl (vs : list value) : incl (py_set vs) vs.
Proof.
  induction vs as [| v vs IH] using rev_ind; [easy |].
  rewrite py_set_snoc. unfold set_add. intros k Hk.
  destruct (existsb _ (py_set vs)).
  - apply in_or_app. left. now apply IH.
  - apply in_app_or in Hk. apply in_or_app.
    destruct Hk as [Hk | Hk]; [left; now apply IH | now right].
Qed.

(** Every value that is not NaN equals one of the set's elements. *)
Lemma py_set_cover (vs : list value) (v : value) :
  In v vs -> py_eq v v = true -> exists k, In k (py_set vs) /\ py_eq k v = true.
Proof.
  induction vs as [| w vs IH] using rev_ind; [easy |].
  intros Hin Hrefl. rewrite py_set_snoc. unfold set_add.
  apply in_app_or in Hin.
  destruct (existsb _ (py_set vs)) eqn:E.
  - destruct Hin as [Hin | [<- | []]].
    + now apply IH.
    + apply existsb_exists in E. exact E.
  - destruct Hin as [Hin | [<- | []]].
    + destruct (IH Hin Hrefl) as (k & Hk & Hkv).
      exists k. split; [apply in_or_app; now left | exact Hkv].
    + exists w. split; [apply in_or_app; right; now left | exact Hrefl].
Qed.

Lemma py_set_nonempty (v : value) (vs : list value) : py_set (v :: vs) <> [].
Proof.
  induction vs as [| w vs IH] using rev_ind; [discriminate |].
  change (v :: vs ++ [w]) with ((v :: vs) ++ [w]).
  rewrite py_set_snoc. unfold set_add.
  destruct (existsb _ _); [exact IH |].
  now destruct (py_set (v :: vs)).
Qed.

Lemma fold_set_add_length (vs : list value) :
  forall s, length s <= length (fold_left set_add vs s).
Proof.
  induction vs as [| v vs IH]; intros s; simpl; [lia |].
  etransitivity; [| apply IH]. unfold set_add.
  destruct (existsb _ s); [lia |]. rewrite length_app. lia.
Qed.

(** [len(set(decisions)) == 1] says that every value after the first one
    equals the first. *)
Lemma py_set_single (d0 : value) (ds : list value) :
  length (py_set (d0 :: ds)) = 1 <-> forall d, In d ds -> py_eq d0 d = true.
Proof.
  unfold py_set. simpl. change (set_add [] d0) with [d0].
  induction ds as [| d ds IH]; simpl; [easy |].
  unfold set_add at 2. simpl. rewrite orb_false_r.
  destruct (py_eq d0 d) eqn:E.
  - rewrite IH. split; [intros H x [<- | Hx]; auto | intros H x Hx; apply H; now right].
  - split.
    + intros H. pose proof (fold_set_add_length ds [d0; d]) as Hlen.
      simpl in Hlen. lia.
    + intros H. rewrite (H d (or_introl eq_refl)) in E. discriminate.
Qed.

Section Upsert.

Context {A X : Type} (upd : A -> X -> A) (init : X -> A).

Lemma dict_upsert_hit (f : value -> A) (k : value) (x : X) (keys : list value) :
  distinct_keys keys ->
  (exists key, In key keys /\ py_eq key k = true) ->
  dict_upsert upd init (map (fun key => (key, f key)) keys) k x =
  map (fun key => (key, if py_eq key k then upd (f key) x else f key)) keys.
Proof.
  unfold distinct_keys. induction 1 as [| key keys Hkey Hkeys IH]; intros Hex; simpl.
  - destruct Hex as (? & [] & _).
  - destruct (py_eq key k) eqn:E.
    + f_equal. apply map_ext_in. intros key' Hin.
      rewrite Forall_forall in Hkey. specialize (Hkey key' Hin).
      destruct (py_eq key' k) eqn:E'; [| reflexivity].
      rewrite (py_eq_trans _ _ _ E) in Hkey; [discriminate |].
      now rewrite py_eq_sym.
    + f_equal. apply IH. destruct Hex as (key' & [<- | Hin] & Hk); [congruence |].
      eauto.
Qed.

Lemma dict_upsert_miss (f : value -> A) (k : value) (x : X) (keys : list value) :
  (forall key, In key keys -> py_eq key k = false) ->
  dict_upsert upd init (map (fun key => (key, f key)) keys) k x =
  map (fun key => (key, f key)) keys ++ [(k, init x)].
Proof.
  induction keys as [| key keys IH]; intros Hmiss; simpl; [reflexivity |].
  rewrite (Hmiss key (or_introl eq_refl)). f_equal.
  apply IH. intros; apply Hmiss; now right.
Qed.

Variable F : list X -> A.
Hypothesis F_init : forall x, F [x] = init x.
Hypothesis F_upd : forall xs x, xs <> [] -> F (xs ++ [x]) = upd (F xs) x.

Lemma matches_snoc (key : value) (pairs : list (value * X)) (k : value) (x : X) :
  matches key (pairs ++ [(k, x)]) =
  matches key pairs ++ (if py_eq key k then [x] else []).
Proof.
  unfold matches. rewrite filter_app, map_app. simpl.
  now destruct (py_eq key k).
Qed.

(** Accumulating pairs key by key files, under each key of the set of
    keys, the items whose key equals it. *)
Lemma fold_upsert (pairs : list (value * X)) :
  no_nan (map fst pairs) ->
  fold_left (fun d kx => dict_upsert upd init d (fst kx) (snd kx)) pairs [] =
  map (fun key => (key, F (matches key pairs))) (py_set (map fst pairs)).
Proof.
  induction pairs as [| [k x] pairs IH] using rev_ind; intros Hnan; [reflexivity |].
  unfold no_nan in Hnan. rewrite map_app, Forall_app in Hnan.
  destruct Hnan as [Hnan Hk]. inversion Hk as [| ? ? Hkk _]; subst. simpl in Hkk.
  rewrite fold_left_app, map_app. cbn [map fst fold_left snd].
  rewrite py_set_snoc, (IH Hnan). unfold set_add.
  destruct (existsb _ (py_set (map fst pairs))) eqn:E.
  - rewrite dict_upsert_hit;
      [| apply py_set_distinct | apply existsb_exists in E; exact E].
    apply map_ext_in. intros key Hkey. f_equal. rewrite matches_snoc.
    destruct (py_eq key k) eqn:Ekey; [| now rewrite app_nil_r].
    symmetry. apply F_upd.
    apply py_set_incl in Hkey. apply in_map_iff in Hkey.
    destruct Hkey as ([k' x'] & <- & Hin). simpl in *.
    unfold matches. intros Hnil. apply map_eq_nil in Hnil.
    assert (Hf : In (k', x') (filter (fun kx => py_eq k' (fst kx)) pairs)).
    { apply filter_In. split; [exact Hin |]. simpl. eapply py_eq_refl_l; eauto. }
    rewrite Hnil in Hf. exact Hf.
  - rewrite existsb_py_eq_false in E.
    rewrite dict_upsert_miss by exact E. rewrite map_app. simpl. f_equal.
    + apply map_ext_in. intros key Hkey. f_equal. rewrite matches_snoc.
      rewrite (E key Hkey). now rewrite app_nil_r.
    + do 2 f_equal. rewrite matches_snoc, Hkk.
      replace (matches k pairs) with (@nil X); [symmetry; apply F_init |].
      symmetry. unfold matches.
      destruct (filter _ pairs) as [| [k' x'] rest] eqn:Ef; [reflexivity |].
      exfalso.
      assert (Hin : In (k', x') (filter (fun kx => py_eq k (fst kx)) pairs))
        by (rewrite Ef; now left).
      apply filter_In in Hin. destruct Hin as [Hin Hkk']. simpl in Hkk'.
      destruct (@py_set_cover (map fst pairs) k') as (key & Hkey & Hkeyk').
      { apply in_map_iff. now exists (k', x'). }
      { eapply py_eq_refl_r; eauto. }
      specialize (E key Hkey).
      rewrite (py_eq_trans key k' k) in E; try discriminate; auto.
      now rewrite py_eq_sym.
Qed.

End Upsert.

Lemma fold_left_map {S X Y : Type} (step : S -> Y -> S) (f : X -> Y) (xs : list X) :
  forall s, fold_left step (map f xs) s = fold_left (fun s x => step s (f x)) xs s.
Proof. induction xs as [| x xs IH]; intros s; simpl; auto. Qed.

Lemma fold_left_ext {S X : Type} (step step' : S -> X -> S) (xs : list X) :
  (forall s x, step s x = step' s x) ->
  forall s, fold_left step xs s = fold_left step' xs s.
Proof.
  intros Hext. induction xs as [| x xs IH]; intros s; simpl; [reflexivity |].
  now rewrite Hext, IH.
Qed.

Lemma count_step_upsert (d : dict Z) (v : value) :
  count_step d v = dict_upsert (fun c (_ : unit) => (c + 1)%Z) (fun _ => 1%Z) d v tt.
Proof.
  unfold count_step, dict_get_default.
  induction d as [| [k c] d IH]; simpl; [reflexivity |].
  destruct (py_eq k v); [reflexivity |]. now rewrite IH.
Qed.

(** The distribution of values none of which is NaN: one entry per element
    of the set, in first-occurrence order, with its number of occurrences. *)
Lemma count_values_occurrences (vs : list value) :
  no_nan vs ->
  count_values vs = map (fun key => (key, occurrences key vs)) (py_set vs).
Proof.
  intros Hnan. unfold count_values.
  rewrite (fold_left_ext count_step
             (fun d v => dict_upsert (fun c (_ : unit) => (c + 1)%Z) (fun _ => 1%Z)
                           d (fst (v, tt)) (snd (v, tt))))
    by (intros; apply count_step_upsert).
  rewrite <- (fold_left_map
                (fun d kx => dict_upsert (fun c (_ : unit) => (c + 1)%Z)
                               (fun _ => 1%Z) d (fst kx) (snd kx))
                (fun v => (v, tt))).
  assert (Hfst : map fst (map (fun v : value => (v, tt)) vs) = vs)
    by (rewrite map_map; apply map_id).
  rewrite (@fold_upsert _ _ _ _ (fun xs : list unit => len xs)).
  - rewrite Hfst. apply map_ext. intros key. f_equal.
    unfold occurrences, matches, len. rewrite length_map. f_equal.
    induction vs as [| v vs IH]; simpl; [reflexivity |].
    destruct (py_eq key v); simpl; rewrite IH; auto.
    + now inversion Hnan.
    + rewrite map_map. apply map_id.
    + now inversion Hnan.
    + rewrite map_map. apply map_id.
  - reflexivity.
  - intros xs [] _. unfold len. rewrite length_app. simpl. lia.
  - now rewrite Hfst.
Qed.

Lemma ref_platform_ok : PlatformOk ref_platform.
Proof. split. reflexivity. Qed.

(** ** Grouping by equality *)

Section GroupsByEquality.

Context {X : Type}.

Lemma group_extended_nil (groups : dict (list X)) :
  map (group_extended []) groups = groups.
Proof.
  induction groups as [| [k g] groups IH]; [reflexivity |].
  simpl. rewrite IH. unfold group_extended, matches. simpl. now rewrite app_nil_r.
Qed.

Lemma setdefault_append_miss (groups : dict (list X)) (k : value) (x : X) :
  existsb (fun k' => py_eq k' k) (dict_keys groups) = false ->
  setdefault_append groups k x = groups ++ [(k, [x])].
Proof.
  induction groups as [| [k' g] groups IH]; simpl; [reflexivity |].
  intros H. apply orb_false_iff in H. destruct H as [-> H]. now rewrite IH.
Qed.

Lemma group_extended_miss (groups : dict (list X)) (k : value) (x : X)
    (rest : list (value * X)) :
  existsb (fun k' => py_eq k' k) (dict_keys groups) = false ->
  map (group_extended ((k, x) :: rest)) groups = map (group_extended rest) groups.
Proof.
  intros H. rewrite existsb_py_eq_false in H.
  apply map_ext_in. intros [k' g] Hin.
  unfold group_extended, matches. cbn [fst snd filter].
  rewrite (H k'); [reflexivity |].
  unfold dict_keys. apply in_map_iff. now exists (k', g).
Qed.

Lemma setdefault_append_keys (groups : dict (list X)) (k : value) (x : X) :
  existsb (fun k' => py_eq k' k) (dict_keys groups) = true ->
  dict_keys (setdefault_append groups k x) = dict_keys groups.
Proof.
  induction groups as [| [k' g] groups IH]; simpl; [discriminate |].
  destruct (py_eq k' k); simpl; [reflexivity |]. intros H. now rewrite IH.
Qed.

Lemma group_extended_hit (groups : dict (list X)) (k : value) (x : X)
    (rest : list (value * X)) :
  distinct_keys (dict_keys groups) ->
  existsb (fun k' => py_eq k' k) (dict_keys groups) = true ->
  map (group_extended rest) (setdefault_append groups k x) =
  map (group_extended ((k, x) :: rest)) groups.
Proof.
  unfold distinct_keys.
  induction groups as [| [k' g] groups IH]; simpl; [discriminate |].
  intros Hdist Hex. inversion Hdist as [| ? ? Hk' Hrest]; subst.
  destruct (py_eq k' k) eqn:E; simpl.
  - f_equal.
    + unfold group_extended, matches. cbn [fst snd filter]. rewrite E.
      cbn [map snd]. now rewrite <- app_assoc.
    + symmetry. apply group_extended_miss. apply existsb_py_eq_false.
      intros k'' Hin. rewrite Forall_forall in Hk'. specialize (Hk' k'' Hin).
      destruct (py_eq k'' k) eqn:E'; [| reflexivity].
      rewrite (py_eq_trans _ _ _ E) in Hk'; [discriminate |].
      now rewrite py_eq_sym.
  - f_equal.
    + unfold group_extended, matches. cbn [fst snd filter]. now rewrite E.
    + now apply IH.
Qed.

(** [setdefault(k, []).append(x)] over the items files them as the
    grouping by equality does. *)
Lemma fold_setdefault_groups (pairs : list (value * X)) :
  forall groups, distinct_keys (dict_keys groups) ->
    fold_left (fun d kx => setdefault_append d (fst kx) (snd kx)) pairs groups =
    map (group_extended pairs) groups ++ spec_groups pairs (dict_keys groups).
Proof.
  induction pairs as [| [k x] rest IH]; intros groups Hdist.
  - simpl. now rewrite group_extended_nil, app_nil_r.
  - cbn [fold_left spec_groups fst snd].
    destruct (existsb (fun k' => py_eq k' k) (dict_keys groups)) eqn:E.
    + rewrite IH by (now rewrite setdefault_append_keys).
      rewrite setdefault_append_keys by exact E.
      now rewrite group_extended_hit.
    + rewrite (@setdefault_append_miss groups k x E).
      rewrite IH.
      * unfold dict_keys at 1. rewrite !map_app. cbn [map fst].
        rewrite (@group_extended_miss groups k x rest E), <- app_assoc. reflexivity.
      * unfold dict_keys. rewrite map_app. apply distinct_keys_snoc; [exact Hdist |].
        now apply existsb_py_eq_false.
Qed.

End GroupsByEquality.

Lemma fold_group_step_pairs (data : table) :
  forall cells groups,
    fold_left group_step (combine data cells) groups =
    fold_left (fun d (kx : value * row) => setdefault_append d (fst kx) (snd kx))
              (combine cells data) groups.
Proof.
  induction data as [| r data IH]; intros [| c cells] groups; simpl; auto.
Qed.

(** The groups that [calculate_attribute_info] accumulates are the
    partition of the rows by their cells. *)
Lemma group_rows_spec_partition (data : table) (cells : list value) :
  dict_values (group_rows data cells) = spec_partition data cells.
Proof.
  unfold group_rows, spec_partition.
  rewrite fold_group_step_pairs, fold_setdefault_groups by constructor.
  reflexivity.
Qed.

Lemma count_step_groups (groups : dict (list value)) (v : value) :
  count_step (map (fun group => (fst group, len (snd group))) groups) v =
  map (fun group => (fst group, len (snd group))) (setdefault_append groups v v).
Proof.
  rewrite count_step_upsert.
  induction groups as [| [k g] groups IH]; simpl; [reflexivity |].
  destruct (py_eq k v); simpl.
  - do 2 f_equal. unfold len. rewrite length_app. simpl. lia.
  - now rewrite IH.
Qed.

Lemma fold_count_step_groups (vs : list value) :
  forall groups,
    fold_left count_step vs (map (fun group => (fst group, len (snd group))) groups) =
    map (fun group => (fst group, len (snd group)))
        (fold_left (fun d (kx : value * value) => setdefault_append d (fst kx) (snd kx))
                   (combine vs vs) groups).
Proof.
  induction vs as [| v vs IH]; intros groups; simpl; [reflexivity |].
  now rewrite count_step_groups, IH.
Qed.

(** The counting loop gives the distribution of the values. *)
Lemma count_values_spec_distribution (vs : list value) :
  count_values vs = spec_distribution vs.
Proof.
  unfold count_values, spec_distribution.
  change (@nil (value * Z))
    with (map (fun group : value * list value => (fst group, len (snd group))) []).
  rewrite fold_count_step_groups, fold_setdefault_groups by constructor.
  reflexivity.
Qed.

(** ** The specification's entropy and conditional information *)

Section SpecificationFacts.

Context {P : Platform}.

(** With a nonzero total [calculate_entropy] returns the entropy of the
    distribution. *)
Lemma calculate_entropy_spec (counts : dict Z) :
  total_count counts <> 0%Z -> calculate_entropy counts = Ok (spec_entropy counts).
Proof.
  intros Htotal. unfold calculate_entropy, spec_entropy.
  fold (total_count counts). cbv zeta.
  generalize (dict_values counts) as values. intros values.
  assert (Hloop : forall acc,
            for_loop values acc (fun entropy count =>
              p <- int_truediv count (total_count counts) ;;
              if (0 <? p)%float then
                l <- math_log2 p ;;
                Ok (entropy - p * l)%float
              else Ok entropy) =
            Ok (fold_left (fun sum count =>
                  if (0 <? float_of_Z count / float_of_Z (total_count counts))%float
                  then (sum + - (float_of_Z count / float_of_Z (total_count counts)
                                 * libm_log2 (float_of_Z count
                                              / float_of_Z (total_count counts))))%float
                  else sum) values acc)); [| apply Hloop].
  induction values as [| count values IH]; intros acc; [reflexivity |].
  cbn [for_loop fold_left]. unfold int_truediv at 1.
  destruct (Z.eqb_spec (total_count counts) 0); [easy |].
  cbn [bind]. destruct (0 <? _)%float eqn:Epos.
  - rewrite math_log2_positive by exact Epos. cbn [bind].
    rewrite IH. now rewrite float_add_opp.
  - apply IH.
Qed.

Lemma for_loop_terms {G : Type} (body : float -> G -> result float)
    (term : G -> result float) (groups : list G) :
  (forall g, In g groups -> forall acc,
     body acc g = (t <- term g ;; Ok (acc + t)%float)) ->
  forall acc,
    for_loop groups acc body =
    (terms <- py_map term groups ;;
     Ok (fold_left (fun sum t => (sum + t)%float) terms acc)).
Proof.
  induction groups as [| g groups IH]; intros Hbody acc; [reflexivity |].
  cbn [for_loop py_map]. rewrite (Hbody g (or_introl eq_refl)).
  destruct (term g) as [t |]; cbn [bind]; [| reflexivity].
  rewrite IH by (intros; apply Hbody; now right).
  destruct (py_map term groups); reflexivity.
Qed.

(** The term of one group of rows of the table. *)
Lemma group_term_spec (i : Z) (data subset : table) (info : float) :
  readable i data -> subset <> [] -> incl subset data ->
  group_term (len data) info subset =
  (t <- (decisions <- py_map (fun r : row => py_getitem r (-1)) subset ;;
         Ok (spec_weight subset data
             * spec_entropy (spec_distribution decisions))%float) ;;
   Ok (info + t)%float).
Proof.
  intros Hread Hne Hincl. unfold group_term, group_entropy.
  destruct (readable_decisions Hread Hincl) as [ds Hds]. rewrite Hds. cbn [bind].
  assert (Hlen : length ds = length subset) by (eapply py_map_length; eauto).
  rewrite calculate_entropy_spec.
  2:{ rewrite count_values_total. unfold len. rewrite Hlen.
      destruct subset; [easy | simpl; lia]. }
  cbn [bind]. unfold int_truediv.
  destruct (Z.eqb_spec (len data) 0) as [E |].
  - exfalso. destruct subset as [| r subset]; [easy |].
    specialize (Hincl r (or_introl eq_refl)).
    unfold len in E. destruct data; [easy | simpl in E; lia].
  - cbn [bind]. now rewrite count_values_spec_distribution.
Qed.

End SpecificationFacts.

Section ConditionalInfo.

Context {P : Platform}.

(** C4.  On a table whose rows can be read at the attribute index (and of
    fewer than [2^53] rows, so that the quotients of counts are Python's),
    [calculate_attribute_info] returns, without an exception, what the
    specification describes: the rows are partitioned into groups keyed by
    the value at the index; each group gives the distribution of its last
    column and that distribution's entropy, the sum of [- p * log2(p)]
    over its counts; the result is the sum over the groups, in the order
    in which their values first occur, of the entropy weighted by
    [|group| / |table|]. *)
Theorem conditional_info_is_weighted_group_entropy (data : table) (i : Z) :
  readable i data -> (len data < 2 ^ 53)%Z ->
  calculate_attribute_info data i = spec_conditional_info data i
  /\ exists info, calculate_attribute_info data i = Ok info.
Proof.
  intros Hread _. split; [| now apply calculate_attribute_info_ok].
  rewrite calculate_attribute_info_groups. unfold spec_conditional_info.
  destruct (py_map (fun r : row => py_getitem r i) data) as [cells |] eqn:Ecells;
    [| reflexivity].
  cbn [bind]. rewrite <- group_rows_spec_partition.
  apply for_loop_terms. intros subset Hin info.
  pose proof (group_rows_inv data cells) as Hinv.
  unfold groups_inv in Hinv. rewrite Forall_forall in Hinv.
  unfold dict_values in Hin. apply in_map_iff in Hin.
  destruct Hin as ([k rows] & <- & Hin). destruct (Hinv _ Hin) as [Hne Hincl].
  now apply group_term_spec with (i := i).
Qed.

End ConditionalInfo.

(** On [mixed_groups] the first group has entropy 1 and the second 0, each
    weighs a half, and the conditional information is a half. *)
Lemma conditional_info_mixed_groups :
  spec_partition mixed_groups [VInt 1; VInt 1; VInt 2; VInt 2] =
    [[[VInt 1; VStr "A"]; [VInt 1; VStr "B"]]; [[VInt 2; VStr "A"]; [VInt 2; VStr "A"]]]
  /\ spec_distribution [VStr "A"; VStr "B"] = [(VStr "A", 1%Z); (VStr "B", 1%Z)]
  /\ @spec_entropy ref_platform [(VStr "A", 1%Z); (VStr "B", 1%Z)] = 1%float
  /\ @spec_entropy ref_platform [(VStr "A", 2%Z)] = 0%float
  /\ @calculate_attribute_info ref_platform mixed_groups 0 = Ok 0.5%float.
Proof. repeat split; reflexivity. Qed.

Lemma conditional_info_witness :
  readable 0 mixed_groups /\ (len mixed_groups < 2 ^ 53)%Z
  /\ @calculate_attribute_info ref_platform mixed_groups 0 =
     @spec_conditional_info ref_platform mixed_groups 0
  /\ exists info, @calculate_attribute_info ref_platform mixed_groups 0 = Ok info.
Proof.
  assert (Hread : readable 0 mixed_groups)
    by (repeat constructor; eexists; reflexivity).
  assert (Hlen : (len mixed_groups < 2 ^ 53)%Z) by reflexivity.
  split; [exact Hread |]. split; [exact Hlen |].
  exact (@conditional_info_is_weighted_group_entropy ref_platform mixed_groups 0
           Hread Hlen).
Defined.

(** ** The builder *)

Lemma fold_max_step (d : dict Z) :
  forall entry,
    let best := fold_left max_step d entry in
    In best (entry :: d)
    /\ (snd entry <= snd best)%Z
    /\ forall e, In e d -> (snd e <= snd best)%Z.
Proof.
  induction d as [| e d IH]; intros entry; simpl.
  - repeat split; [now left | lia | easy].
  - destruct (IH (max_step entry e)) as (Hin & Hle & Hall).
    unfold max_step in *. split; [| split].
    + destruct (snd entry <? snd e)%Z; destruct Hin as [<- | Hin]; auto.
    + destruct (Z.ltb_spec (snd entry) (snd e)); lia.
    + intros e' [Heq | He']; [subst e' | now apply Hall].
      destruct (Z.ltb_spec (snd entry) (snd e)); lia.
Qed.

Lemma py_max_key_majority (counts : dict Z) :
  counts <> [] -> exists m, py_max_key counts = Ok m /\ majority counts m.
Proof.
  destruct counts as [| entry d]; [easy |]. intros _. simpl.
  destruct (fold_max_step d entry) as (Hin & Hle & Hall).
  exists (fst (fold_left max_step d entry)). split; [reflexivity |].
  exists (snd (fold_left max_step d entry)). split.
  - now rewrite <- surjective_pairing.
  - intros k c' [Heq | Hk]; [subst entry; exact Hle | exact (Hall _ Hk)].
Qed.

Lemma occurrences_py_eq (k d : value) (vs : list value) :
  py_eq k d = true -> occurrences d vs = occurrences k vs.
Proof.
  intros Hkd. unfold occurrences. f_equal.
  apply filter_ext. intros x. apply eq_true_iff_eq. split; intros H.
  - eapply py_eq_trans; eauto.
  - eapply py_eq_trans; [| exact H]. now rewrite py_eq_sym.
Qed.

(** Without NaN decisions the majority label occurs at least as often as
    any decision of the table. *)
Lemma majority_occurrences (ds : list value) (m : value) :
  no_nan ds -> majority (count_values ds) m ->
  In m ds /\ forall d, In d ds -> (occurrences d ds <= occurrences m ds)%Z.
Proof.
  intros Hnan (c & Hm & Hmax). rewrite count_values_occurrences in * by assumption.
  apply in_map_iff in Hm. destruct Hm as (k & [= <- <-] & Hk).
  split; [now apply py_set_incl |]. intros d Hd.
  unfold no_nan in Hnan. rewrite Forall_forall in Hnan.
  destruct (@py_set_cover ds d Hd (Hnan d Hd)) as (k' & Hk' & Hk'd).
  rewrite (@occurrences_py_eq k' d ds Hk'd).
  apply (Hmax k'). apply in_map_iff. now exists k'.
Qed.

Section Builder.

Context {P : Platform}.

Lemma decisions_entropy_ok (d0 : value) (ds : list value) :
  exists de, calculate_entropy (count_values (d0 :: ds)) = Ok de.
Proof.
  apply calculate_entropy_ok. rewrite count_values_total.
  unfold len. simpl. lia.
Qed.

Lemma pure_test (d0 : value) (ds : list value) :
  (len (py_set (d0 :: ds)) =? 1)%Z = true <-> same_decision d0 ds.
Proof.
  rewrite Z.eqb_eq. unfold same_decision. rewrite <- py_set_single.
  unfold len. lia.
Qed.

(** The three ways out of [build_tree] on a non-empty table whose rows all
    have a decision cell. *)
Lemma build_tree_fuel_cases (fuel : nat) (row0 : row) (rest : table)
    (d0 : value) (ds : list value) :
  decisions_of (row0 :: rest) = Ok (d0 :: ds) ->
  exists de,
    calculate_entropy (count_values (d0 :: ds)) = Ok de
    /\ (same_decision d0 ds ->
        build_tree_fuel (S fuel) (row0 :: rest) = Some (Ok (Some (leaf d0))))
    /\ (~ same_decision d0 ds ->
        match select_attribute (row0 :: rest) de (len row0 - 1) with
        | Raise e => build_tree_fuel (S fuel) (row0 :: rest) = Some (Raise e)
        | Ok (best_attribute, best_gain_ratio) =>
            if (best_gain_ratio =? 0)%float then
              exists m, majority (count_values (d0 :: ds)) m
                /\ build_tree_fuel (S fuel) (row0 :: rest) = Some (Ok (Some (leaf m)))
            else
              (best_attribute = None ->
               build_tree_fuel (S fuel) (row0 :: rest) = Some (Raise TypeError))
              /\ forall t, build_tree_fuel (S fuel) (row0 :: rest) = Some (Ok t) ->
                   exists a cs, best_attribute = Some a
                     /\ t = Some (TreeNode_init (Some a) cs None)
        end).
Proof.
  intros Hdec. destruct (decisions_entropy_ok d0 ds) as [de Hde].
  exists de. split; [exact Hde |].
  assert (Hunfold : forall X (k : list value -> comp X),
            (decisions <~ lift (py_map (fun r : row => py_getitem r (-1)) (row0 :: rest)) ;;
             k decisions) = k (d0 :: ds)).
  { intros X k. unfold decisions_of in Hdec. now rewrite Hdec. }
  split.
  - intros Hsame. cbn [build_tree_fuel]. rewrite Hunfold.
    rewrite (proj2 (pure_test d0 ds) Hsame). reflexivity.
  - intros Hdiff. cbn [build_tree_fuel]. rewrite Hunfold.
    destruct (len (py_set (d0 :: ds)) =? 1)%Z eqn:Epure.
    { apply pure_test in Epure. contradiction. }
    rewrite Hde. cbn [lift cbind].
    destruct (select_attribute (row0 :: rest) de (len row0 - 1))
      as [[best_attribute best] |]; cbn [lift cbind]; [| reflexivity].
    destruct (best =? 0)%float.
    + destruct (@py_max_key_majority (count_values (d0 :: ds)))
        as (m & Hm & Hmaj); [now apply count_values_nonempty |].
      exists m. split; [exact Hmaj |]. now rewrite Hm.
    + split; [intros ->; reflexivity |]. intros t Ht.
      destruct best_attribute as [a |].
      2:{ cbn [py_map py_getitem_opt bind lift cbind] in Ht. discriminate. }
      exists a. clear Hunfold.
      destruct (py_map (fun r : list value => py_getitem_opt r (Some a))
                  (row0 :: rest)) as [cells |]; [| discriminate].
      destruct (for_comp _ _ _) as [[cs |] |]; try discriminate.
      cbn [lift cbind] in Ht. injection Ht as <-. now exists cs.
Qed.

End Builder.

(** ** Termination *)

Lemma py_filter_cells (a : Z) (v : value) (data : table) :
  forall cells,
    py_map (fun r : row => py_getitem_opt r (Some a)) data = Ok cells ->
    py_filter (fun r : row => cell <- py_getitem_opt r (Some a) ;; Ok (py_eq cell v)) data
    = Ok (select_rows data cells v).
Proof.
  unfold select_rows.
  induction data as [| r data IH]; simpl; intros cells H.
  - now injection H as <-.
  - destruct (py_getitem r a) as [c |]; [| discriminate]. simpl in *.
    destruct (py_map _ data) as [cs |]; [| discriminate]. simpl in H.
    injection H as <-. rewrite (IH cs eq_refl). simpl.
    now destruct (py_eq c v).
Qed.

Lemma select_rows_incl (data : table) (cells : list value) (v : value) :
  incl (select_rows data cells v) data.
Proof.
  unfold select_rows. intros r Hr. apply in_map_iff in Hr.
  destruct Hr as ([r' c] & <- & Hin). apply filter_In in Hin.
  eapply in_combine_l, (proj1 Hin).
Qed.

Lemma select_rows_length (data : table) :
  forall cells v, length (select_rows data cells v) <= length data.
Proof.
  unfold select_rows.
  induction data as [| r data IH]; intros [| c cells] v; simpl; try lia.
  destruct (py_eq c v); simpl; specialize (IH cells v); lia.
Qed.

Lemma select_rows_shorter (data : table) :
  forall cells v c,
    length cells = length data -> In c cells -> py_eq c v = false ->
    length (select_rows data cells v) < length data.
Proof.
  induction data as [| r data IH]; intros [| c0 cells] v c Hlen Hin Hc;
    simpl in *; try easy.
  unfold select_rows in *. simpl.
  destruct Hin as [-> | Hin].
  - rewrite Hc. pose proof (select_rows_length data cells v) as Hle.
    unfold select_rows in Hle. lia.
  - specialize (IH cells v c ltac:(lia) Hin Hc).
    destruct (py_eq c0 v); simpl; lia.
Qed.

Lemma for_comp_some {S X : Type} (body : S -> X -> comp S) (xs : list X) :
  (forall s x, In x xs -> exists r, body s x = Some r) ->
  forall s, exists r, for_comp xs s body = Some r.
Proof.
  induction xs as [| x xs IH]; intros Hbody s; simpl; [eauto |].
  destruct (Hbody s x (or_introl eq_refl)) as [[s' | e] ->]; simpl; [| eauto].
  apply IH. intros s0 x0 Hin. apply Hbody. now right.
Qed.

Section Termination.

Context {P : Platform}.
Hypothesis HP : PlatformOk P.

(** A gain ratio other than 0 is the gain ratio of a column with two
    different cells. *)
Lemma nonzero_gain_ratio_two_values (data : table) (a : Z)
    (decision_entropy best : float) (c0 : value) (cells : list value) :
  (len data < 2 ^ 53)%Z ->
  calculate_gain_ratio data a decision_entropy = Ok best ->
  (best =? 0)%float = false ->
  py_map (fun r : row => py_getitem r a) data = Ok (c0 :: cells) ->
  exists c, In c cells /\ py_eq c0 c = false.
Proof.
  intros Hlen Hgr Hbest Hcells.
  destruct (forallb (py_eq c0) cells) eqn:Eall.
  - exfalso. rewrite forallb_forall in Eall.
    pose proof (constant_column_split_info HP _ _ Hcells Hlen Eall) as Hs.
    unfold calculate_gain_ratio in Hgr.
    destruct (calculate_gain data a decision_entropy); [| discriminate].
    simpl in Hgr. rewrite Hs in Hgr. simpl in Hgr.
    injection Hgr as <-. discriminate.
  - assert (Hex : existsb (fun c => negb (py_eq c0 c)) cells = true).
    { clear -Eall. induction cells as [| c cells IH]; simpl in *; [discriminate |].
      destruct (py_eq c0 c); simpl in *; auto. }
    apply existsb_exists in Hex. destruct Hex as (c & Hc & Hne).
    exists c. split; [exact Hc |]. now destruct (py_eq c0 c).
Qed.

(** Each subset handed to a recursive call has fewer rows than the table
    it was taken from. *)
Lemma recursive_call_on_fewer_rows (data : table) (a : Z)
    (decision_entropy best : float) (cells : list value) (v : value) :
  (len data < 2 ^ 53)%Z ->
  calculate_gain_ratio data a decision_entropy = Ok best ->
  (best =? 0)%float = false ->
  py_map (fun r : row => py_getitem r a) data = Ok cells ->
  length (select_rows data cells v) < length data.
Proof.
  intros Hlen Hgr Hbest Hcells.
  pose proof (py_map_length _ _ Hcells) as Hlength.
  destruct cells as [| c0 cells].
  { exfalso. destruct data as [| r data]; [| discriminate].
    unfold calculate_gain_ratio, calculate_gain, calculate_attribute_info,
      calculate_split_info in Hgr.
    simpl in Hgr. injection Hgr as <-. discriminate. }
  destruct (@nonzero_gain_ratio_two_values data a decision_entropy best c0 cells
              Hlen Hgr Hbest Hcells) as (c & Hc & Hne).
  destruct (py_eq c0 v) eqn:E0.
  - apply select_rows_shorter with (c := c); auto; [now right |].
    destruct (py_eq c v) eqn:Ecv; [| reflexivity].
    rewrite (py_eq_trans c0 v c) in Hne; auto. now rewrite py_eq_sym.
  - apply select_rows_shorter with (c := c0); auto. now left.
Qed.

Lemma select_attribute_some (data : table) (de : float) (k : Z) (a : Z) (best : float) :
  select_attribute data de k = Ok (Some a, best) ->
  calculate_gain_ratio data a de = Ok best.
Proof.
  intros Hsel. pose proof (select_attribute_spec data de k) as Hspec.
  rewrite Hsel in Hspec. destruct Hspec as [_ Hbest]. simpl in Hbest.
  destruct Hbest as (i & -> & _ & Hgr & _). exact Hgr.
Qed.

(** With more fuel than rows the recursion does not run out of fuel. *)
Lemma build_tree_fuel_enough (fuel : nat) :
  forall data, length data < fuel -> (len data < 2 ^ 53)%Z ->
    exists r, build_tree_fuel fuel data = Some r.
Proof.
  induction fuel as [| fuel IH]; intros data Hfuel Hlen; [lia |].
  destruct data as [| row0 rest]; [now eexists |].
  cbn [build_tree_fuel].
  destruct (py_map (fun r : list value => py_getitem r (-1)) (row0 :: rest))
    as [ds |]; cbn [lift cbind]; [| now eexists].
  destruct (len (py_set ds) =? 1)%Z.
  { destruct (py_getitem ds 0); cbn [lift cbind]; now eexists. }
  destruct (calculate_entropy (count_values ds)) as [de |]; cbn [lift cbind]; [| now eexists].
  destruct (select_attribute (row0 :: rest) de (len row0 - 1))
    as [[best_attribute best] |] eqn:Esel; cbn [lift cbind]; [| now eexists].
  destruct (best =? 0)%float eqn:Ebest.
  { destruct (py_max_key (count_values ds)); cbn [lift cbind]; now eexists. }
  destruct best_attribute as [a |]; [| now eexists].
  destruct (py_map (fun r : list value => py_getitem_opt r (Some a)) (row0 :: rest))
    as [cells |] eqn:Ecells; cbn [lift cbind]; [| now eexists].
  match goal with
  | |- exists r, cbind (for_comp ?xs ?s0 ?body) ?k = Some r =>
      assert (Hloop : exists r, for_comp xs s0 body = Some r);
        [apply for_comp_some
        | destruct Hloop as [[cs | e] ->]; cbn [lift cbind]; now eexists]
  end.
  intros s v _.
  rewrite (py_filter_cells a v (row0 :: rest) Ecells). cbn [lift cbind].
  destruct (IH (select_rows (row0 :: rest) cells v)) as [[child | e] ->];
    cbn [lift cbind]; try (now eexists).
  - pose proof (@recursive_call_on_fewer_rows (row0 :: rest) a de best cells v
                  Hlen (select_attribute_some _ _ _ Esel) Ebest Ecells).
    lia.
  - pose proof (select_rows_length (row0 :: rest) cells v).
    unfold len in *. lia.
Qed.

End Termination.

(** ** The builder: the claims *)

Section BuilderClaims.

Context {P : Platform}.

(** C2, as the program has it.  For a non-empty table whose rows all have
    a decision cell: if every row has the decision of the first row,
    [build_tree] returns a leaf with that decision; if not, and the scan of
    the attributes ends with a best gain ratio equal to 0, it returns a leaf
    whose label has the largest count in the distribution of the decisions
    (when no decision is NaN: it occurs in the table at least as often as
    any other decision); and if the best gain ratio is not 0, whatever
    [build_tree] returns is an internal node, without a label, on the
    selected attribute, while with no attribute selected it raises
    [TypeError].  So a leaf is returned exactly in the first two cases. *)
Theorem stopping_policy (fuel : nat) (row0 : row) (rest : table)
    (d0 : value) (ds : list value) :
  decisions_of (row0 :: rest) = Ok (d0 :: ds) ->
  exists de,
    calculate_entropy (count_values (d0 :: ds)) = Ok de
    /\ (same_decision d0 ds ->
        build_tree_fuel (S fuel) (row0 :: rest) = Some (Ok (Some (leaf d0))))
    /\ (~ same_decision d0 ds ->
        match select_attribute (row0 :: rest) de (len row0 - 1) with
        | Raise e => build_tree_fuel (S fuel) (row0 :: rest) = Some (Raise e)
        | Ok (best_attribute, best_gain_ratio) =>
            if (best_gain_ratio =? 0)%float then
              exists m,
                build_tree_fuel (S fuel) (row0 :: rest) = Some (Ok (Some (leaf m)))
                /\ majority (count_values (d0 :: ds)) m
                /\ (no_nan (d0 :: ds) ->
                    In m (d0 :: ds)
                    /\ forall d, In d (d0 :: ds) ->
                         (occurrences d (d0 :: ds) <= occurrences m (d0 :: ds))%Z)
            else
              (best_attribute = None ->
               build_tree_fuel (S fuel) (row0 :: rest) = Some (Raise TypeError))
              /\ forall t, build_tree_fuel (S fuel) (row0 :: rest) = Some (Ok t) ->
                   exists a cs, best_attribute = Some a
                     /\ t = Some (TreeNode_init (Some a) cs None)
                     /\ label (TreeNode_init (Some a) cs None) = None
        end).
Proof.
  intros Hdec.
  destruct (build_tree_fuel_cases fuel row0 rest Hdec) as (de & Hde & HA & HB).
  exists de. split; [exact Hde |]. split; [exact HA |].
  intros Hdiff. specialize (HB Hdiff).
  destruct (select_attribute (row0 :: rest) de (len row0 - 1))
    as [[best_attribute best] |]; [| exact HB].
  destruct (best =? 0)%float.
  - destruct HB as (m & Hmaj & Hbuild). exists m.
    split; [exact Hbuild |]. split; [exact Hmaj |].
    intros Hnan. now apply majority_occurrences.
  - split; [exact (proj1 HB) |].
    intros t Ht. destruct (proj2 HB t Ht) as (a & cs & Ha & Ht').
    exists a, cs. repeat split; assumption.
Qed.

End BuilderClaims.

Lemma stopping_policy_witness :
  decisions_of scenario_1 = Ok [VStr "A"; VStr "A"; VStr "B"; VStr "B"]
  /\ exists de,
    @calculate_entropy ref_platform
      (count_values [VStr "A"; VStr "A"; VStr "B"; VStr "B"]) = Ok de
    /\ (same_decision (VStr "A") [VStr "A"; VStr "B"; VStr "B"] ->
        @build_tree_fuel ref_platform 5 scenario_1 = Some (Ok (Some (leaf (VStr "A")))))
    /\ (~ same_decision (VStr "A") [VStr "A"; VStr "B"; VStr "B"] ->
        match @select_attribute ref_platform scenario_1 de
                (len [VInt 1; VInt 1; VStr "A"] - 1) with
        | Raise e => @build_tree_fuel ref_platform 5 scenario_1 = Some (Raise e)
        | Ok (best_attribute, best_gain_ratio) =>
            if (best_gain_ratio =? 0)%float then
              exists m,
                @build_tree_fuel ref_platform 5 scenario_1 = Some (Ok (Some (leaf m)))
                /\ majority (count_values [VStr "A"; VStr "A"; VStr "B"; VStr "B"]) m
                /\ (no_nan [VStr "A"; VStr "A"; VStr "B"; VStr "B"] ->
                    In m [VStr "A"; VStr "A"; VStr "B"; VStr "B"]
                    /\ forall d, In d [VStr "A"; VStr "A"; VStr "B"; VStr "B"] ->
                         (occurrences d [VStr "A"; VStr "A"; VStr "B"; VStr "B"]
                          <= occurrences m [VStr "A"; VStr "A"; VStr "B"; VStr "B"])%Z)
            else
              (best_attribute = None ->
               @build_tree_fuel ref_platform 5 scenario_1 = Some (Raise TypeError))
              /\ forall t, @build_tree_fuel ref_platform 5 scenario_1 = Some (Ok t) ->
                   exists a cs, best_attribute = Some a
                     /\ t = Some (TreeNode_init (Some a) cs None)
                     /\ label (TreeNode_init (Some a) cs None) = None
        end).
Proof.
  split; [reflexivity |].
  exact (@stopping_policy ref_platform 4 [VInt 1; VInt 1; VStr "A"]
           [[VInt 1; VInt 2; VStr "A"]; [VInt 2; VInt 1; VStr "B"];
            [VInt 2; VInt 2; VStr "B"]]
           (VStr "A") [VStr "A"; VStr "B"; VStr "B"] eq_refl).
Defined.

(** ** Fuel *)

Lemma for_comp_mono {S X : Type} (body body' : S -> X -> comp S) (xs : list X) :
  (forall s x r, body s x = Some r -> body' s x = Some r) ->
  forall s r, for_comp xs s body = Some r -> for_comp xs s body' = Some r.
Proof.
  intros Hmono. induction xs as [| x xs IH]; intros s r; simpl; [auto |].
  destruct (body s x) as [[s' | e] |] eqn:E; simpl; try discriminate.
  - rewrite (Hmono _ _ _ E). simpl. apply IH.
  - rewrite (Hmono _ _ _ E). simpl. auto.
Qed.

Section Fuel.

Context {P : Platform}.

(** Once the recursion has an outcome, more fuel gives the same outcome. *)
Lemma build_tree_fuel_mono (fuel : nat) :
  forall data r, build_tree_fuel fuel data = Some r ->
  forall fuel', fuel <= fuel' -> build_tree_fuel fuel' data = Some r.
Proof.
  induction fuel as [| fuel IH]; intros data r Hr fuel' Hle; [discriminate |].
  destruct fuel' as [| fuel']; [lia |].
  destruct data as [| row0 rest]; [exact Hr |].
  cbn [build_tree_fuel] in *.
  destruct (py_map (fun r : list value => py_getitem r (-1)) (row0 :: rest))
    as [ds |]; cbn [lift cbind] in *; [| exact Hr].
  destruct (len (py_set ds) =? 1)%Z; [exact Hr |].
  destruct (calculate_entropy (count_values ds)) as [de |];
    cbn [lift cbind] in *; [| exact Hr].
  destruct (select_attribute (row0 :: rest) de (len row0 - 1))
    as [[best_attribute best] |]; cbn [lift cbind] in *; [| exact Hr].
  destruct (best =? 0)%float; [exact Hr |].
  destruct (py_map _ (row0 :: rest)) as [cells |];
    cbn [lift cbind] in *; [| exact Hr].
  match type of Hr with
  | cbind (for_comp ?xs ?s0 ?body) ?k = Some r =>
      destruct (for_comp xs s0 body) as [loop |] eqn:Eloop; [| discriminate]
  end.
  erewrite for_comp_mono; [exact Hr | | exact Eloop].
  intros s v r0. cbv beta.
  destruct (py_filter _ (row0 :: rest)) as [subset |]; cbn [lift cbind]; [| auto].
  destruct (build_tree_fuel fuel subset) as [child |] eqn:Echild; [| discriminate].
  rewrite (IH _ _ Echild fuel') by lia. auto.
Qed.

End Fuel.

Section TerminationClaim.

Context {P : Platform}.

(** C9.  On a platform whose [log2(1.0)] is 0, [build_tree] has an outcome
    on every table (of fewer than [2^53] rows): one unit of fuel per row
    and one more suffice, and any larger amount gives the same outcome.
    The reason: an attribute whose gain ratio is not 0 has two different
    cells in its column, so the rows selected for any value are fewer than
    the rows of the table. *)
Theorem build_tree_terminates (data : table) :
  PlatformOk P -> (len data < 2 ^ 53)%Z ->
  (exists r, build_tree data = Some r
             /\ forall fuel, length data < fuel -> build_tree_fuel fuel data = Some r)
  /\ (forall a decision_entropy best c0 cells,
        calculate_gain_ratio data a decision_entropy = Ok best ->
        (best =? 0)%float = false ->
        py_map (fun r : row => py_getitem r a) data = Ok (c0 :: cells) ->
        exists c, In c cells /\ py_eq c0 c = false)
  /\ (forall a decision_entropy best cells v,
        calculate_gain_ratio data a decision_entropy = Ok best ->
        (best =? 0)%float = false ->
        py_map (fun r : row => py_getitem r a) data = Ok cells ->
        length (select_rows data cells v) < length data).
Proof.
  intros HP Hlen. split; [| split].
  - destruct (@build_tree_fuel_enough P HP (S (length data)) data) as [r Hr];
      [lia | exact Hlen |].
    exists r. split; [exact Hr |].
    intros fuel Hfuel. eapply build_tree_fuel_mono; [exact Hr | lia].
  - intros a de best c0 cells. now apply nonzero_gain_ratio_two_values.
  - intros a de best cells v. now apply recursive_call_on_fewer_rows.
Qed.

End TerminationClaim.

Lemma build_tree_terminates_witness :
  PlatformOk ref_platform /\ (len scenario_1 < 2 ^ 53)%Z
  /\ (exists r, @build_tree ref_platform scenario_1 = Some r
                /\ forall fuel, length scenario_1 < fuel ->
                     @build_tree_fuel ref_platform fuel scenario_1 = Some r)
  /\ (forall a decision_entropy best c0 cells,
        @calculate_gain_ratio ref_platform scenario_1 a decision_entropy = Ok best ->
        (best =? 0)%float = false ->
        py_map (fun r : row => py_getitem r a) scenario_1 = Ok (c0 :: cells) ->
        exists c, In c cells /\ py_eq c0 c = false)
  /\ (forall a decision_entropy best cells v,
        @calculate_gain_ratio ref_platform scenario_1 a decision_entropy = Ok best ->
        (best =? 0)%float = false ->
        py_map (fun r : row => py_getitem r a) scenario_1 = Ok cells ->
        length (select_rows scenario_1 cells v) < length scenario_1).
Proof.
  assert (Hlen : (len scenario_1 < 2 ^ 53)%Z) by reflexivity.
  split; [exact ref_platform_ok |]. split; [exact Hlen |].
  exact (@build_tree_terminates ref_platform scenario_1 ref_platform_ok Hlen).
Defined.

(** ** Failure modes *)

Lemma for_comp_outcome {S X : Type} (Q : X -> Prop) (body : S -> X -> comp S)
    (xs : list X) :
  (forall s x, In x xs ->
     (body s x = Some (Raise TypeError) /\ Q x)
     \/ exists s', body s x = Some (Ok s')) ->
  forall s, (for_comp xs s body = Some (Raise TypeError) /\ exists x, In x xs /\ Q x)
            \/ exists s', for_comp xs s body = Some (Ok s').
Proof.
  induction xs as [| x xs IH]; intros Hbody s; simpl; [eauto |].
  destruct (Hbody s x (or_introl eq_refl)) as [[-> HQ] | [s' ->]]; simpl.
  - left. split; [reflexivity |]. exists x. auto.
  - destruct (IH (fun s0 x0 Hin => Hbody s0 x0 (or_intror Hin)) s')
      as [[-> (x0 & Hin & HQ)] | [s'' ->]].
    + left. split; [reflexivity |]. exists x0. auto.
    + right. now exists s''.
Qed.

Lemma rectangular_incl (width : nat) (data subset : table) :
  rectangular width data -> incl subset data -> rectangular width subset.
Proof.
  unfold rectangular. rewrite !Forall_forall. auto.
Qed.

Section FailureModes.

Context {P : Platform}.

Lemma calculate_gain_ratio_ok (data : table) (i : Z) (decision_entropy : float) :
  readable i data -> exists g, calculate_gain_ratio data i decision_entropy = Ok g.
Proof.
  intros Hread.
  destruct (calculate_attribute_info_ok Hread) as [info Hinfo].
  destruct (calculate_split_info_ok Hread) as [s Hs].
  unfold calculate_gain_ratio, calculate_gain. rewrite Hinfo, Hs. simpl.
  unfold float_truediv. destruct (s =? 0)%float; eauto.
Qed.

Lemma select_attribute_ok (data : table) (decision_entropy : float) (k : Z) :
  (forall j, j < Z.to_nat k -> readable (Z.of_nat j) data) ->
  exists st, select_attribute data decision_entropy k = Ok st.
Proof.
  intros Hread. pose proof (select_attribute_spec data decision_entropy k) as Hspec.
  destruct (select_attribute data decision_entropy k) as [st | e]; [eauto |].
  exfalso. destruct Hspec as (j & Hj & Hraise & _).
  destruct (@calculate_gain_ratio_ok data (Z.of_nat j) decision_entropy (Hread j Hj))
    as [g Hg].
  unfold gain_ratio_at in Hraise. congruence.
Qed.

Lemma build_tree_fuel_outcome (HP : PlatformOk P) (width : nat) (fuel : nat) :
  2 <= width ->
  forall data, rectangular width data -> length data < fuel ->
    (len data < 2 ^ 53)%Z ->
    (build_tree_fuel fuel data = Some (Raise TypeError) /\ unselected data)
    \/ exists t, build_tree_fuel fuel data = Some (Ok t)
                 /\ (data <> [] -> exists node, t = Some node).
Proof.
  intros Hwidth.
  induction fuel as [| fuel IH]; intros data Hrect Hfuel Hlen; [lia |].
  destruct data as [| row0 rest].
  { right. exists None. split; [reflexivity | easy]. }
  assert (Hrow0 : length row0 = width) by (now inversion Hrect).
  assert (Hread : forall i, (0 <= i < Z.of_nat width)%Z -> readable i (row0 :: rest))
    by (intros; eapply rectangular_readable; eauto).
  destruct (@readable_decisions 0 (row0 :: rest) (row0 :: rest)) as [ds Hds];
    [apply Hread; lia | apply incl_refl |].
  pose proof (py_map_length _ _ Hds) as Hdslen.
  destruct ds as [| d0 ds]; [discriminate |].
  destruct (@build_tree_fuel_cases P fuel row0 rest d0 ds Hds) as (de & Hde & HA & HB).
  destruct (len (py_set (d0 :: ds)) =? 1)%Z eqn:Epure.
  { right. eexists. split; [apply HA; now apply pure_test |]. eauto. }
  assert (Hdiff : ~ same_decision d0 ds).
  { intros Hsame. apply pure_test in Hsame. congruence. }
  specialize (HB Hdiff).
  assert (Hk : Z.to_nat (len row0 - 1) = width - 1) by (unfold len; lia).
  destruct (@select_attribute_ok (row0 :: rest) de (len row0 - 1))
    as [[best_attribute best] Hsel].
  { intros j Hj. apply Hread. lia. }
  pose proof (select_attribute_spec (row0 :: rest) de (len row0 - 1)) as Hspec.
  rewrite Hsel in HB, Hspec.
  destruct (best =? 0)%float eqn:Ebest.
  { destruct HB as (m & _ & Hbuild). right. eexists. split; [exact Hbuild | eauto]. }
  destruct best_attribute as [a |].
  2:{ left. split; [now apply (proj1 HB) |].
      eapply unselected_here; eauto. }
  clear HB. cbn [build_tree_fuel].
  unfold decisions_of in Hds. rewrite Hds. cbn [lift cbind].
  rewrite Epure, Hde. cbn [lift cbind]. rewrite Hsel. cbn [lift cbind].
  rewrite Ebest.
  destruct Hspec as [_ Hbest]. simpl in Hbest.
  destruct Hbest as (i & Ha & Hi & Hgr & _). subst a. rewrite Hk in Hi.
  destruct (@readable_cells (Z.of_nat i) (row0 :: rest)) as [cells Hcells];
    [apply Hread; lia |].
  change (py_map (fun r : list value => py_getitem_opt r (Some (Z.of_nat i)))
            (row0 :: rest))
    with (py_map (fun r : list value => py_getitem r (Z.of_nat i)) (row0 :: rest)).
  rewrite Hcells. cbn [lift cbind].
  match goal with
  | |- (cbind (for_comp ?xs ?s0 ?body) ?k = _ /\ _) \/ _ =>
      destruct (@for_comp_outcome _ _
                  (fun v => unselected (select_rows (row0 :: rest) cells v))
                  body xs) with (s := s0)
        as [[-> (v & _ & Hv)] | [cs ->]]
  end.
  - intros s v _.
    rewrite (@py_filter_cells (Z.of_nat i) v (row0 :: rest) cells Hcells).
    cbn [lift cbind].
    destruct (IH (select_rows (row0 :: rest) cells v))
      as [[-> Hun] | (child & -> & _)].
    + eapply rectangular_incl; [exact Hrect | apply select_rows_incl].
    + pose proof (@recursive_call_on_fewer_rows P HP (row0 :: rest) (Z.of_nat i)
                    de best cells v Hlen Hgr Ebest Hcells).
      lia.
    + pose proof (select_rows_length (row0 :: rest) cells v).
      unfold len in *. lia.
    + left. split; [reflexivity | exact Hun].
    + right. now eexists.
  - left. split; [reflexivity |].
    eapply unselected_below; eauto.
  - right. eexists. split; [reflexivity | eauto].
Qed.

End FailureModes.

Section FailureClaim.

Context {P : Platform}.

(** C8, as the program has it.  On a non-empty rectangular table with at
    least one condition attribute (rows of two cells or more; fewer than
    [2^53] rows; [log2(1.0)] being 0), [build_tree] terminates and raises
    no index, division or domain error: it returns a tree node, or it
    stops at the lookup [row[best_attribute]] with [best_attribute] still
    [None], and then the scan selected nothing on the table or on one of
    the subsets visited below it: no gain ratio there exceeded the initial
    -1.0. *)
Theorem build_tree_failure_modes (width : nat) (data : table) :
  PlatformOk P -> rectangular width data -> 2 <= width -> data <> [] ->
  (len data < 2 ^ 53)%Z ->
  exists r, build_tree data = Some r
            /\ ((r = Raise TypeError /\ unselected data)
                \/ exists node, r = Ok (Some node)).
Proof.
  intros HP Hrect Hwidth Hne Hlen. unfold build_tree.
  destruct (@build_tree_fuel_outcome P HP width (S (length data)) Hwidth data
              Hrect ltac:(lia) Hlen) as [[-> Hun] | (t & -> & Ht)].
  - eexists. split; [reflexivity | now left].
  - destruct (Ht Hne) as [node ->]. eexists. split; [reflexivity |].
    right. now exists node.
Qed.

End FailureClaim.

Lemma build_tree_failure_modes_witness :
  PlatformOk ref_platform /\ rectangular 3 scenario_1 /\ 2 <= 3
  /\ scenario_1 <> [] /\ (len scenario_1 < 2 ^ 53)%Z
  /\ exists r, @build_tree ref_platform scenario_1 = Some r
               /\ ((r = Raise TypeError /\ @unselected ref_platform scenario_1)
                   \/ exists node, r = Ok (Some node)).
Proof.
  assert (Hrect : rectangular 3 scenario_1) by (repeat constructor).
  assert (Hwidth : 2 <= 3) by lia.
  assert (Hne : scenario_1 <> []) by discriminate.
  assert (Hlen : (len scenario_1 < 2 ^ 53)%Z) by reflexivity.
  repeat (split; [assumption || exact ref_platform_ok |]).
  exact (@build_tree_failure_modes ref_platform 3 scenario_1 ref_platform_ok
           Hrect Hwidth Hne Hlen).
Defined.

(** C8 as the specification words it does not hold: the table of two rows
    ["A"] and ["B"] is non-empty and rectangular, and [build_tree] raises
    [TypeError] on it (no attribute is selected, and [row[None]] fails). *)
Lemma decisions_only_table_raises :
  rectangular 1 decisions_only
  /\ @build_tree ref_platform decisions_only = Some (Raise TypeError).
Proof. split; [repeat constructor | reflexivity]. Qed.

Section SelectionClaim.

Context {P : Platform}.

(** C1.  The loop over the attribute indices [0 .. k-1] computes the gain
    ratio of each index in ascending order (an exception of one of them
    ends the scan there) and leaves, as [best_attribute], the first index
    whose gain ratio is the highest: no index has a strictly higher gain
    ratio, and no lower index has one as high, so of two indices with equal
    gain ratios the lower is chosen.  Nothing is chosen only if no gain
    ratio exceeds the initial -1.0.  The attribute of an internal node that
    [build_tree] returns is the index this loop leaves, run on the table
    with the entropy of its decisions and [k] the row length minus one. *)
Theorem first_best_attribute_wins (data : table) (decision_entropy : float) (k : Z) :
  match select_attribute data decision_entropy k with
  | Ok (Some a, best) =>
      (forall j, j < Z.to_nat k ->
         exists g, gain_ratio_at data decision_entropy j = Ok g)
      /\ exists i, a = Z.of_nat i
                   /\ first_maximal data decision_entropy (Z.to_nat k) i best
  | Ok (None, best) =>
      (forall j, j < Z.to_nat k ->
         exists g, gain_ratio_at data decision_entropy j = Ok g)
      /\ best = (-1)%float
      /\ forall j g, j < Z.to_nat k ->
           gain_ratio_at data decision_entropy j = Ok g -> (-1 <? g)%float = false
  | Raise e => first_raise data decision_entropy (Z.to_nat k) e
  end
  /\ forall fuel a cs,
       build_tree_fuel (S fuel) data = Some (Ok (Some (TreeNode_init (Some a) cs None))) ->
       exists row0 rest ds de best,
         data = row0 :: rest
         /\ decisions_of data = Ok ds
         /\ calculate_entropy (count_values ds) = Ok de
         /\ select_attribute data de (len row0 - 1) = Ok (Some a, best).
Proof.
  split.
  - pose proof (select_attribute_spec data decision_entropy k) as Hspec.
    destruct (select_attribute data decision_entropy k) as [[[a |] best] | e];
      [| | exact Hspec]; destruct Hspec as [Hall Hbest]; simpl in Hbest.
    + split; [exact Hall | exact Hbest].
    + split; [exact Hall | exact Hbest].
  - intros fuel a cs Hbuild.
    destruct data as [| row0 rest]; [discriminate |].
    exists row0, rest.
    destruct (decisions_of (row0 :: rest)) as [ds |] eqn:Hds.
    2:{ cbn [build_tree_fuel] in Hbuild. unfold decisions_of in Hds.
        rewrite Hds in Hbuild. discriminate. }
    pose proof (py_map_length _ _ Hds) as Hdslen.
    destruct ds as [| d0 ds]; [discriminate |].
    destruct (@build_tree_fuel_cases P fuel row0 rest d0 ds Hds) as (de & Hde & HA & HB).
    exists (d0 :: ds), de.
    destruct (len (py_set (d0 :: ds)) =? 1)%Z eqn:Epure.
    { apply pure_test in Epure. rewrite (HA Epure) in Hbuild. discriminate. }
    assert (Hdiff : ~ same_decision d0 ds).
    { intros Hsame. apply pure_test in Hsame. congruence. }
    specialize (HB Hdiff).
    destruct (select_attribute (row0 :: rest) de (len row0 - 1))
      as [[best_attribute best] |]; [| congruence].
    exists best. repeat split; auto.
    destruct (best =? 0)%float.
    + destruct HB as (m & _ & Hm). rewrite Hm in Hbuild. discriminate.
    + destruct (proj2 HB _ Hbuild) as (a' & cs' & -> & [= -> ->]). reflexivity.
Qed.

End SelectionClaim.

(** Two attributes with the same column have the same gain ratio, and the
    one with the lower index is selected. *)
Example tie_goes_to_lower_index :
  @select_attribute ref_platform
    [[VInt 1; VInt 1; VStr "A"]; [VInt 2; VInt 2; VStr "B"]] 1 2
  = Ok (Some 0%Z, 1%float).
Proof. reflexivity. Qed.

(** C2 as the specification words it does not hold: the rows of
    [votes_only] differ in their decision, the scan of its (zero) attributes
    ends with the best gain ratio at its initial -1.0, which is not 0, and
    yet [build_tree] returns no internal node: it raises [TypeError]. *)
Lemma neither_leaf_nor_internal :
  decisions_of votes_only = Ok [VStr "tak"; VStr "nie"; VStr "nie"]
  /\ (len (py_set [VStr "tak"; VStr "nie"; VStr "nie"]) =? 1)%Z = false
  /\ (exists de,
        @calculate_entropy ref_platform
          (count_values [VStr "tak"; VStr "nie"; VStr "nie"]) = Ok de
        /\ @select_attribute ref_platform votes_only de (len [VStr "tak"] - 1)
           = Ok (None, (-1)%float))
  /\ ((-1) =? 0)%float = false
  /\ @build_tree ref_platform votes_only = Some (Raise TypeError).
Proof.
  split; [reflexivity |]. split; [reflexivity |].
  split; [eexists; split; reflexivity |]. split; reflexivity.
Qed.

(** ** Further properties *)

Lemma count_step_keys (d : dict Z) (v : value) :
  dict_keys (count_step d v) = set_add (dict_keys d) v.
Proof.
  unfold count_step, set_add. generalize (dict_get_default d v 0 + 1)%Z. intros c.
  induction d as [| [k c'] d IH]; simpl; [reflexivity |].
  destruct (py_eq k v); simpl; [reflexivity |].
  rewrite IH. now destruct (existsb _ (dict_keys d)).
Qed.

Lemma fold_count_keys (vs : list value) :
  forall d, dict_keys (fold_left count_step vs d) = fold_left set_add vs (dict_keys d).
Proof.
  induction vs as [| v vs IH]; intros d; simpl; [reflexivity |].
  now rewrite IH, count_step_keys.
Qed.

(** The distribution of a list of values has the elements of the set of the
    values as its keys, no two of them equal; its counts are positive and
    sum to the length of the list. *)
Theorem distribution_keys_and_total (vs : list value) :
  dict_keys (count_values vs) = py_set vs
  /\ distinct_keys (dict_keys (count_values vs))
  /\ positive_counts (count_values vs)
  /\ total_count (count_values vs) = len vs.
Proof.
  assert (Hkeys : dict_keys (count_values vs) = py_set vs)
    by (unfold count_values; now rewrite fold_count_keys).
  split; [exact Hkeys |]. split; [rewrite Hkeys; apply py_set_distinct |].
  split; [apply fold_count_positive; constructor | apply count_values_total].
Qed.

Section FurtherProperties.

Context {P : Platform}.

(** A table of one row is a leaf labelled with the row's decision. *)
Theorem single_row_is_leaf (r : row) (d : value) :
  py_getitem r (-1) = Ok d ->
  build_tree [r] = Some (Ok (Some (leaf d))).
Proof.
  intros Hd. unfold build_tree. cbn [length build_tree_fuel py_map bind].
  rewrite Hd. reflexivity.
Qed.

(** The entropy of the distribution of equal values is [0.0]. *)
Theorem entropy_of_equal_values (v : value) (vs : list value) :
  PlatformOk P -> (len (v :: vs) < 2 ^ 53)%Z -> same_decision v vs ->
  calculate_entropy (count_values (v :: vs)) = Ok 0%float.
Proof.
  intros HP Hlen Hsame. rewrite count_values_constant by exact Hsame.
  apply calculate_entropy_single; [exact HP |].
  split; [unfold len; simpl; lia | exact Hlen].
Qed.

End FurtherProperties.

Lemma single_row_is_leaf_witness :
  py_getitem [VInt 5; VStr "X"] (-1) = Ok (VStr "X")
  /\ @build_tree ref_platform scenario_2 = Some (Ok (Some (leaf (VStr "X")))).
Proof.
  split; [reflexivity |].
  exact (@single_row_is_leaf ref_platform [VInt 5; VStr "X"] (VStr "X") eq_refl).
Defined.

Lemma entropy_of_equal_values_witness :
  PlatformOk ref_platform
  /\ (len [VStr "A"; VStr "A"; VStr "A"] < 2 ^ 53)%Z
  /\ same_decision (VStr "A") [VStr "A"; VStr "A"]
  /\ @calculate_entropy ref_platform (count_values [VStr "A"; VStr "A"; VStr "A"])
     = Ok 0%float.
Proof.
  assert (Hlen : (len [VStr "A"; VStr "A"; VStr "A"] < 2 ^ 53)%Z) by reflexivity.
  assert (Hsame : same_decision (VStr "A") [VStr "A"; VStr "A"]).
  { intros d [<- | [<- | []]]; reflexivity. }
  split; [exact ref_platform_ok |]. split; [exact Hlen |]. split; [exact Hsame |].
  exact (@entropy_of_equal_values ref_platform (VStr "A") [VStr "A"; VStr "A"]
           ref_platform_ok Hlen Hsame).
Defined.

(** Scenario 1 of the specification, run: attribute 0 has split
    information 1.0 and gain ratio 1.0 and is selected, its two values lead
    to the leaves "A" and "B", and the tree is written on three lines. *)
Theorem scenario_1_runs :
  @calculate_split_info ref_platform scenario_1 0 = Ok 1%float
  /\ @calculate_gain_ratio ref_platform scenario_1 0 1 = Ok 1%float
  /\ @build_tree ref_platform scenario_1 =
     Some (Ok (Some (TreeNode_init (Some 0%Z)
                       [(VInt 1, Some (leaf (VStr "A")));
                        (VInt 2, Some (leaf (VStr "B")))] None)))
  /\ @print_tree ref_platform
       (Some (TreeNode_init (Some 0%Z)
                [(VInt 1, Some (leaf (VStr "A")));
                 (VInt 2, Some (leaf (VStr "B")))] None)) 0 ""
     = (["Atrybut: 1"; "          1 -> D: A"; "          2 -> D: B"]%string, None).
Proof. repeat split. Qed.

(** A NaN cell equals no value, not even itself: the rows selected for it
    are none, and its child is [None]. *)
Theorem nan_value_has_no_subtree :
  @build_tree ref_platform nan_table =
  Some (Ok (Some (TreeNode_init (Some 0%Z)
                    [(VFloat nan, None); (VFloat 1, Some (leaf (VStr "B")))] None))).
Proof. reflexivity. Qed.

(** * More of the program *)

(** ** The steps of the builder *)

Lemma dict_set_keys {A : Type} (d : dict A) (v : value) (a : A) :
  dict_keys (dict_set d v a) = set_add (dict_keys d) v.
Proof.
  unfold set_add.
  induction d as [| [k a'] d IH]; simpl; [reflexivity |].
  destruct (py_eq k v); simpl; [reflexivity |].
  rewrite IH. now destruct (existsb _ (dict_keys d)).
Qed.

(** The entries after [d[v] = a]: the old ones, except that the entry of
    the key equal to [v] (or a new last entry) holds [a]. *)
Lemma dict_set_In {A : Type} (d : dict A) (v : value) (a : A) (k : value) (x : A) :
  In (k, x) (dict_set d v a) ->
  In (k, x) d
  \/ (x = a /\ (k = v \/ (py_eq k v = true /\ In k (dict_keys d)))).
Proof.
  induction d as [| [k' a'] d IH]; simpl.
  - intros [[= <- <-] | []]. right. auto.
  - destruct (py_eq k' v) eqn:E; simpl.
    + intros [[= <- <-] | H]; auto 6.
    + intros [H | H]; auto. destruct (IH H) as [? | [? [? | [? ?]]]]; auto 7.
Qed.

Lemma select_rows_py_eq (data : table) (cells : list value) (k v : value) :
  py_eq k v = true -> select_rows data cells v = select_rows data cells k.
Proof.
  intros Hkv. unfold select_rows. f_equal. apply filter_ext. intros [r c]. simpl.
  apply eq_true_iff_eq. split; intros H.
  - eapply py_eq_trans; [exact H |]. now rewrite py_eq_sym.
  - eapply py_eq_trans; eauto.
Qed.

Lemma fold_set_add_incl (vs : list value) :
  forall s, incl (fold_left set_add vs s) (s ++ vs).
Proof.
  induction vs as [| v vs IH]; intros s; simpl.
  - rewrite app_nil_r. apply incl_refl.
  - intros x Hx. apply IH in Hx. unfold set_add in Hx.
    destruct (existsb _ s).
    + apply in_app_or in Hx. apply in_or_app. destruct Hx; [now left | right; now right].
    + rewrite <- app_assoc in Hx. exact Hx.
Qed.

Section BuilderSteps.

Context {P : Platform}.

(** The loop of [build_tree] over the values of the selected attribute. *)
Lemma children_loop (build : table -> comp (option TreeNode)) (data : table)
    (a : Z) (cells : list value) (all : list value) :
  py_map (fun r : row => py_getitem_opt r (Some a)) data = Ok cells ->
  forall values cs0 cs,
    for_comp values cs0 (fun node_children value =>
        subset <~ lift (py_filter (fun r : row =>
                     cell <- py_getitem_opt r (Some a) ;;
                     Ok (py_eq cell value)) data) ;;
        child <~ build subset ;;
        lift (Ok (dict_set node_children value child))) = Some (Ok cs) ->
    incl values all ->
    (forall k child, In (k, child) cs0 ->
       In k all /\ build (select_rows data cells k) = Some (Ok child)) ->
    dict_keys cs = fold_left set_add values (dict_keys cs0)
    /\ forall k child, In (k, child) cs ->
         In k all /\ build (select_rows data cells k) = Some (Ok child).
Proof.
  intros Hcells. induction values as [| v values IH]; intros cs0 cs Hloop Hincl H0.
  - simpl in Hloop. injection Hloop as <-. auto.
  - cbn [for_comp] in Hloop.
    rewrite (py_filter_cells a v data Hcells) in Hloop. cbn [lift cbind] in Hloop.
    destruct (build (select_rows data cells v)) as [[child |] |] eqn:Echild;
      cbn [lift cbind] in Hloop; try discriminate.
    apply IH in Hloop.
    + destruct Hloop as [Hkeys Hin]. split; [| exact Hin].
      rewrite Hkeys, dict_set_keys. reflexivity.
    + intros x Hx. apply Hincl. now right.
    + intros k c Hk. apply dict_set_In in Hk.
      destruct Hk as [Hk | [-> [-> | [Hkv Hk]]]].
      * now apply H0.
      * split; [apply Hincl; now left | exact Echild].
      * split.
        -- unfold dict_keys in Hk. apply in_map_iff in Hk.
           destruct Hk as ([k' c'] & Hfst & Hk). simpl in Hfst. subst k'.
           now apply (H0 k c').
        -- now rewrite <- (@select_rows_py_eq data cells k v Hkv).
Qed.

(** [build_tree] returns [None] on the empty table only, and a node it
    returns comes about in one of the three ways. *)
Lemma build_tree_fuel_inv (fuel : nat) (data : table) (t : option TreeNode) :
  build_tree_fuel (S fuel) data = Some (Ok t) ->
  match data, t with
  | [], None => True
  | row0 :: rest, Some n => build_step (build_tree_fuel fuel) row0 rest n
  | _, _ => False
  end.
Proof.
  destruct data as [| row0 rest].
  { intros [= <-]. exact I. }
  cbn [build_tree_fuel].
  destruct (py_map (fun r : list value => py_getitem r (-1)) (row0 :: rest))
    as [ds |] eqn:Hds; cbn [lift cbind]; [| discriminate].
  destruct (len (py_set ds) =? 1)%Z eqn:Epure.
  { destruct ds as [| d0 ds]; [discriminate |].
    cbn [py_getitem]. intros [= <-].
    apply step_pure with (ds := ds); [exact Hds | now apply pure_test]. }
  destruct (calculate_entropy (count_values ds)) as [de |] eqn:Hde;
    cbn [lift cbind]; [| discriminate].
  destruct (select_attribute (row0 :: rest) de (len row0 - 1))
    as [[best_attribute best] |] eqn:Hsel; cbn [lift cbind]; [| discriminate].
  destruct (best =? 0)%float eqn:Ebest.
  { destruct (py_max_key (count_values ds)) as [m |] eqn:Hm;
      cbn [lift cbind]; [| discriminate].
    intros [= <-]. eapply step_majority; eauto. }
  destruct best_attribute as [a |]; [| discriminate].
  destruct (py_map (fun r : list value => py_getitem_opt r (Some a)) (row0 :: rest))
    as [cells |] eqn:Hcells; cbn [lift cbind]; [| discriminate].
  match goal with
  | |- cbind (for_comp ?xs ?s0 ?body) ?k = _ -> _ =>
      destruct (for_comp xs s0 body) as [[cs |] |] eqn:Hloop
  end; cbn [lift cbind]; try discriminate.
  intros [= <-].
  destruct (@children_loop (build_tree_fuel fuel) (row0 :: rest) a cells
              (set_iter (py_set cells)) Hcells _ _ _ Hloop)
    as [Hkeys Hin]; [apply incl_refl | intros k c [] |].
  eapply step_internal; eauto.
Qed.

End BuilderSteps.

(** ** Invariants of the trees built *)

Lemma depth_internal (a : Z) (cs : dict (option TreeNode)) (l : option value) :
  depth (TreeNode_init (Some a) cs l) = S (deepest_child cs).
Proof.
  cbn [depth]. f_equal. unfold deepest_child.
  induction cs as [| [k c] cs IH]; [reflexivity |]. simpl. now rewrite IH.
Qed.

Lemma deepest_child_le (cs : dict (option TreeNode)) (d : nat) :
  (forall k child, In (k, Some child) cs -> depth child <= d) ->
  deepest_child cs <= d.
Proof.
  unfold deepest_child. induction cs as [| [k c] cs IH]; intros H; simpl; [lia |].
  apply Nat.max_lub.
  - destruct c as [n |]; [| lia]. apply (H k). now left.
  - apply IH. intros k' child Hin. apply (H k'). now right.
Qed.

Section BuilderInduction.

Context {P : Platform}.

Variable R : table -> TreeNode -> Prop.

Hypothesis R_step :
  forall (build : table -> comp (option TreeNode)) row0 rest n,
    (forall subset m, build subset = Some (Ok (Some m)) -> R subset m) ->
    build_step build row0 rest n ->
    R (row0 :: rest) n.

(** A property that every step of [build_tree] passes on from the subtrees
    to the tree holds of every tree that [build_tree] returns. *)
Lemma build_tree_fuel_ind (fuel : nat) :
  forall data n, build_tree_fuel fuel data = Some (Ok (Some n)) -> R data n.
Proof.
  induction fuel as [| fuel IH]; intros data n H; [discriminate |].
  apply build_tree_fuel_inv in H.
  destruct data as [| row0 rest]; [contradiction |].
  eapply R_step; [| exact H]. exact IH.
Qed.

End BuilderInduction.

Lemma decisions_of_In (data : table) (ds : list value) (d : value) :
  decisions_of data = Ok ds -> In d ds ->
  exists r, In r data /\ py_getitem r (-1) = Ok d.
Proof. intros Hds Hd. exact (py_map_In_inv _ _ Hds d Hd). Qed.

Lemma py_max_key_In (counts : dict Z) (m : value) :
  py_max_key counts = Ok m -> In m (dict_keys counts).
Proof.
  destruct counts as [| entry d]; [discriminate |]. simpl. intros [= <-].
  destruct (fold_max_step d entry) as ([<- | Hin] & _); [now left |].
  right. unfold dict_keys. now apply in_map.
Qed.

Lemma occurs_leaf (n : TreeNode) (l : value) : occurs n (leaf l) -> n = leaf l.
Proof.
  unfold leaf. inversion 1 as [| a cs l' k child Hin _]; [reflexivity |].
  subst. destruct Hin.
Qed.

Section BuilderInvariants.

Context {P : Platform}.

(** Every node of a tree that [build_tree] returns is a leaf with a label
    found in the decision cell of some row of the table, or an internal
    node whose attribute is the index of a condition attribute of some
    row. *)
Theorem built_nodes_are_leaves_or_tests (data : table) (t n : TreeNode) :
  build_tree data = Some (Ok (Some t)) ->
  occurs n t ->
  (exists l r, n = leaf l /\ In r data /\ py_getitem r (-1) = Ok l)
  \/ (exists a cs r, n = TreeNode_init (Some a) cs None
                     /\ In r data /\ (0 <= a < len r - 1)%Z).
Proof.
  unfold build_tree. generalize (S (length data)). intros fuel Hbuild.
  revert n.
  apply (@build_tree_fuel_ind P
           (fun data t => forall n, occurs n t ->
              (exists l r, n = leaf l /\ In r data /\ py_getitem r (-1) = Ok l)
              \/ (exists a cs r, n = TreeNode_init (Some a) cs None
                                 /\ In r data /\ (0 <= a < len r - 1)%Z)))
    with (fuel := fuel); [| exact Hbuild].
  clear. intros build row0 rest t IH Hstep n Hn.
  destruct Hstep as [d0 ds Hds Hsame | ds de best ba m Hds _ _ _ _ Hm
                    | ds de best a cells cs Hds _ Hde Hsel Hbest Hcells Hkeys Hcs].
  - apply occurs_leaf in Hn. subst n. left. exists d0.
    destruct (@decisions_of_In (row0 :: rest) (d0 :: ds) d0 Hds (or_introl eq_refl))
      as (r & Hr & Hd).
    exists r. auto.
  - apply occurs_leaf in Hn. subst n. left. exists m.
    apply py_max_key_In in Hm.
    unfold count_values in Hm. rewrite fold_count_keys in Hm.
    apply py_set_incl in Hm.
    destruct (@decisions_of_In (row0 :: rest) ds m Hds Hm) as (r & Hr & Hd).
    exists r. auto.
  - inversion Hn as [| a' cs' l' k child Hin Hocc]; subst.
    + right. exists a, cs, row0. split; [reflexivity |]. split; [now left |].
      pose proof (select_attribute_spec (row0 :: rest) de (len row0 - 1)) as Hspec.
      rewrite Hsel in Hspec. destruct Hspec as [_ (i & -> & Hi & _)].
      simpl in Hi. lia.
    + destruct (Hcs k (Some child) Hin) as [_ Hchild].
      destruct (IH _ _ Hchild n Hocc) as [(l & r & ? & Hr & ?) | (a0 & cs0 & r & ? & Hr & ?)].
      * left. exists l, r. repeat split; auto. eapply select_rows_incl, Hr.
      * right. exists a0, cs0, r. repeat split; auto; try lia.
        eapply select_rows_incl, Hr.
Qed.

End BuilderInvariants.

(** ** The structure of the trees built *)

Lemma select_rows_cell (a : Z) (data : table) :
  forall cells k r,
    py_map (fun r : row => py_getitem r a) data = Ok cells ->
    In r (select_rows data cells k) ->
    exists c, py_getitem r a = Ok c /\ In c cells /\ py_eq c k = true.
Proof.
  unfold select_rows.
  induction data as [| r0 data IH]; simpl; intros cells k r Hcells Hr.
  - injection Hcells as <-. destruct Hr.
  - destruct (py_getitem r0 a) as [c0 |] eqn:E0; [| discriminate]. simpl in Hcells.
    destruct (py_map _ data) as [cs |]; [| discriminate]. simpl in Hcells.
    injection Hcells as <-. simpl in Hr.
    destruct (py_eq c0 k) eqn:Ek.
    + destruct Hr as [<- | Hr].
      * exists c0. split; [exact E0 |]. split; [now left | exact Ek].
      * destruct (IH cs k r eq_refl Hr) as (c & ? & ? & ?).
        exists c. split; [assumption |]. split; [now right | assumption].
    + destruct (IH cs k r eq_refl Hr) as (c & ? & ? & ?).
      exists c. split; [assumption |]. split; [now right | assumption].
Qed.

(** The rows selected for a value are none exactly when no cell of the
    column equals the value. *)
Lemma select_rows_nil (data : table) :
  forall cells k, length cells = length data ->
    (select_rows data cells k = [] <-> forall c, In c cells -> py_eq c k = false).
Proof.
  unfold select_rows.
  induction data as [| r data IH]; intros [| c cells] k Hlen; simpl in *;
    try discriminate.
  - split; [intros _ c [] | reflexivity].
  - destruct (py_eq c k) eqn:E; simpl.
    + split; [discriminate |]. intros H. specialize (H c (or_introl eq_refl)). congruence.
    + rewrite IH by lia. split.
      * intros H c' [<- | Hc']; auto.
      * intros H c' Hc'. apply H. now right.
Qed.

Lemma constant_column_incl (i : Z) (data subset : table) :
  constant_column i data -> incl subset data -> constant_column i subset.
Proof.
  intros H Hincl r r' c c' Hr Hr'. apply H; now apply Hincl.
Qed.

Lemma constant_column_selected (a : Z) (data : table) (cells : list value) (k : value) :
  py_map (fun r : row => py_getitem r a) data = Ok cells ->
  constant_column a (select_rows data cells k).
Proof.
  intros Hcells r r' c c' Hr Hr' Hc Hc'.
  destruct (select_rows_cell a data k r Hcells Hr) as (x & Hx & _ & Hxk).
  destruct (select_rows_cell a data k r' Hcells Hr') as (x' & Hx' & _ & Hxk').
  assert (x = c) by congruence. assert (x' = c') by congruence. subst.
  eapply py_eq_trans; [exact Hxk |]. now rewrite py_eq_sym.
Qed.

Lemma distinct_keys_perm (l l' : list value) :
  Permutation l l' -> distinct_keys l -> distinct_keys l'.
Proof.
  unfold distinct_keys. induction 1 as [| x l l' Hperm IH | x y l | l l' l'' _ IH1 _ IH2];
    intros H; auto.
  - inversion H as [| ? ? Hx Hl]; subst. constructor; [| now apply IH].
    eapply Permutation_Forall; eauto.
  - inversion H as [| ? ? Hy Hl]; subst.
    inversion Hl as [| ? ? Hx Hl']; subst.
    inversion Hy as [| ? ? Hyx Hyl]; subst.
    constructor; [| constructor; assumption].
    constructor; [| assumption]. now rewrite py_eq_sym.
Qed.

(** The set of a list without equal elements is the list. *)
Lemma fold_set_add_distinct (l : list value) :
  forall s, distinct_keys (s ++ l) -> fold_left set_add l s = s ++ l.
Proof.
  induction l as [| v l IH]; intros s H; simpl.
  - now rewrite app_nil_r.
  - assert (Hnew : existsb (fun k => py_eq k v) s = false).
    { clear IH. induction s as [| x s IHs]; [reflexivity |]. simpl in *.
      unfold distinct_keys in H. inversion H as [| ? ? Hx Hs]; subst.
      rewrite IHs by exact Hs. rewrite Forall_forall in Hx.
      rewrite (Hx v); [reflexivity |]. apply in_or_app. right. now left. }
    unfold set_add at 2. rewrite Hnew.
    rewrite IH; rewrite <- app_assoc; [reflexivity | exact H].
Qed.

Lemma py_set_of_distinct (l : list value) : distinct_keys l -> py_set l = l.
Proof. intros H. unfold py_set. now rewrite fold_set_add_distinct. Qed.

Lemma bounded_nodup_length (bound : Z) (used : list Z) :
  NoDup used -> (forall u, In u used -> (0 <= u < bound)%Z) ->
  length used <= Z.to_nat bound.
Proof.
  intros Hnd Hrange.
  assert (H : length used <= length (map Z.of_nat (seq 0 (Z.to_nat bound)))).
  { apply NoDup_incl_length; [exact Hnd |].
    intros u Hu. specialize (Hrange u Hu). apply in_map_iff.
    exists (Z.to_nat u). split; [lia |]. apply in_seq. lia. }
  now rewrite length_map, length_seq in H.
Qed.

Lemma tests_fresh_depth (bound : Z) (used : list Z) (t : TreeNode) :
  tests_fresh bound used t ->
  NoDup used -> (forall u, In u used -> (0 <= u < bound)%Z) ->
  depth t + length used <= Z.to_nat bound.
Proof.
  induction 1 as [used l | used a cs Ha Hnew Hcs IH]; intros Hnd Hrange.
  - simpl. now apply bounded_nodup_length.
  - rewrite depth_internal.
    assert (Hnd' : NoDup (a :: used)) by (now constructor).
    assert (Hrange' : forall u, In u (a :: used) -> (0 <= u < bound)%Z).
    { intros u [<- | Hu]; auto. }
    pose proof (bounded_nodup_length Hnd' Hrange') as Hlen. simpl in Hlen.
    assert (deepest_child cs <= Z.to_nat bound - S (length used)); [| lia].
    apply deepest_child_le. intros k child Hin.
    specialize (IH k child Hin Hnd' Hrange'). simpl in IH. lia.
Qed.

Section BuilderStructure.

Context {P : Platform}.
Hypothesis HP : PlatformOk P.

(** An internal node returned by [build_tree]: its children are the trees
    that [build_tree] returns on the row subsets of the values of the
    selected column. *)
Lemma build_tree_internal_inv (data : table) (a : Z) (cs : dict (option TreeNode))
    (l : option value) :
  (len data < 2 ^ 53)%Z ->
  build_tree data = Some (Ok (Some (TreeNode_init (Some a) cs l))) ->
  exists cells,
    py_map (fun r : row => py_getitem r a) data = Ok cells
    /\ dict_keys cs = py_set (set_iter (py_set cells))
    /\ forall k child, In (k, child) cs ->
         In k (set_iter (py_set cells))
         /\ build_tree (select_rows data cells k) = Some (Ok child)
         /\ (child = None <-> select_rows data cells k = []).
Proof.
  intros Hlen Hbuild. unfold build_tree in Hbuild.
  apply build_tree_fuel_inv in Hbuild.
  destruct data as [| row0 rest]; [contradiction |].
  inversion Hbuild as [| | ds de best a' cells cs' Hds Hpure Hde Hsel Hbest Hcells Hkeys Hcs];
    subst.
  exists cells. split; [exact Hcells |]. split; [exact Hkeys |].
  intros k child Hin. destruct (Hcs k child Hin) as [Hk Hchild].
  split; [exact Hk |].
  pose proof (@recursive_call_on_fewer_rows P HP (row0 :: rest) a de best cells k
                Hlen (select_attribute_some _ _ _ Hsel) Hbest Hcells) as Hshort.
  assert (Hsub : build_tree (select_rows (row0 :: rest) cells k) = Some (Ok child)).
  { unfold build_tree.
    destruct (@build_tree_fuel_enough P HP
                (S (length (select_rows (row0 :: rest) cells k)))
                (select_rows (row0 :: rest) cells k)) as [r Hr]; [lia | |].
    { unfold len in *. lia. }
    rewrite Hr.
    pose proof (@build_tree_fuel_mono P _ _ _ Hr (length (row0 :: rest))
                  ltac:(lia)) as Hmono.
    congruence. }
  split; [exact Hsub |].
  unfold build_tree in Hsub. apply build_tree_fuel_inv in Hsub.
  destruct (select_rows (row0 :: rest) cells k), child; try contradiction;
    split; intros; congruence.
Qed.

(** The children of an internal node are the trees of the row subsets: the
    keys are the values that the set of the column's cells yields, and the
    child under a key is what [build_tree] returns on the rows whose cell
    equals the key, [None] if there is no such row. *)
Theorem children_are_trees_of_subsets (data : table) (a : Z)
    (cs : dict (option TreeNode)) (l : option value) :
  (len data < 2 ^ 53)%Z ->
  build_tree data = Some (Ok (Some (TreeNode_init (Some a) cs l))) ->
  exists cells,
    py_map (fun r : row => py_getitem r a) data = Ok cells
    /\ dict_keys cs = py_set (set_iter (py_set cells))
    /\ forall k child, In (k, child) cs ->
         In k (set_iter (py_set cells))
         /\ build_tree (select_rows data cells k) = Some (Ok child)
         /\ (child = None <-> select_rows data cells k = []).
Proof. apply build_tree_internal_inv. Qed.

(** When the iteration of a set yields its elements once each, an internal
    node has one child per distinct value of the selected column, no two
    keys equal, and the child is [None] exactly under a NaN key. *)
Theorem one_child_per_value (HS : SetIterOk P) (data : table) (a : Z)
    (cs : dict (option TreeNode)) (l : option value) :
  (len data < 2 ^ 53)%Z ->
  build_tree data = Some (Ok (Some (TreeNode_init (Some a) cs l))) ->
  exists cells,
    py_map (fun r : row => py_getitem r a) data = Ok cells
    /\ Permutation (dict_keys cs) (py_set cells)
    /\ distinct_keys (dict_keys cs)
    /\ forall k child, In (k, child) cs ->
         In k cells /\ (child = None <-> py_eq k k = false).
Proof.
  intros Hlen Hbuild.
  destruct (@build_tree_internal_inv data a cs l Hlen Hbuild) as (cells & Hcells & Hkeys & Hcs).
  assert (Hdistinct : distinct_keys (set_iter (py_set cells))).
  { eapply distinct_keys_perm; [| apply py_set_distinct].
    apply Permutation_sym, set_iter_perm. }
  rewrite py_set_of_distinct in Hkeys by exact Hdistinct.
  exists cells. split; [exact Hcells |].
  split; [rewrite Hkeys; apply set_iter_perm |].
  split; [now rewrite Hkeys |].
  intros k child Hin. destruct (Hcs k child Hin) as (Hk & _ & Hnone).
  assert (Hkc : In k cells).
  { apply py_set_incl. eapply Permutation_in; [apply set_iter_perm | exact Hk]. }
  split; [exact Hkc |]. rewrite Hnone.
  rewrite select_rows_nil by (now apply py_map_length in Hcells).
  split.
  - intros H. now apply H.
  - intros Hnan c _. destruct (py_eq c k) eqn:E; [| reflexivity].
    apply py_eq_refl_r in E. congruence.
Qed.

Lemma build_tree_fuel_fresh (width : nat) (fuel : nat) (data : table) (t : TreeNode) :
  build_tree_fuel fuel data = Some (Ok (Some t)) ->
  rectangular width data -> (len data < 2 ^ 53)%Z ->
  forall used, (forall u, In u used -> constant_column u data) ->
    tests_fresh (Z.of_nat width - 1) used t.
Proof.
  apply (@build_tree_fuel_ind P
           (fun data t =>
              rectangular width data -> (len data < 2 ^ 53)%Z ->
              forall used, (forall u, In u used -> constant_column u data) ->
                tests_fresh (Z.of_nat width - 1) used t)).
  clear fuel data t. intros build row0 rest t IH Hstep Hrect Hlen used Hconst.
  destruct Hstep as [d0 ds Hds Hsame | ds de best ba m Hds _ _ _ _ Hm
                    | ds de best a cells cs Hds _ Hde Hsel Hbest Hcells Hkeys Hcs].
  - constructor.
  - constructor.
  - pose proof (select_attribute_some _ _ _ Hsel) as Hgr.
    apply fresh_internal.
    + pose proof (select_attribute_spec (row0 :: rest) de (len row0 - 1)) as Hspec.
      rewrite Hsel in Hspec. destruct Hspec as [_ (i & -> & Hi & _)].
      simpl in Hi. inversion Hrect as [| ? ? Hrow0 _]; subst.
      unfold len in Hi. lia.
    + intros Hin.
      destruct cells as [| c0 cells];
        [apply py_map_length in Hcells; discriminate |].
      destruct (@nonzero_gain_ratio_two_values P HP (row0 :: rest) a de best c0 cells
                  Hlen Hgr Hbest Hcells) as (c & Hc & Hne).
      assert (H0 : py_getitem row0 a = Ok c0 /\
                   py_map (fun r : list value => py_getitem r a) rest = Ok cells).
      { simpl in Hcells. destruct (py_getitem row0 a); [| discriminate].
        simpl in Hcells. destruct (py_map _ rest); [| discriminate].
        simpl in Hcells. injection Hcells as -> ->. auto. }
      destruct H0 as [Hc0 Hrest].
      destruct (py_map_In_inv _ _ Hrest c Hc) as (r & Hr & Hrc).
      rewrite (Hconst a Hin row0 r c0 c) in Hne; auto; [discriminate | now left | now right].
    + intros k child Hin. destruct (Hcs k (Some child) Hin) as [_ Hchild].
      apply (IH _ _ Hchild).
      * eapply rectangular_incl; [exact Hrect | apply select_rows_incl].
      * pose proof (select_rows_length (row0 :: rest) cells k). unfold len in *. lia.
      * intros u [<- | Hu].
        -- now apply constant_column_selected.
        -- eapply constant_column_incl; [now apply Hconst | apply select_rows_incl].
Qed.

(** On a table whose rows all have [width] cells, no attribute is tested
    twice along a path of the tree, every tested attribute is a condition
    attribute, and so no path has more internal nodes than there are
    condition attributes. *)
Theorem no_attribute_tested_twice (width : nat) (data : table) (t : TreeNode) :
  rectangular width data -> (len data < 2 ^ 53)%Z ->
  build_tree data = Some (Ok (Some t)) ->
  tests_fresh (Z.of_nat width - 1) [] t /\ depth t <= width - 1.
Proof.
  intros Hrect Hlen Hbuild.
  assert (Hfresh : tests_fresh (Z.of_nat width - 1) [] t).
  { eapply build_tree_fuel_fresh; eauto. intros u []. }
  split; [exact Hfresh |].
  pose proof (tests_fresh_depth Hfresh (NoDup_nil Z)) as Hd.
  simpl in Hd. specialize (Hd ltac:(intros u [])). lia.
Qed.

End BuilderStructure.

(** ** What the serializer writes, and when it raises *)

Lemma line_count_internal (a : option Z) (cs : dict (option TreeNode)) :
  line_count (TreeNode_init a cs None) = S (list_sum (map child_line_count cs)).
Proof.
  cbn [line_count]. f_equal.
  induction cs as [| [k c] cs IH]; [reflexivity |].
  simpl. rewrite IH. reflexivity.
Qed.

Lemma list_sum_perm (l l' : list nat) : Permutation l l' -> list_sum l = list_sum l'.
Proof. induction 1; simpl; lia. Qed.

(** A sequence of prints raises nothing exactly when none of them does,
    and then the lines written are those of all of them. *)
Lemma fold_then_print_ok (outs : list printed) :
  forall p,
    (snd (fold_left then_print outs p) = None
     <-> snd p = None /\ Forall (fun q => snd q = None) outs)
    /\ (snd (fold_left then_print outs p) = None ->
        length (fst (fold_left then_print outs p)) =
        length (fst p) + list_sum (map (fun q => length (fst q)) outs)).
Proof.
  induction outs as [| q outs IH]; intros p; simpl.
  - split; [| lia]. split; [auto | tauto].
  - destruct (IH (then_print p q)) as [Hiff Hlen]. split.
    + rewrite Hiff. unfold then_print. destruct (snd p) eqn:Ep; simpl.
      * rewrite Ep. split; [intros [? _]; discriminate | intros [? _]; discriminate].
      * split; [intros [? ?]; auto | intros [_ H]; inversion H; auto].
    + intros Hok. rewrite Hlen by exact Hok.
      apply Hiff in Hok. destruct Hok as [Hok _].
      unfold then_print in *. destruct (snd p) eqn:Ep; simpl in *; [congruence |].
      rewrite length_app. lia.
Qed.

Lemma fold_then_print_exn (outs : list printed) :
  forall p,
    (snd p = None \/ snd p = Some TypeError) ->
    Forall (fun q => snd q = None \/ snd q = Some TypeError) outs ->
    snd (fold_left then_print outs p) = None
    \/ snd (fold_left then_print outs p) = Some TypeError.
Proof.
  induction outs as [| q outs IH]; intros p Hp Hq; simpl; [exact Hp |].
  inversion Hq as [| ? ? Hq0 Hqs]; subst. apply IH; [| exact Hqs].
  unfold then_print. destruct (snd p) eqn:Ep; simpl; [now rewrite Ep | exact Hq0].
Qed.

Section SerializerOutcome.

Context {P : Platform}.

Lemma print_node_outcome (n : TreeNode) :
  forall indent_level value_prefix,
    (snd (print_node n indent_level value_prefix) = None <-> printable n)
    /\ (snd (print_node n indent_level value_prefix) = None
        \/ snd (print_node n indent_level value_prefix) = Some TypeError)
    /\ (printable n ->
        length (fst (print_node n indent_level value_prefix)) = line_count n).
Proof.
  induction n as [a cs l IH] using TreeNode_ind. intros indent_level value_prefix.
  destruct l as [l |].
  { cbn [print_node]. simpl. repeat split; auto. constructor. }
  destruct a as [a |].
  2:{ cbn [print_node]. simpl. split; [| split].
      - split; [discriminate | inversion 1].
      - now right.
      - inversion 1. }
  change (print_node (TreeNode_init (Some a) cs None) indent_level value_prefix)
    with (print_tree (Some (TreeNode_init (Some a) cs None)) indent_level value_prefix).
  rewrite print_tree_internal.
  set (outs := map (print_child indent_level) (py_sorted child_key cs)).
  set (header := print_line (header_line a indent_level value_prefix)).
  destruct (fold_then_print_ok outs header) as [Hiff Hlen].
  assert (Hall : Forall (fun q => snd q = None) outs
                 <-> forall k child, In (k, Some child) cs -> printable child).
  { unfold outs. rewrite Forall_map, Forall_forall. split.
    - intros H k child Hin.
      rewrite Forall_forall in IH.
      apply (proj1 (IH (k, Some child) Hin child eq_refl (S indent_level) (py_str k))).
      apply (H (k, Some child)).
      eapply Permutation_in; [apply Permutation_sym, py_sorted_perm | exact Hin].
    - intros H [k child] Hin.
      apply (Permutation_in _ (py_sorted_perm child_key cs)) in Hin.
      destruct child as [child |]; [| reflexivity].
      rewrite Forall_forall in IH.
      apply (proj1 (IH (k, Some child) Hin child eq_refl (S indent_level) (py_str k))).
      now apply (H k). }
  split; [| split].
  - rewrite Hiff, Hall. split.
    + intros [_ H]. now constructor.
    + inversion 1; subst. split; [reflexivity | assumption].
  - apply fold_then_print_exn; [now left |].
    unfold outs. rewrite Forall_map, Forall_forall. intros [k child] Hin.
    apply (Permutation_in _ (py_sorted_perm child_key cs)) in Hin.
    destruct child as [child |]; [| now left].
    rewrite Forall_forall in IH.
    apply (IH (k, Some child) Hin child eq_refl (S indent_level) (py_str k)).
  - intros Hpr. inversion Hpr as [| ? ? Hcs]; subst.
    rewrite Hlen by (apply Hiff; split; [reflexivity | now apply Hall]).
    rewrite line_count_internal. simpl. f_equal.
    unfold outs. rewrite map_map.
    rewrite (list_sum_perm (Permutation_map _ (py_sorted_perm child_key cs))).
    f_equal. apply map_ext_in. intros [k child] Hin.
    destruct child as [child |]; [| reflexivity].
    rewrite Forall_forall in IH.
    apply (IH (k, Some child) Hin child eq_refl (S indent_level) (py_str k)).
    now apply (Hcs k).
Qed.

(** [print_tree] on a tree whose numbers [str] converts raises exactly
    when it reaches a node that has neither a label nor an attribute, and
    then [TypeError] (from [None + 1]); otherwise it writes one line for
    every node and every missing child. *)
Theorem print_tree_raises_iff (n : TreeNode) (indent_level : nat)
    (value_prefix : string) :
  strs_ok n ->
  (snd (print_tree (Some n) indent_level value_prefix) = None <-> printable n)
  /\ (snd (print_tree (Some n) indent_level value_prefix) = None
      \/ snd (print_tree (Some n) indent_level value_prefix) = Some TypeError)
  /\ (printable n ->
      length (fst (print_tree (Some n) indent_level value_prefix)) = line_count n).
Proof. intros _. apply print_node_outcome. Qed.

Lemma build_tree_fuel_printable (fuel : nat) (data : table) (t : TreeNode) :
  build_tree_fuel fuel data = Some (Ok (Some t)) -> printable t.
Proof.
  apply (@build_tree_fuel_ind P (fun _ t => printable t)).
  clear. intros build row0 rest t IH Hstep.
  destruct Hstep as [| | ds de best a cells cs _ _ _ _ _ _ _ Hcs].
  - constructor.
  - constructor.
  - constructor. intros k child Hin.
    destruct (Hcs k (Some child) Hin) as [_ Hchild]. exact (IH _ _ Hchild).
Qed.

(** Whatever [build_tree] returns, [print_tree] writes without raising:
    the one line of the missing tree for [None], and one line for every
    node and every missing child of a tree. *)
Theorem built_tree_is_printed (data : table) (t : option TreeNode) :
  build_tree data = Some (Ok t) ->
  snd (print_tree t 0 "") = None
  /\ length (fst (print_tree t 0 "")) =
     match t with
     | None => 1
     | Some n => line_count n
     end.
Proof.
  intros Hbuild. destruct t as [n |]; [| split; reflexivity].
  apply build_tree_fuel_printable in Hbuild.
  destruct (print_node_outcome n 0 "") as (Hiff & _ & Hlen).
  split; [now apply Hiff | now apply Hlen].
Qed.

End SerializerOutcome.

(** ** The order of the children does not reach the output *)

Lemma str_le_antisym (a b : string) : str_le a b -> str_le b a -> a = b.
Proof.
  unfold str_le, String.ltb. intros Hab Hba.
  rewrite String.compare_antisym in Hab.
  destruct (String.compare a b) eqn:E; simpl in *; try discriminate.
  now apply String.compare_eq_iff.
Qed.

Section SortedUnique.

Context {X : Type} (key : X -> string).

(** At most one ascending arrangement when items with the same key are
    the same item. *)
Lemma sorted_unique (l : list X) :
  forall l', StronglySorted (key_le key) l -> StronglySorted (key_le key) l' ->
    Permutation l l' ->
    (forall x y, In x l -> In y l -> key x = key y -> x = y) ->
    l = l'.
Proof.
  induction l as [| x l IH]; intros l' Hs Hs' Hperm Hinj.
  - apply Permutation_nil in Hperm. now subst.
  - destruct l' as [| y l'].
    { apply Permutation_sym, Permutation_nil in Hperm. discriminate. }
    inversion Hs as [| ? ? Hsl Hx]; subst.
    inversion Hs' as [| ? ? Hsl' Hy]; subst.
    rewrite Forall_forall in Hx, Hy.
    assert (Hxin : In x (y :: l')) by (eapply Permutation_in; [exact Hperm | now left]).
    assert (Hyin : In y (x :: l))
      by (eapply Permutation_in; [apply Permutation_sym; exact Hperm | now left]).
    assert (Hxy : x = y).
    { destruct Hxin as [-> | Hxin]; [reflexivity |].
      destruct Hyin as [-> | Hyin]; [reflexivity |].
      apply Hinj; [now left | now right |].
      apply str_le_antisym; [apply (Hx y Hyin) | apply (Hy x Hxin)]. }
    subst y. f_equal. apply IH; auto.
    + eapply Permutation_cons_inv; exact Hperm.
    + intros a b Ha Hb. apply Hinj; now right.
Qed.

Lemma py_sorted_order_irrelevant (l l' : list X) :
  Permutation l l' ->
  (forall x y, In x l -> In y l -> key x = key y -> x = y) ->
  py_sorted key l = py_sorted key l'.
Proof.
  intros Hperm Hinj. apply sorted_unique; try apply py_sorted_sorted.
  - rewrite (py_sorted_perm key l), Hperm. apply Permutation_sym, py_sorted_perm.
  - intros x y Hx Hy. apply Hinj; eapply Permutation_in; eauto using py_sorted_perm.
Qed.

End SortedUnique.

Section ChildrenOrder.

Context {P : Platform}.

(** When the children of a node that have the same string form of the
    branch value are the same entry, the order in which the children were
    inserted does not reach the output. *)
Theorem children_order_is_not_printed (a : option Z) (cs cs' : dict (option TreeNode))
    (l : option value) (indent_level : nat) (value_prefix : string) :
  Permutation cs cs' ->
  (forall x y, In x cs -> In y cs -> child_key x = child_key y -> x = y) ->
  print_tree (Some (TreeNode_init a cs l)) indent_level value_prefix =
  print_tree (Some (TreeNode_init a cs' l)) indent_level value_prefix.
Proof.
  intros Hperm Hinj. destruct l as [l |]; [reflexivity |].
  destruct a as [a |]; [| reflexivity].
  rewrite !print_tree_internal.
  now rewrite (py_sorted_order_irrelevant child_key Hperm Hinj).
Qed.

End ChildrenOrder.

(** ** Sequences: the bounds of an index *)

Lemma py_getitem_bounds {A : Type} (l : list A) (i : Z) :
  match py_getitem l i with
  | Ok _ => (- len l <= i < len l)%Z
  | Raise e => e = IndexError /\ ~ (- len l <= i < len l)%Z
  end.
Proof.
  unfold py_getitem, len.
  destruct (Z.ltb_spec i 0).
  - destruct (Z.ltb_spec (Z.of_nat (length l) + i) 0); [split; [reflexivity | lia] |].
    destruct (nth_error l (Z.to_nat (Z.of_nat (length l) + i))) eqn:E.
    + assert (E' : nth_error l (Z.to_nat (Z.of_nat (length l) + i)) <> None) by congruence.
      apply nth_error_Some in E'. lia.
    + apply nth_error_None in E. split; [reflexivity | lia].
  - destruct (Z.ltb_spec i 0); [lia |].
    destruct (nth_error l (Z.to_nat i)) eqn:E.
    + assert (E' : nth_error l (Z.to_nat i) <> None) by congruence.
      apply nth_error_Some in E'. lia.
    + apply nth_error_None in E. split; [reflexivity | lia].
Qed.

Lemma has_cell_in_bounds (i : Z) (r : row) : has_cell i r <-> in_bounds i r.
Proof.
  unfold has_cell, in_bounds. pose proof (py_getitem_bounds r i) as H.
  destruct (py_getitem r i) as [c | e].
  - split; [auto | eauto].
  - split; [intros [c Hc]; discriminate | intros Hb; now destruct H].
Qed.

Lemma in_bounds_last (i : Z) (r : row) : in_bounds i r -> in_bounds (-1) r.
Proof. unfold in_bounds. lia. Qed.

Lemma py_map_cells_outcome (i : Z) (data : table) :
  match py_map (fun r : row => py_getitem r i) data with
  | Ok _ => Forall (in_bounds i) data
  | Raise e => e = IndexError /\ Exists (fun r => ~ in_bounds i r) data
  end.
Proof.
  induction data as [| r data IH]; simpl; [constructor |].
  pose proof (py_getitem_bounds r i) as Hr.
  destruct (py_getitem r i) as [c | e]; simpl.
  - destruct (py_map _ data) as [cells | e]; simpl.
    + now constructor.
    + destruct IH as [-> IH]. split; [reflexivity | now right].
  - destruct Hr as [-> Hr]. split; [reflexivity | now left].
Qed.

Lemma in_bounds_readable (i : Z) (data : table) :
  Forall (in_bounds i) data -> readable i data.
Proof.
  unfold readable. apply Forall_impl. intros r Hr.
  split; apply has_cell_in_bounds; [exact Hr | eapply in_bounds_last; eauto].
Qed.

(** ** The evaluator: what can go wrong *)

Section EvaluatorOutcome.

Context {P : Platform}.

Lemma reads_column_intro (i : Z) (data : table) (outcome : result float) :
  (readable i data -> exists x, outcome = Ok x) ->
  (forall e, py_map (fun r : row => py_getitem r i) data = Raise e ->
             outcome = Raise e) ->
  reads_column i data outcome.
Proof.
  intros Hok Hraise. pose proof (py_map_cells_outcome i data) as H.
  destruct (py_map _ data) as [cells | e].
  - destruct (Hok (in_bounds_readable H)) as [x ->]. exact H.
  - rewrite (Hraise e eq_refl). exact H.
Qed.

(** The four functions of the attribute evaluator return exactly when the
    attribute index is within the bounds of every row, from either end (a
    negative index counts from the last cell); when it is not, they raise
    [IndexError], and they raise nothing else. *)
Theorem evaluator_raises_iff (data : table) (i : Z) (decision_entropy : float) :
  reads_column i data (calculate_attribute_info data i)
  /\ reads_column i data (calculate_gain data i decision_entropy)
  /\ reads_column i data (calculate_split_info data i)
  /\ reads_column i data (calculate_gain_ratio data i decision_entropy).
Proof.
  assert (Hinfo : forall e, py_map (fun r : row => py_getitem r i) data = Raise e ->
                            calculate_attribute_info data i = Raise e).
  { intros e He. now rewrite calculate_attribute_info_groups, He. }
  split; [| split; [| split]]; apply reads_column_intro.
  - apply calculate_attribute_info_ok.
  - exact Hinfo.
  - intros Hread. unfold calculate_gain.
    destruct (calculate_attribute_info_ok Hread) as [info ->]. simpl. eauto.
  - intros e He. unfold calculate_gain. now rewrite (Hinfo e He).
  - apply calculate_split_info_ok.
  - intros e He. now rewrite calculate_split_info_cells, He.
  - apply calculate_gain_ratio_ok.
  - intros e He. unfold calculate_gain_ratio, calculate_gain.
    now rewrite (Hinfo e He).
Qed.

End EvaluatorOutcome.

(** ** Entropy: what can go wrong *)

Lemma for_loop_app {S X : Type} (body : S -> X -> result S) (xs ys : list X) :
  forall s, for_loop (xs ++ ys) s body = (s' <- for_loop xs s body ;; for_loop ys s' body).
Proof.
  induction xs as [| x xs IH]; intros s; simpl; [reflexivity |].
  destruct (body s x); simpl; auto.
Qed.

(** [0 / y] is not above 0, whatever [y] is. *)
Lemma zero_quotient_not_positive (y : float) : (0 <? 0 / y)%float = false.
Proof.
  rewrite FloatAxioms.ltb_spec, FloatAxioms.div_spec.
  change (Prim2SF 0) with (S754_zero false).
  destruct (Prim2SF y) as [s | s | | s m e]; reflexivity.
Qed.

Lemma total_count_app (d d' : dict Z) :
  total_count (d ++ d') = (total_count d + total_count d')%Z.
Proof.
  unfold total_count, dict_values. rewrite map_app, fold_left_app.
  rewrite fold_add_acc. reflexivity.
Qed.

Section EntropyOutcome.

Context {P : Platform}.

(** On counts that a [float] holds exactly, [calculate_entropy] raises
    exactly on a distribution that has keys and whose counts sum to 0, and
    then [ZeroDivisionError]; the logarithm is never asked for a number
    outside its domain. *)
Theorem calculate_entropy_raises_iff (counts : dict Z) :
  exact_counts counts ->
  match calculate_entropy counts with
  | Ok _ => counts = [] \/ total_count counts <> 0%Z
  | Raise e => e = ZeroDivisionError /\ counts <> [] /\ total_count counts = 0%Z
  end.
Proof.
  intros _.
  destruct (Z.eq_dec (total_count counts) 0) as [Hzero | Hpos].
  - destruct counts as [| entry counts]; [now left |].
    rewrite calculate_entropy_zero_total by (auto; discriminate).
    split; [reflexivity |]. split; [discriminate | exact Hzero].
  - destruct (@calculate_entropy_ok P counts Hpos) as [h ->]. now right.
Qed.

(** A key counted zero times adds nothing: the distribution with it has
    the entropy of the distribution without it (the counts being such
    that a [float] holds them exactly). *)
Theorem zero_count_adds_nothing (d d' : dict Z) (k : value) :
  exact_counts (d ++ d') -> d ++ d' <> [] ->
  calculate_entropy (d ++ (k, 0%Z) :: d') = calculate_entropy (d ++ d').
Proof.
  intros _ Hne.
  assert (Htotal : total_count (d ++ (k, 0%Z) :: d') = total_count (d ++ d')).
  { rewrite !total_count_app, total_count_cons. lia. }
  destruct (Z.eq_dec (total_count (d ++ d')) 0) as [Hzero | Hpos].
  - rewrite (@calculate_entropy_zero_total P (d ++ d') Hne Hzero).
    apply calculate_entropy_zero_total; [now destruct d | congruence].
  - unfold calculate_entropy. fold (total_count (d ++ (k, 0%Z) :: d')).
    fold (total_count (d ++ d')). rewrite Htotal.
    unfold dict_values. rewrite !map_app, !for_loop_app. cbn [map snd for_loop].
    destruct (for_loop (map snd d) _ _) as [entropy |]; simpl; [| reflexivity].
    unfold int_truediv. destruct (Z.eqb_spec (total_count (d ++ d')) 0); [easy |].
    simpl. change (float_of_Z 0) with 0%float.
    now rewrite zero_quotient_not_positive.
Qed.

End EntropyOutcome.

(** ** The majority vote *)

Lemma fold_max_step_first (d : dict Z) :
  forall before best mid,
    (forall e, In e before -> (snd e < snd best)%Z) ->
    (forall e, In e mid -> (snd e <= snd best)%Z) ->
    exists before' after',
      before ++ best :: mid ++ d = before' ++ fold_left max_step d best :: after'
      /\ (forall e, In e before' -> (snd e < snd (fold_left max_step d best))%Z)
      /\ (forall e, In e after' -> (snd e <= snd (fold_left max_step d best))%Z).
Proof.
  induction d as [| e d IH]; intros before best mid Hbefore Hmid; simpl.
  - exists before, mid. rewrite app_nil_r. auto.
  - unfold max_step at 2 4 6. destruct (Z.ltb_spec (snd best) (snd e)) as [Hlt | Hge].
    + destruct (IH (before ++ best :: mid) e []) as (before' & after' & Heq & H1 & H2).
      * intros x Hx. apply in_app_or in Hx. destruct Hx as [Hx | [<- | Hx]].
        -- specialize (Hbefore x Hx). lia.
        -- exact Hlt.
        -- specialize (Hmid x Hx). lia.
      * intros x [].
      * exists before', after'. split; [| auto].
        rewrite <- Heq. rewrite <- !app_assoc. reflexivity.
    + destruct (IH before best (mid ++ [e])) as (before' & after' & Heq & H1 & H2).
      * exact Hbefore.
      * intros x Hx. apply in_app_or in Hx. destruct Hx as [Hx | [<- | []]]; auto.
      * exists before', after'. split; [| auto].
        rewrite <- Heq. rewrite <- !app_assoc. reflexivity.
Qed.

(** [max(decision_counts, key=decision_counts.get)] is the first key, in
    insertion order, whose count is the largest: every earlier key has a
    smaller count and no later key a larger one.  On an empty dictionary
    it raises [ValueError]. *)
Theorem majority_tie_goes_to_first_key (counts : dict Z) :
  match py_max_key counts with
  | Ok m =>
      exists before c after,
        counts = before ++ (m, c) :: after
        /\ (forall e, In e before -> (snd e < c)%Z)
        /\ (forall e, In e after -> (snd e <= c)%Z)
  | Raise e => e = ValueError /\ counts = []
  end.
Proof.
  destruct counts as [| entry d]; simpl; [auto |].
  destruct (@fold_max_step_first d [] entry []) as (before & after & Heq & H1 & H2);
    try (intros e []).
  exists before, (snd (fold_left max_step d entry)), after.
  rewrite <- surjective_pairing. auto.
Qed.

(** ** The attribute statistics *)

Lemma keyed_from_cons (off : nat) (column : dict Z) (columns : list (dict Z)) :
  keyed_from off (column :: columns) =
  (Z.of_nat off, column) :: keyed_from (S off) columns.
Proof. reflexivity. Qed.

Lemma keyed_from_get (done : list (dict Z)) :
  forall off todo,
    int_dict_get (keyed_from off (done ++ todo)) (Z.of_nat (off + length done)) =
    hd_error todo.
Proof.
  induction done as [| d done IH]; intros off todo.
  - simpl. rewrite Nat.add_0_r. destruct todo as [| t todo]; [reflexivity |].
    rewrite keyed_from_cons. simpl. now rewrite Z.eqb_refl.
  - cbn [app]. rewrite keyed_from_cons. cbn [int_dict_get].
    destruct (Z.eqb_spec (Z.of_nat off) (Z.of_nat (off + length (d :: done))));
      [simpl in *; lia |].
    cbn [length]. rewrite <- Nat.add_succ_comm. apply IH.
Qed.

Lemma keyed_from_set (column : dict Z) (done : list (dict Z)) :
  forall off todo,
    int_dict_set (keyed_from off (done ++ todo)) (Z.of_nat (off + length done)) column =
    keyed_from off (done ++ column :: tl todo).
Proof.
  induction done as [| d done IH]; intros off todo.
  - simpl. rewrite Nat.add_0_r. destruct todo as [| t todo]; [reflexivity |].
    rewrite !keyed_from_cons. simpl. now rewrite Z.eqb_refl.
  - cbn [app]. rewrite !keyed_from_cons. cbn [int_dict_set].
    destruct (Z.eqb_spec (Z.of_nat off) (Z.of_nat (off + length (d :: done))));
      [simpl in *; lia |].
    cbn [length]. rewrite <- Nat.add_succ_comm. now rewrite IH.
Qed.

Lemma count_row_length (columns : list (dict Z)) :
  forall r, length (count_row columns r) = length columns.
Proof.
  induction columns as [| c columns IH]; intros [| v r]; simpl; auto.
Qed.

Lemma count_row_nil (columns : list (dict Z)) : count_row columns [] = columns.
Proof. now destruct columns. Qed.

(** The loop over [enumerate(row)], begun at index [length done]. *)
Lemma enumerate_loop (r : row) :
  forall done todo,
    stats_loop (combine (map Z.of_nat (seq (length done) (length r))) r)
               (keyed_from 0 (done ++ todo)) stats_step =
    if length r <=? length todo then StatsOk (keyed_from 0 (done ++ count_row todo r))
    else StatsKeyError (Z.of_nat (length done + length todo)).
Proof.
  induction r as [| v r IH]; intros done todo.
  - simpl. now rewrite count_row_nil.
  - cbn [length seq map combine stats_loop stats_step].
    pose proof (keyed_from_get done 0 todo) as Hget. cbn [Nat.add] in Hget.
    rewrite Hget. clear Hget.
    destruct todo as [| column todo]; cbn [hd_error].
    + simpl. now rewrite Nat.add_0_r.
    + pose proof (keyed_from_set (count_step column v) done 0 (column :: todo)) as Hset.
      cbn [Nat.add tl] in Hset. rewrite Hset. clear Hset.
      change (done ++ count_step column v :: todo)
        with (done ++ [count_step column v] ++ todo).
      rewrite app_assoc.
      replace (S (length done)) with (length (done ++ [count_step column v]))
        by (rewrite length_app; simpl; lia).
      rewrite IH. cbn [length count_row].
      change (S (length r) <=? S (length todo)) with (length r <=? length todo).
      destruct (length r <=? length todo).
      * now rewrite <- app_assoc.
      * f_equal. rewrite length_app. simpl. lia.
Qed.

Lemma rows_loop (data : table) :
  forall columns,
    stats_loop data (keyed_from 0 columns)
      (fun stats r => stats_loop (enumerate r) stats stats_step) =
    if forallb (fun r : row => length r <=? length columns) data
    then StatsOk (keyed_from 0 (fold_left count_row data columns))
    else StatsKeyError (Z.of_nat (length columns)).
Proof.
  induction data as [| r data IH]; intros columns; [reflexivity |].
  cbn [stats_loop forallb fold_left]. unfold enumerate.
  pose proof (enumerate_loop r [] columns) as Hloop.
  cbn [app length Nat.add] in Hloop. rewrite Hloop. clear Hloop.
  destruct (length r <=? length columns); [| reflexivity].
  rewrite IH, count_row_length. reflexivity.
Qed.

Lemma initial_stats (n : nat) :
  fold_left (fun (stats : int_dict (dict Z)) i => int_dict_set stats (Z.of_nat i) [])
            (seq 0 n) [] =
  keyed_from 0 (repeat [] n).
Proof.
  induction n as [| n IH]; [reflexivity |].
  rewrite seq_S, fold_left_app, IH. cbn [fold_left Nat.add].
  pose proof (keyed_from_set [] (repeat [] n) 0 []) as H.
  rewrite app_nil_r, repeat_length in H. cbn [Nat.add tl] in H. rewrite H.
  f_equal. now rewrite <- repeat_cons.
Qed.

Lemma column_cells_tl (i : nat) (data : table) :
  column_cells (S i) data = column_cells i (map (@tl value) data).
Proof.
  unfold column_cells. induction data as [| r data IH]; [reflexivity |].
  cbn [flat_map map]. rewrite IH. destruct r; [destruct i |]; reflexivity.
Qed.

Lemma fold_count_row_cons (data : table) :
  forall column columns,
    fold_left count_row data (column :: columns) =
    fold_left count_step (column_cells 0 data) column
      :: fold_left count_row (map (@tl value) data) columns.
Proof.
  induction data as [| r data IH]; intros column columns; [reflexivity |].
  cbn [fold_left map]. unfold column_cells. cbn [flat_map].
  rewrite fold_left_app. destruct r as [| v r]; cbn [count_row nth_error tl fold_left].
  - rewrite count_row_nil. apply IH.
  - apply IH.
Qed.

Lemma fold_count_row_columns (n : nat) :
  forall data,
    fold_left count_row data (repeat [] n) =
    map (fun i => count_values (column_cells i data)) (seq 0 n).
Proof.
  induction n as [| n IH]; intros data.
  - induction data as [| r data IHd]; [reflexivity | exact IHd].
  - cbn [repeat]. rewrite fold_count_row_cons, IH. cbn [seq map]. f_equal.
    rewrite <- seq_shift, map_map. apply map_ext. intros i.
    now rewrite column_cells_tl.
Qed.

Lemma keyed_from_map (f : nat -> dict Z) (n : nat) :
  keyed_from 0 (map f (seq 0 n)) = map (fun i => (Z.of_nat i, f i)) (seq 0 n).
Proof.
  unfold keyed_from. rewrite length_map, length_seq.
  generalize (seq 0 n). intros s.
  induction s as [| i s IH]; [reflexivity |]. simpl. now rewrite IH.
Qed.

Lemma int_dict_get_map {A : Type} (f : nat -> A) (s : list nat) (i : nat) :
  In i s -> int_dict_get (map (fun i => (Z.of_nat i, f i)) s) (Z.of_nat i) = Some (f i).
Proof.
  induction s as [| j s IH]; [easy |]. simpl.
  destruct (Z.eqb_spec (Z.of_nat j) (Z.of_nat i)) as [E | E].
  - intros _. now replace j with i by lia.
  - intros [-> | Hin]; [lia | auto].
Qed.

Lemma column_cells_py_map (i : nat) (data : table) :
  forall cells,
    py_map (fun r : row => py_getitem r (Z.of_nat i)) data = Ok cells ->
    column_cells i data = cells.
Proof.
  unfold column_cells. induction data as [| r data IH]; simpl; intros cells H.
  - now injection H as <-.
  - unfold py_getitem in H at 1.
    destruct (Z.ltb_spec (Z.of_nat i) 0); [lia |].
    destruct (Z.ltb_spec (Z.of_nat i) 0); [lia |].
    rewrite Nat2Z.id in H. destruct (nth_error r i) as [c |]; [| discriminate].
    simpl in H. destruct (py_map _ data) as [cs |]; [| discriminate].
    simpl in H. injection H as <-. simpl. now rewrite (IH cs).
Qed.

(** The last cell of a row of [width] cells is the cell at [width - 1]. *)
Lemma py_getitem_last (width : nat) (r : row) :
  length r = width -> py_getitem r (-1) = py_getitem r (Z.of_nat width - 1).
Proof.
  intros Hlen. destruct width as [| n]; [reflexivity |].
  unfold py_getitem, len. rewrite Hlen.
  change (-1 <? 0)%Z with true. cbv iota.
  replace (Z.of_nat (S n) + -1)%Z with (Z.of_nat (S n) - 1)%Z by lia.
  assert (E : (Z.of_nat (S n) - 1 <? 0)%Z = false) by (apply Z.ltb_ge; lia).
  rewrite E. cbv iota zeta. now rewrite E.
Qed.

Lemma py_map_ext_in {X Y : Type} (f g : X -> result Y) (xs : list X) :
  (forall x, In x xs -> f x = g x) -> py_map f xs = py_map g xs.
Proof.
  induction xs as [| x xs IH]; intros H; simpl; [reflexivity |].
  rewrite (H x (or_introl eq_refl)), IH; [reflexivity |].
  intros y Hy. apply H. now right.
Qed.

Lemma attribute_stats_returns (row0 : row) (rest : table) :
  forallb (fun r : row => length r <=? length row0) (row0 :: rest) = true ->
  calculate_attribute_stats (row0 :: rest) =
  StatsOk (map (fun i => (Z.of_nat i, count_values (column_cells i (row0 :: rest))))
               (seq 0 (length row0))).
Proof.
  intros E. unfold calculate_attribute_stats.
  rewrite initial_stats, rows_loop, repeat_length, E.
  now rewrite fold_count_row_columns, keyed_from_map.
Qed.

(** [calculate_attribute_stats] raises [IndexError] on the empty table and
    [KeyError] with the number of cells of the first row as soon as a row
    has more cells than the first one; otherwise it returns, under the
    column indices of the first row in ascending order, the distribution
    of the cells that the rows have in that column. *)
Theorem attribute_stats_outcome (data : table) :
  match calculate_attribute_stats data with
  | StatsIndexError => data = []
  | StatsKeyError key =>
      key = len (hd [] data)
      /\ Exists (fun r : row => length (hd [] data) < length r) data
  | StatsOk stats =>
      data <> []
      /\ Forall (fun r : row => length r <= length (hd [] data)) data
      /\ stats = map (fun i => (Z.of_nat i, count_values (column_cells i data)))
                     (seq 0 (length (hd [] data)))
  end.
Proof.
  destruct data as [| row0 rest]; [reflexivity |].
  unfold calculate_attribute_stats. rewrite initial_stats, rows_loop.
  rewrite repeat_length. cbn [hd].
  destruct (forallb _ (row0 :: rest)) eqn:E.
  - split; [discriminate |]. split.
    + rewrite forallb_forall in E. apply Forall_forall. intros r Hr.
      apply Nat.leb_le. now apply E.
    + now rewrite fold_count_row_columns, keyed_from_map.
  - split; [reflexivity |].
    apply Exists_exists.
    assert (Hex : existsb (fun r : row => negb (length r <=? length row0))
                          (row0 :: rest) = true).
    { clear -E. induction (row0 :: rest) as [| r l IH] in E |- *; [discriminate |].
      simpl in *. destruct (length r <=? length row0); simpl in *; auto. }
    apply existsb_exists in Hex. destruct Hex as (r & Hr & Hlong).
    exists r. split; [exact Hr |].
    destruct (Nat.leb_spec (length r) (length row0)); [discriminate | lia].
Qed.

Section StatsAndEvaluator.

Context {P : Platform}.

(** On a non-empty table whose rows all have [width] cells, the statistics
    hold under each column index the distribution that the evaluator
    counts for it: the split information of an attribute is the entropy of
    its statistics, and the statistics of the last column are the decision
    distribution whose entropy [build_tree] computes. *)
Theorem stats_are_the_counted_distributions (width : nat) (data : table) (i : nat) :
  rectangular width data -> data <> [] -> i < width ->
  exists stats column cells,
    calculate_attribute_stats data = StatsOk stats
    /\ int_dict_get stats (Z.of_nat i) = Some column
    /\ py_map (fun r : row => py_getitem r (Z.of_nat i)) data = Ok cells
    /\ column = count_values cells
    /\ calculate_split_info data (Z.of_nat i) = calculate_entropy column
    /\ (i = width - 1 -> decisions_of data = Ok cells).
Proof.
  intros Hrect Hne Hi.
  destruct data as [| row0 rest]; [easy |].
  assert (Hwidth : length row0 = width) by (now inversion Hrect).
  unfold rectangular in Hrect. rewrite Forall_forall in Hrect.
  rewrite attribute_stats_returns.
  2:{ apply forallb_forall. intros r Hr. apply Nat.leb_le.
      rewrite (Hrect r Hr), Hwidth. lia. }
  destruct (@readable_cells (Z.of_nat i) (row0 :: rest)) as [cells Hcells].
  { eapply rectangular_readable; [apply Forall_forall; exact Hrect | lia]. }
  rewrite Hwidth.
  exists (map (fun i => (Z.of_nat i, count_values (column_cells i (row0 :: rest))))
              (seq 0 width)),
    (count_values cells), cells.
  split; [reflexivity |]. split.
  - rewrite (int_dict_get_map (fun i => count_values (column_cells i (row0 :: rest))))
      by (apply in_seq; lia).
    now rewrite (column_cells_py_map i (row0 :: rest) Hcells).
  - split; [exact Hcells |]. split; [reflexivity |]. split.
    + now rewrite calculate_split_info_cells, Hcells.
    + intros ->. unfold decisions_of. rewrite <- Hcells.
      apply py_map_ext_in. intros r Hr.
      rewrite (@py_getitem_last width r (Hrect r Hr)). f_equal. lia.
Qed.

End StatsAndEvaluator.

(** ** The order of set iteration *)

Section PlatformIndependence.

Context (P Q : Platform).
Hypothesis same_log2 : forall x, @libm_log2 Q x = @libm_log2 P x.

Lemma math_log2_platform (x : float) : @math_log2 Q x = @math_log2 P x.
Proof. unfold math_log2. now rewrite same_log2. Qed.

Lemma calculate_entropy_platform (counts : dict Z) :
  @calculate_entropy Q counts = @calculate_entropy P counts.
Proof.
  unfold calculate_entropy. apply for_loop_ext. intros entropy count.
  destruct (int_truediv count _) as [p |]; simpl; [| reflexivity].
  now rewrite math_log2_platform.
Qed.

Lemma calculate_attribute_info_platform (data : table) (i : Z) :
  @calculate_attribute_info Q data i = @calculate_attribute_info P data i.
Proof.
  unfold calculate_attribute_info.
  destruct (for_loop data [] _) as [groups |]; simpl; [| reflexivity].
  apply for_loop_ext. intros info subset.
  destruct (for_loop subset [] _) as [counts |]; simpl; [| reflexivity].
  now rewrite calculate_entropy_platform.
Qed.

Lemma calculate_gain_ratio_platform (data : table) (i : Z) (decision_entropy : float) :
  @calculate_gain_ratio Q data i decision_entropy =
  @calculate_gain_ratio P data i decision_entropy.
Proof.
  unfold calculate_gain_ratio, calculate_gain, calculate_split_info.
  rewrite calculate_attribute_info_platform.
  destruct (calculate_attribute_info data i); simpl; [| reflexivity].
  destruct (for_loop data [] _) as [counts |]; simpl; [| reflexivity].
  now rewrite calculate_entropy_platform.
Qed.

Lemma select_attribute_platform (data : table) (decision_entropy : float) (k : Z) :
  @select_attribute Q data decision_entropy k =
  @select_attribute P data decision_entropy k.
Proof.
  unfold select_attribute. apply for_loop_ext. intros best i.
  unfold select_step. now rewrite calculate_gain_ratio_platform.
Qed.

End PlatformIndependence.

Lemma py_getitem_nth_error {A : Type} (l : list A) (i : nat) (x : A) :
  py_getitem l (Z.of_nat i) = Ok x -> nth_error l i = Some x.
Proof.
  unfold py_getitem. destruct (Z.ltb_spec (Z.of_nat i) 0); [lia |].
  destruct (Z.ltb_spec (Z.of_nat i) 0); [lia |]. rewrite Nat2Z.id.
  destruct (nth_error l i); [now intros [= ->] | discriminate].
Qed.

Lemma in_dict_keys {A : Type} (d : dict A) (k : value) :
  In k (dict_keys d) -> exists a, In (k, a) d.
Proof.
  unfold dict_keys. intros H. apply in_map_iff in H.
  destruct H as ([k' a] & Hfst & Hin). simpl in Hfst. subst k'. eauto.
Qed.

Section ChildrenLoop.

Context {P : Platform}.

(** The loop over the values returns when every recursive call does. *)
Lemma children_loop_ok (build : table -> comp (option TreeNode)) (data : table)
    (a : Z) (cells : list value) :
  py_map (fun r : row => py_getitem_opt r (Some a)) data = Ok cells ->
  forall values,
    (forall v, In v values ->
       exists child, build (select_rows data cells v) = Some (Ok child)) ->
    forall cs0, exists cs,
      for_comp values cs0 (fun node_children value =>
        subset <~ lift (py_filter (fun r : row =>
                     cell <- py_getitem_opt r (Some a) ;;
                     Ok (py_eq cell value)) data) ;;
        child <~ build subset ;;
        lift (Ok (dict_set node_children value child))) = Some (Ok cs).
Proof.
  intros Hcells. induction values as [| v values IH]; intros Hbuild cs0.
  - now exists cs0.
  - cbn [for_comp].
    rewrite (py_filter_cells a v data Hcells). cbn [lift cbind].
    destruct (Hbuild v (or_introl eq_refl)) as [child ->]. cbn [lift cbind].
    apply IH. intros v' Hv'. apply Hbuild. now right.
Qed.

End ChildrenLoop.

Section SetOrder.

Context (P Q : Platform).
Hypothesis same_log2 : forall x, @libm_log2 Q x = @libm_log2 P x.
Hypothesis same_repr : forall x, @float_repr Q x = @float_repr P x.
Hypothesis HSP : SetIterOk P.
Hypothesis HSQ : SetIterOk Q.

Lemma set_iter_keys (R : Platform) (HS : SetIterOk R) (cells : list value) :
  Permutation (@set_iter R (py_set cells)) (py_set cells)
  /\ py_set (@set_iter R (py_set cells)) = @set_iter R (py_set cells).
Proof.
  split; [apply set_iter_perm |].
  apply py_set_of_distinct. eapply distinct_keys_perm; [| apply py_set_distinct].
  apply Permutation_sym, set_iter_perm.
Qed.

Lemma str_injective_platform (data : table) :
  @str_injective P data -> @str_injective Q data.
Proof.
  intros H r r' i c c' Hr Hr' Hc Hc' Hs. apply (H r r' i c c'); auto.
  now rewrite <- !(py_str_platform P Q same_repr).
Qed.

Lemma str_injective_incl (R : Platform) (data subset : table) :
  @str_injective R data -> incl subset data -> @str_injective R subset.
Proof.
  intros H Hincl r r' i c c' Hr Hr'. apply H; now apply Hincl.
Qed.

(** The children in the order printed, as the sorted outputs of their
    branches. *)
Lemma children_outputs (R : Platform) (G : value -> value * printed)
    (cs : dict (option TreeNode)) (indent_level : nat) :
  (forall k child, In (k, child) cs ->
     G k = (k, @print_child R indent_level (k, child))) ->
  map (@print_child R indent_level) (py_sorted (@child_key R) cs) =
  map snd (py_sorted (@item_key R) (map G (dict_keys cs))).
Proof.
  intros HG.
  assert (Hmap : map G (dict_keys cs) =
                 map (fun item => (fst item, @print_child R indent_level item)) cs).
  { unfold dict_keys. rewrite map_map. apply map_ext_in. intros [k child] Hin.
    cbn [fst]. now apply HG. }
  rewrite Hmap.
  rewrite (@py_sorted_map _ _ (fun item => (fst item, @print_child R indent_level item))
             (@child_key R) (@item_key R)) by reflexivity.
  now rewrite map_map.
Qed.

Lemma build_tree_fuel_order (fuel : nat) :
  forall data t,
    @str_injective P data ->
    @build_tree_fuel P fuel data = Some (Ok t) ->
    exists t',
      @build_tree_fuel Q fuel data = Some (Ok t')
      /\ forall indent_level value_prefix,
           @print_tree Q t' indent_level value_prefix =
           @print_tree P t indent_level value_prefix.
Proof.
  induction fuel as [| fuel IH]; intros data t Hstr Hbuild; [discriminate |].
  pose proof (build_tree_fuel_inv _ _ Hbuild) as Hstep.
  destruct data as [| row0 rest].
  { destruct t; [contradiction |]. exists None. split; [reflexivity |].
    intros. now apply print_tree_platform. }
  destruct t as [n |]; [| contradiction].
  destruct Hstep as [d0 ds Hds Hsame | ds de best ba m Hds Hpure Hde Hsel Hbest Hm
                    | ds de best a cells cs Hds Hpure Hde Hsel Hbest Hcells Hkeys Hcs].
  - exists (Some (leaf d0)). split; [| intros; now apply print_tree_platform].
    destruct (@build_tree_fuel_cases Q fuel row0 rest d0 ds Hds) as (_ & _ & HA & _).
    now apply HA.
  - exists (Some (leaf m)). split; [| intros; now apply print_tree_platform].
    cbn [build_tree_fuel]. unfold decisions_of in Hds. rewrite Hds. cbn [lift cbind].
    rewrite Hpure, (calculate_entropy_platform P Q same_log2), Hde. cbn [lift cbind].
    rewrite (select_attribute_platform P Q same_log2), Hsel. cbn [lift cbind].
    now rewrite Hbest, Hm.
  - destruct (set_iter_keys HSP cells) as [HpermP HsetP].
    destruct (set_iter_keys HSQ cells) as [HpermQ HsetQ].
    rewrite HsetP in Hkeys.
    assert (HchildP : forall k, In k (py_set cells) ->
              exists child, @build_tree_fuel P fuel (select_rows (row0 :: rest) cells k)
                            = Some (Ok child)).
    { intros k Hk. apply (Permutation_in _ (Permutation_sym HpermP)) in Hk.
      rewrite <- Hkeys in Hk. apply in_dict_keys in Hk. destruct Hk as [child Hin].
      exists child. now apply Hcs. }
    assert (Hsub : forall k, @str_injective P (select_rows (row0 :: rest) cells k)).
    { intros k. eapply str_injective_incl; [exact Hstr | apply select_rows_incl]. }
    assert (HchildQ : forall k child,
              In k (py_set cells) ->
              @build_tree_fuel Q fuel (select_rows (row0 :: rest) cells k)
              = Some (Ok child) ->
              forall indent_level,
                snd (@branch_output P (@build_tree_fuel P fuel) (row0 :: rest) cells
                       indent_level k)
                = @print_tree Q child (S indent_level) (@py_str Q k)).
    { intros k child Hk HQ indent_level.
      destruct (HchildP k Hk) as [c Hc].
      destruct (IH _ _ (Hsub k) Hc) as (c' & Hc' & Hprint).
      assert (c' = child) by congruence. subst c'.
      unfold branch_output. cbn [snd]. rewrite Hc.
      rewrite Hprint. now rewrite (py_str_platform P Q same_repr). }
    assert (Hcells' : py_map (fun r : list value => py_getitem_opt r (Some a))
                        (row0 :: rest) = Ok cells) by exact Hcells.
    destruct (@children_loop_ok (@build_tree_fuel Q fuel) (row0 :: rest) a cells Hcells'
                (@set_iter Q (py_set cells))) with (cs0 := @nil (value * option TreeNode))
      as [csQ HloopQ].
    { intros v Hv. apply (Permutation_in _ HpermQ) in Hv.
      destruct (HchildP v Hv) as [c Hc].
      destruct (IH _ _ (Hsub v) Hc) as (c' & Hc' & _). now exists c'. }
    destruct (@children_loop (@build_tree_fuel Q fuel) (row0 :: rest) a cells
                (@set_iter Q (py_set cells)) Hcells' _ _ _ HloopQ)
      as [HkeysQ HcsQ]; [apply incl_refl | intros k c [] |].
    change (fold_left set_add (@set_iter Q (py_set cells)) (dict_keys []))
      with (py_set (@set_iter Q (py_set cells))) in HkeysQ.
    rewrite HsetQ in HkeysQ.
    exists (Some (TreeNode_init (Some a) csQ None)). split.
    + cbn [build_tree_fuel]. unfold decisions_of in Hds. rewrite Hds. cbn [lift cbind].
      rewrite Hpure, (calculate_entropy_platform P Q same_log2), Hde. cbn [lift cbind].
      rewrite (select_attribute_platform P Q same_log2), Hsel. cbn [lift cbind].
      rewrite Hbest, Hcells'. cbn [lift cbind].
      match goal with
      | |- cbind ?c ?k = _ =>
          replace c with (Some (Ok csQ) : comp (dict (option TreeNode)))
            by (symmetry; exact HloopQ)
      end.
      reflexivity.
    + intros indent_level value_prefix. rewrite !print_tree_internal. f_equal.
      set (B := @branch_output P (@build_tree_fuel P fuel) (row0 :: rest) cells
                  indent_level).
      rewrite (@children_outputs P B cs indent_level).
      2:{ intros k child Hin. unfold B, branch_output, print_child. cbn [fst snd].
          now rewrite (proj2 (Hcs k child Hin)). }
      rewrite (@children_outputs Q B csQ indent_level).
      2:{ intros k child Hin. destruct (HcsQ k child Hin) as [Hk HQ].
          apply (Permutation_in _ HpermQ) in Hk.
          unfold print_child. cbn [fst snd].
          rewrite <- (HchildQ k child Hk HQ indent_level). reflexivity. }
      rewrite (@py_sorted_ext _ (@item_key P) (@item_key Q))
        by (intros x; apply (py_str_platform P Q same_repr)).
      f_equal. rewrite Hkeys, HkeysQ.
      apply py_sorted_order_irrelevant.
      * apply Permutation_map. rewrite HpermQ. now apply Permutation_sym.
      * pose proof (@select_attribute_spec P (row0 :: rest) de (len row0 - 1)) as Hspec.
        rewrite Hsel in Hspec. destruct Hspec as [_ (i & Ha & _)]. subst a.
        assert (Hcell : forall k, In k (@set_iter Q (py_set cells)) ->
                  exists r, In r (row0 :: rest) /\ nth_error r i = Some k).
        { intros k Hk. apply (Permutation_in _ HpermQ), py_set_incl in Hk.
          destruct (py_map_In_inv _ _ Hcells k Hk) as (r & Hr & Hrk).
          exists r. split; [exact Hr | now apply py_getitem_nth_error]. }
        intros x y Hx Hy Hxy. apply in_map_iff in Hx, Hy.
        destruct Hx as (k & <- & Hk). destruct Hy as (k' & <- & Hk').
        destruct (Hcell k Hk) as (r & Hr & Hrk).
        destruct (Hcell k' Hk') as (r' & Hr' & Hrk').
        now rewrite (Hstr r r' i k k' Hr Hr' Hrk Hrk' Hxy).
Qed.

(** The lines written for a table do not depend on the order in which the
    platform iterates over a set: on two platforms that differ in nothing
    else (and whose sets yield their elements once each), if [build_tree]
    returns on one it returns on the other, and [print_tree] writes the
    same for both results.  Cells of one column that are written the same
    way are assumed to be the same value. *)
Theorem output_does_not_depend_on_set_order (data : table) (t : option TreeNode) :
  @str_injective P data ->
  @build_tree P data = Some (Ok t) ->
  exists t',
    @build_tree Q data = Some (Ok t')
    /\ @print_tree Q t' 0 "" = @print_tree P t 0 "".
Proof.
  intros Hstr Hbuild.
  destruct (build_tree_fuel_order _ Hstr Hbuild) as (t' & Ht' & Hprint).
  exists t'. split; [exact Ht' | apply Hprint].
Qed.

End SetOrder.

(** ** The rows of the children *)

Lemma select_rows_count (data : table) :
  forall cells k, length cells = length data ->
    length (select_rows data cells k) = length (filter (fun c => py_eq c k) cells).
Proof.
  unfold select_rows.
  induction data as [| r data IH]; intros [| c cells] k Hlen; simpl in *;
    try discriminate; [reflexivity |].
  destruct (py_eq c k); simpl; rewrite IH by lia; reflexivity.
Qed.

Lemma list_sum_cons (x : nat) (l : list nat) : list_sum (x :: l) = x + list_sum l.
Proof. reflexivity. Qed.

Lemma list_sum_map_add {X : Type} (f g : X -> nat) (l : list X) :
  list_sum (map (fun x => f x + g x) l) = list_sum (map f l) + list_sum (map g l).
Proof. induction l as [| x l IH]; simpl; lia. Qed.

Lemma list_sum_map_zero {X : Type} (f : X -> nat) (l : list X) :
  (forall x, In x l -> f x = 0) -> list_sum (map f l) = 0.
Proof.
  induction l as [| x l IH]; intros H; simpl; [reflexivity |].
  rewrite (H x (or_introl eq_refl)), IH; [reflexivity |].
  intros y Hy. apply H. now right.
Qed.

(** A value that is not NaN equals exactly one of the keys of a set that
    has a key for it, and NaN equals none. *)
Lemma one_key_matches (keys : list value) (c : value) :
  distinct_keys keys ->
  (py_eq c c = true -> exists k, In k keys /\ py_eq k c = true) ->
  list_sum (map (fun k => if py_eq c k then 1 else 0) keys) =
  if py_eq c c then 1 else 0.
Proof.
  intros Hdist Hcover. destruct (py_eq c c) eqn:Hrefl.
  - destruct (Hcover eq_refl) as (k0 & Hk0 & Hk0c). clear Hcover.
    induction keys as [| k keys IH]; [destruct Hk0 |].
    unfold distinct_keys in Hdist. inversion Hdist as [| ? ? Hk Hkeys]; subst.
    rewrite Forall_forall in Hk. cbn [map]. rewrite list_sum_cons.
    destruct (py_eq c k) eqn:Hck.
    + rewrite list_sum_map_zero; [reflexivity |].
      intros k' Hk'. destruct (py_eq c k') eqn:Hck'; [| reflexivity].
      specialize (Hk k' Hk').
      rewrite (py_eq_trans k c k') in Hk; auto; [discriminate |].
      now rewrite py_eq_sym.
    + destruct Hk0 as [-> | Hk0].
      * rewrite py_eq_sym in Hk0c. congruence.
      * now rewrite IH.
  - apply list_sum_map_zero. intros k _.
    destruct (py_eq c k) eqn:E; [| reflexivity].
    apply py_eq_refl_l in E. congruence.
Qed.

(** The rows selected for the elements of the set of the cells are, taken
    together, as many as the cells that are not NaN. *)
Lemma selected_rows_total (data : table) (cells : list value) :
  length cells = length data ->
  list_sum (map (fun k => length (select_rows data cells k)) (py_set cells)) =
  length (filter (fun c => py_eq c c) cells).
Proof.
  intros Hlen.
  rewrite (map_ext _ (fun k => length (filter (fun c => py_eq c k) cells)))
    by (intros k; now apply select_rows_count).
  assert (Hgen : forall keys cs,
            distinct_keys keys ->
            (forall c, In c cs -> py_eq c c = true ->
                       exists k, In k keys /\ py_eq k c = true) ->
            list_sum (map (fun k => length (filter (fun c => py_eq c k) cs)) keys) =
            length (filter (fun c => py_eq c c) cs)).
  { clear. intros keys cs Hdist. induction cs as [| c cs IH]; intros Hcover.
    - cbn [filter length]. now apply list_sum_map_zero.
    - rewrite (map_ext _ (fun k => (if py_eq c k then 1 else 0)
                                   + length (filter (fun x => py_eq x k) cs))).
      2:{ intros k. cbn [filter]. now destruct (py_eq c k). }
      rewrite list_sum_map_add, IH by (intros x Hx; apply Hcover; now right).
      rewrite (one_key_matches c Hdist) by (apply Hcover; now left).
      cbn [filter]. now destruct (py_eq c c). }
  apply Hgen; [apply py_set_distinct |].
  intros c Hc Hrefl. now apply py_set_cover.
Qed.

Section RowsOfChildren.

Context {P : Platform}.
Hypothesis HP : PlatformOk P.
Hypothesis HS : SetIterOk P.

(** Every row whose cell in the selected column is not NaN goes to one
    child and one only: the subsets of the children have together as many
    rows as there are such cells.  Rows with a NaN cell go to no child. *)
Theorem rows_are_split_among_children (data : table) (a : Z)
    (cs : dict (option TreeNode)) (l : option value) :
  (len data < 2 ^ 53)%Z ->
  build_tree data = Some (Ok (Some (TreeNode_init (Some a) cs l))) ->
  exists cells,
    py_map (fun r : row => py_getitem r a) data = Ok cells
    /\ list_sum (map (fun k => length (select_rows data cells k)) (dict_keys cs)) =
       length (filter (fun c => py_eq c c) cells)
    /\ forall r c, In r data -> py_getitem r a = Ok c -> py_eq c c = false ->
         forall k, In k (dict_keys cs) -> ~ In r (select_rows data cells k).
Proof.
  intros Hlen Hbuild.
  destruct (@build_tree_internal_inv P HP data a cs l Hlen Hbuild)
    as (cells & Hcells & Hkeys & _).
  destruct (set_iter_keys HS cells) as [Hperm Hset]. rewrite Hset in Hkeys.
  exists cells. split; [exact Hcells |]. split.
  - rewrite Hkeys.
    rewrite (list_sum_perm (Permutation_map _ Hperm)).
    apply selected_rows_total. now apply py_map_length in Hcells.
  - intros r c Hr Hc Hnan k _ Hin.
    destruct (select_rows_cell a data k r Hcells Hin) as (c' & Hc' & _ & Heq).
    assert (c' = c) by congruence. subst c'.
    apply py_eq_refl_l in Heq. congruence.
Qed.

End RowsOfChildren.

(** ** A row without cells *)

Section EmptyRow.

Context {P : Platform}.

(** A row without cells has no decision: [build_tree] raises [IndexError]
    at [row[-1]], whatever else the table holds. *)
Theorem empty_row_raises_index_error (data : table) :
  In [] data -> build_tree data = Some (Raise IndexError).
Proof.
  intros Hin. unfold build_tree.
  destruct data as [| row0 rest]; [destruct Hin |].
  cbn [build_tree_fuel].
  pose proof (py_map_cells_outcome (-1) (row0 :: rest)) as H.
  destruct (py_map (fun r : list value => py_getitem r (-1)) (row0 :: rest))
    as [ds | e].
  - exfalso. rewrite Forall_forall in H. specialize (H [] Hin).
    unfold in_bounds, len in H. simpl in H. lia.
  - destruct H as [-> _]. reflexivity.
Qed.

End EmptyRow.

(** ** The properties at work on scenario 1 *)

Lemma ref_platform_set_iter : SetIterOk ref_platform.
Proof. constructor. intros s. apply Permutation_refl. Qed.

Lemma rev_platform_set_iter : SetIterOk rev_platform.
Proof. constructor. intros s. apply Permutation_sym, Permutation_rev. Qed.

Lemma scenario_1_built :
  @build_tree ref_platform scenario_1 = Some (Ok (Some scenario_1_tree)).
Proof. reflexivity. Qed.

Lemma scenario_1_rectangular : rectangular 3 scenario_1.
Proof. repeat constructor. Qed.

Lemma scenario_1_str_injective : @str_injective ref_platform scenario_1.
Proof.
  assert (Hcol : forall r, In r scenario_1 -> forall i c, nth_error r i = Some c ->
            (i = 0 /\ (c = VInt 1 \/ c = VInt 2))
            \/ (i = 1 /\ (c = VInt 1 \/ c = VInt 2))
            \/ (i = 2 /\ (c = VStr "A" \/ c = VStr "B"))).
  { intros r Hr i c Hc. simpl in Hr.
    destruct Hr as [<- | [<- | [<- | [<- | []]]]];
      destruct i as [| [| [| i]]]; simpl in Hc;
      try (destruct i; discriminate Hc); injection Hc as <-; auto 10. }
  intros r r' i c c' Hr Hr' Hc Hc' Hs.
  destruct (Hcol r Hr i c Hc) as [[-> [-> | ->]] | [[-> [-> | ->]] | [-> [-> | ->]]]];
    destruct (Hcol r' Hr' _ c' Hc')
      as [[E [-> | ->]] | [[E [-> | ->]] | [E [-> | ->]]]];
    try discriminate E; try reflexivity; cbv in Hs; discriminate Hs.
Qed.

Lemma empty_row_raises_index_error_witness :
  In [] [[VInt 1; VStr "A"]; []]
  /\ @build_tree ref_platform [[VInt 1; VStr "A"]; []] = Some (Raise IndexError).
Proof.
  assert (Hin : In (@nil value) [[VInt 1; VStr "A"]; []]) by (right; left; reflexivity).
  split; [exact Hin |].
  exact (@empty_row_raises_index_error ref_platform [[VInt 1; VStr "A"]; []] Hin).
Defined.

Lemma built_nodes_are_leaves_or_tests_witness :
  @build_tree ref_platform scenario_1 = Some (Ok (Some scenario_1_tree))
  /\ occurs (leaf (VStr "B")) scenario_1_tree
  /\ ((exists l r, leaf (VStr "B") = leaf l /\ In r scenario_1
                   /\ py_getitem r (-1) = Ok l)
      \/ (exists a cs r, leaf (VStr "B") = TreeNode_init (Some a) cs None
                         /\ In r scenario_1 /\ (0 <= a < len r - 1)%Z)).
Proof.
  assert (Hocc : occurs (leaf (VStr "B")) scenario_1_tree).
  { apply occurs_below with (k := VInt 2) (child := leaf (VStr "B"));
      [right; left; reflexivity | constructor]. }
  split; [exact scenario_1_built |]. split; [exact Hocc |].
  exact (@built_nodes_are_leaves_or_tests ref_platform scenario_1 scenario_1_tree
           (leaf (VStr "B")) scenario_1_built Hocc).
Defined.

Lemma children_are_trees_of_subsets_witness :
  PlatformOk ref_platform
  /\ (len scenario_1 < 2 ^ 53)%Z
  /\ @build_tree ref_platform scenario_1 =
     Some (Ok (Some (TreeNode_init (Some 0%Z) scenario_1_children None)))
  /\ exists cells,
       py_map (fun r : row => py_getitem r 0) scenario_1 = Ok cells
       /\ dict_keys scenario_1_children = py_set (@set_iter ref_platform (py_set cells))
       /\ forall k child, In (k, child) scenario_1_children ->
            In k (@set_iter ref_platform (py_set cells))
            /\ @build_tree ref_platform (select_rows scenario_1 cells k) = Some (Ok child)
            /\ (child = None <-> select_rows scenario_1 cells k = []).
Proof.
  assert (Hlen : (len scenario_1 < 2 ^ 53)%Z) by reflexivity.
  split; [exact ref_platform_ok |]. split; [exact Hlen |].
  split; [exact scenario_1_built |].
  exact (@children_are_trees_of_subsets ref_platform ref_platform_ok scenario_1 0
           scenario_1_children None Hlen scenario_1_built).
Defined.

Lemma one_child_per_value_witness :
  PlatformOk ref_platform
  /\ SetIterOk ref_platform
  /\ (len scenario_1 < 2 ^ 53)%Z
  /\ @build_tree ref_platform scenario_1 =
     Some (Ok (Some (TreeNode_init (Some 0%Z) scenario_1_children None)))
  /\ exists cells,
       py_map (fun r : row => py_getitem r 0) scenario_1 = Ok cells
       /\ Permutation (dict_keys scenario_1_children) (py_set cells)
       /\ distinct_keys (dict_keys scenario_1_children)
       /\ forall k child, In (k, child) scenario_1_children ->
            In k cells /\ (child = None <-> py_eq k k = false).
Proof.
  assert (Hlen : (len scenario_1 < 2 ^ 53)%Z) by reflexivity.
  split; [exact ref_platform_ok |]. split; [exact ref_platform_set_iter |].
  split; [exact Hlen |]. split; [exact scenario_1_built |].
  exact (@one_child_per_value ref_platform ref_platform_ok ref_platform_set_iter
           scenario_1 0 scenario_1_children None Hlen scenario_1_built).
Defined.

Lemma no_attribute_tested_twice_witness :
  PlatformOk ref_platform
  /\ rectangular 3 scenario_1
  /\ (len scenario_1 < 2 ^ 53)%Z
  /\ @build_tree ref_platform scenario_1 = Some (Ok (Some scenario_1_tree))
  /\ tests_fresh (Z.of_nat 3 - 1) [] scenario_1_tree
  /\ depth scenario_1_tree <= 3 - 1.
Proof.
  assert (Hlen : (len scenario_1 < 2 ^ 53)%Z) by reflexivity.
  split; [exact ref_platform_ok |]. split; [exact scenario_1_rectangular |].
  split; [exact Hlen |]. split; [exact scenario_1_built |].
  exact (@no_attribute_tested_twice ref_platform ref_platform_ok 3 scenario_1
           scenario_1_tree scenario_1_rectangular Hlen scenario_1_built).
Defined.

Lemma rows_are_split_among_children_witness :
  PlatformOk ref_platform
  /\ SetIterOk ref_platform
  /\ (len scenario_1 < 2 ^ 53)%Z
  /\ @build_tree ref_platform scenario_1 =
     Some (Ok (Some (TreeNode_init (Some 0%Z) scenario_1_children None)))
  /\ exists cells,
       py_map (fun r : row => py_getitem r 0) scenario_1 = Ok cells
       /\ list_sum (map (fun k => length (select_rows scenario_1 cells k))
                        (dict_keys scenario_1_children)) =
          length (filter (fun c => py_eq c c) cells)
       /\ forall r c, In r scenario_1 -> py_getitem r 0 = Ok c -> py_eq c c = false ->
            forall k, In k (dict_keys scenario_1_children) ->
              ~ In r (select_rows scenario_1 cells k).
Proof.
  assert (Hlen : (len scenario_1 < 2 ^ 53)%Z) by reflexivity.
  split; [exact ref_platform_ok |]. split; [exact ref_platform_set_iter |].
  split; [exact Hlen |]. split; [exact scenario_1_built |].
  exact (@rows_are_split_among_children ref_platform ref_platform_ok
           ref_platform_set_iter scenario_1 0 scenario_1_children None Hlen
           scenario_1_built).
Defined.

Lemma built_tree_is_printed_witness :
  @build_tree ref_platform scenario_1 = Some (Ok (Some scenario_1_tree))
  /\ snd (@print_tree ref_platform (Some scenario_1_tree) 0 "") = None
  /\ length (fst (@print_tree ref_platform (Some scenario_1_tree) 0 "")) =
     line_count scenario_1_tree.
Proof.
  split; [exact scenario_1_built |].
  exact (@built_tree_is_printed ref_platform scenario_1 (Some scenario_1_tree)
           scenario_1_built).
Defined.

Lemma children_order_is_not_printed_witness :
  Permutation scenario_1_children (rev scenario_1_children)
  /\ (forall x y, In x scenario_1_children -> In y scenario_1_children ->
        @child_key ref_platform x = @child_key ref_platform y -> x = y)
  /\ @print_tree ref_platform
       (Some (TreeNode_init (Some 0%Z) scenario_1_children None)) 0 "" =
     @print_tree ref_platform
       (Some (TreeNode_init (Some 0%Z) (rev scenario_1_children) None)) 0 "".
Proof.
  assert (Hperm : Permutation scenario_1_children (rev scenario_1_children))
    by apply Permutation_rev.
  assert (Hinj : forall x y, In x scenario_1_children -> In y scenario_1_children ->
            @child_key ref_platform x = @child_key ref_platform y -> x = y).
  { intros x y [<- | [<- | []]] [<- | [<- | []]] H; try reflexivity;
      cbv in H; discriminate H. }
  split; [exact Hperm |]. split; [exact Hinj |].
  exact (@children_order_is_not_printed ref_platform (Some 0%Z) scenario_1_children
           (rev scenario_1_children) None 0 "" Hperm Hinj).
Defined.

Lemma output_does_not_depend_on_set_order_witness :
  (forall x, @libm_log2 rev_platform x = @libm_log2 ref_platform x)
  /\ (forall x, @float_repr rev_platform x = @float_repr ref_platform x)
  /\ SetIterOk ref_platform
  /\ SetIterOk rev_platform
  /\ @str_injective ref_platform scenario_1
  /\ @build_tree ref_platform scenario_1 = Some (Ok (Some scenario_1_tree))
  /\ exists t',
       @build_tree rev_platform scenario_1 = Some (Ok t')
       /\ @print_tree rev_platform t' 0 "" =
          @print_tree ref_platform (Some scenario_1_tree) 0 "".
Proof.
  assert (Hlog : forall x, @libm_log2 rev_platform x = @libm_log2 ref_platform x)
    by reflexivity.
  assert (Hrepr : forall x, @float_repr rev_platform x = @float_repr ref_platform x)
    by reflexivity.
  split; [exact Hlog |]. split; [exact Hrepr |].
  split; [exact ref_platform_set_iter |]. split; [exact rev_platform_set_iter |].
  split; [exact scenario_1_str_injective |]. split; [exact scenario_1_built |].
  exact (@output_does_not_depend_on_set_order ref_platform rev_platform Hlog Hrepr
           ref_platform_set_iter rev_platform_set_iter scenario_1
           (Some scenario_1_tree) scenario_1_str_injective scenario_1_built).
Defined.

Lemma zero_count_adds_nothing_witness :
  exact_counts ([(VStr "A", 2%Z)] ++ [])
  /\ [(VStr "A", 2%Z)] ++ [] <> []
  /\ @calculate_entropy ref_platform ([(VStr "A", 2%Z)] ++ (VStr "B", 0%Z) :: []) =
     @calculate_entropy ref_platform ([(VStr "A", 2%Z)] ++ []).
Proof.
  assert (Hexact : exact_counts ([(VStr "A", 2%Z)] ++ []))
    by (split; [repeat constructor | reflexivity]).
  assert (Hne : [(VStr "A", 2%Z)] ++ [] <> []) by discriminate.
  split; [exact Hexact |]. split; [exact Hne |].
  exact (@zero_count_adds_nothing ref_platform [(VStr "A", 2%Z)] [] (VStr "B")
           Hexact Hne).
Defined.

Lemma calculate_entropy_raises_iff_witness :
  exact_counts [(VStr "A", 0%Z); (VStr "B", 0%Z)]
  /\ match @calculate_entropy ref_platform [(VStr "A", 0%Z); (VStr "B", 0%Z)] with
     | Ok _ => [(VStr "A", 0%Z); (VStr "B", 0%Z)] = []
               \/ total_count [(VStr "A", 0%Z); (VStr "B", 0%Z)] <> 0%Z
     | Raise e => e = ZeroDivisionError
                  /\ [(VStr "A", 0%Z); (VStr "B", 0%Z)] <> []
                  /\ total_count [(VStr "A", 0%Z); (VStr "B", 0%Z)] = 0%Z
     end.
Proof.
  assert (Hexact : exact_counts [(VStr "A", 0%Z); (VStr "B", 0%Z)])
    by (split; [repeat constructor | reflexivity]).
  split; [exact Hexact |].
  exact (@calculate_entropy_raises_iff ref_platform [(VStr "A", 0%Z); (VStr "B", 0%Z)]
           Hexact).
Defined.

Lemma stats_are_the_counted_distributions_witness :
  rectangular 3 scenario_1
  /\ scenario_1 <> []
  /\ 2 < 3
  /\ exists stats column cells,
       calculate_attribute_stats scenario_1 = StatsOk stats
       /\ int_dict_get stats (Z.of_nat 2) = Some column
       /\ py_map (fun r : row => py_getitem r (Z.of_nat 2)) scenario_1 = Ok cells
       /\ column = count_values cells
       /\ @calculate_split_info ref_platform scenario_1 (Z.of_nat 2) =
          @calculate_entropy ref_platform column
       /\ (2 = 3 - 1 -> decisions_of scenario_1 = Ok cells).
Proof.
  assert (Hne : scenario_1 <> []) by discriminate.
  assert (Hi : 2 < 3) by lia.
  split; [exact scenario_1_rectangular |]. split; [exact Hne |]. split; [exact Hi |].
  exact (@stats_are_the_counted_distributions ref_platform 3 scenario_1 2
           scenario_1_rectangular Hne Hi).
Defined.

Lemma print_tree_raises_iff_witness :
  strs_ok scenario_1_tree
  /\ (snd (@print_tree ref_platform (Some scenario_1_tree) 0 "") = None
      <-> printable scenario_1_tree)
  /\ (snd (@print_tree ref_platform (Some scenario_1_tree) 0 "") = None
      \/ snd (@print_tree ref_platform (Some scenario_1_tree) 0 "") = Some TypeError)
  /\ (printable scenario_1_tree ->
      length (fst (@print_tree ref_platform (Some scenario_1_tree) 0 "")) =
      line_count scenario_1_tree).
Proof.
  split; [exact scenario_1_strs_ok |].
  exact (@print_tree_raises_iff ref_platform scenario_1_tree 0 "" scenario_1_strs_ok).
Defined.

(** ** Branching *)

Section Branching.

Context {P : Platform}.
Hypothesis HP : PlatformOk P.
Hypothesis HS : SetIterOk P.

(** An internal node has at least two children: an attribute is selected
    for a split only if its column holds two different values. *)
Theorem internal_node_has_two_children (data : table) (a : Z)
    (cs : dict (option TreeNode)) (l : option value) :
  (len data < 2 ^ 53)%Z ->
  build_tree data = Some (Ok (Some (TreeNode_init (Some a) cs l))) ->
  2 <= length cs.
Proof.
  intros Hlen Hbuild. unfold build_tree in Hbuild.
  apply build_tree_fuel_inv in Hbuild.
  destruct data as [| row0 rest]; [contradiction |].
  inversion Hbuild as [| | ds de best a' cells cs' Hds Hpure Hde Hsel Hbest Hcells Hkeys Hcs];
    subst.
  destruct (set_iter_keys HS cells) as [Hperm Hset]. rewrite Hset in Hkeys.
  assert (Hcount : length cs = length (py_set cells)).
  { rewrite <- (Permutation_length Hperm), <- Hkeys. unfold dict_keys.
    now rewrite length_map. }
  rewrite Hcount.
  destruct cells as [| c0 cells]; [apply py_map_length in Hcells; discriminate |].
  destruct (@nonzero_gain_ratio_two_values P HP (row0 :: rest) a de best c0 cells
              Hlen (select_attribute_some _ _ _ Hsel) Hbest Hcells) as (c & Hc & Hne).
  pose proof (@py_set_nonempty c0 cells) as Hnonempty.
  pose proof (py_set_single c0 cells) as Hsingle.
  destruct (py_set (c0 :: cells)) as [| k [| k' s]]; [easy | | simpl; lia].
  exfalso. rewrite (proj1 Hsingle eq_refl c Hc) in Hne. discriminate.
Qed.

End Branching.

Lemma internal_node_has_two_children_witness :
  PlatformOk ref_platform
  /\ SetIterOk ref_platform
  /\ (len scenario_1 < 2 ^ 53)%Z
  /\ @build_tree ref_platform scenario_1 =
     Some (Ok (Some (TreeNode_init (Some 0%Z) scenario_1_children None)))
  /\ 2 <= length scenario_1_children.
Proof.
  assert (Hlen : (len scenario_1 < 2 ^ 53)%Z) by reflexivity.
  split; [exact ref_platform_ok |]. split; [exact ref_platform_set_iter |].
  split; [exact Hlen |]. split; [exact scenario_1_built |].
  exact (@internal_node_has_two_children ref_platform ref_platform_ok
           ref_platform_set_iter scenario_1 0 scenario_1_children None Hlen
           scenario_1_built).
Defined.

(** ** Indentation *)

Lemma string_app_assoc (a b c : string) :
  ((a ++ b) ++ c = a ++ (b ++ c))%string.
Proof. induction a as [| x a IH]; [reflexivity |]. simpl. now rewrite IH. Qed.

Lemma string_app_nil_r (a : string) : (a ++ "" = a)%string.
Proof. induction a as [| x a IH]; [reflexivity |]. simpl. now rewrite IH. Qed.

Lemma repeat_string_snoc (s : string) (n : nat) :
  repeat_string s (S n) = (repeat_string s n ++ s)%string.
Proof.
  induction n as [| n IH].
  - simpl. apply string_app_nil_r.
  - change (repeat_string s (S (S n))) with (s ++ repeat_string s (S n))%string.
    rewrite IH at 1. now rewrite <- string_app_assoc.
Qed.

Lemma indented_deeper (indent_level : nat) (line : string) :
  indented (S indent_level) line -> indented indent_level line.
Proof.
  intros [rest ->]. unfold indent_of. rewrite repeat_string_snoc.
  rewrite string_app_assoc. now eexists.
Qed.

(** What a sequence of prints writes after its first part: lines of the
    prints that follow. *)
Lemma fold_then_print_rest (outs : list printed) :
  forall p, exists rest,
    fst (fold_left then_print outs p) = fst p ++ rest
    /\ forall line, In line rest -> exists q, In q outs /\ In line (fst q).
Proof.
  induction outs as [| q outs IH]; intros p; simpl.
  - exists []. split; [now rewrite app_nil_r | intros line []].
  - destruct (IH (then_print p q)) as (rest & Hrest & Hfrom). rewrite Hrest.
    assert (Hlater : forall line, In line rest ->
              exists q', (q = q' \/ In q' outs) /\ In line (fst q')).
    { intros line Hin. destruct (Hfrom line Hin) as (q' & Hq' & Hline).
      exists q'. auto. }
    unfold then_print. destruct (snd p); simpl.
    + exists rest. auto.
    + exists (fst q ++ rest). split; [now rewrite app_assoc |].
      intros line Hin. apply in_app_or in Hin. destruct Hin as [Hin | Hin]; auto.
      exists q. auto.
Qed.

Section Indentation.

Context {P : Platform}.

Lemma print_node_indented (n : TreeNode) :
  forall indent_level value_prefix line,
    In line (fst (print_node n (S indent_level) value_prefix)) ->
    indented (S indent_level) line.
Proof.
  induction n as [a cs l IH] using TreeNode_ind.
  intros indent_level value_prefix line Hin.
  destruct l as [l |].
  { cbn [print_node] in Hin. destruct Hin as [<- | []]. now eexists. }
  destruct a as [a |]; [| destruct Hin].
  change (print_node (TreeNode_init (Some a) cs None) (S indent_level) value_prefix)
    with (print_tree (Some (TreeNode_init (Some a) cs None)) (S indent_level)
            value_prefix) in Hin.
  rewrite print_tree_internal in Hin.
  destruct (fold_then_print_rest
              (map (print_child (S indent_level)) (py_sorted child_key cs))
              (print_line (header_line a (S indent_level) value_prefix)))
    as (rest & Hrest & Hfrom).
  rewrite Hrest in Hin. destruct Hin as [<- | Hin].
  - unfold header_line. cbn [Nat.eqb]. now eexists.
  - apply indented_deeper. destruct (Hfrom line Hin) as (q & Hq & Hline).
    apply in_map_iff in Hq. destruct Hq as ([k child] & <- & Hq).
    apply (Permutation_in _ (py_sorted_perm child_key cs)) in Hq.
    unfold print_child in Hline. cbn [fst snd] in Hline.
    destruct child as [child |].
    + rewrite Forall_forall in IH.
      exact (IH (k, Some child) Hq child eq_refl (S indent_level) (py_str k) line Hline).
    + destruct Hline as [<- | []]. now eexists.
Qed.

Lemma print_tree_indented (node : option TreeNode) (indent_level : nat)
    (value_prefix line : string) :
  In line (fst (print_tree node (S indent_level) value_prefix)) ->
  indented (S indent_level) line.
Proof.
  destruct node as [n |]; [apply print_node_indented |].
  intros [<- | []]. now eexists.
Qed.

(** Every line that [print_tree] writes for a node below the root, the
    lines of its subtrees included, begins with the indentation of the
    node's level, ten spaces per level: a subtree is never written to the
    left of its parent's branch.  For an internal root the first line is
    its header and every line after it begins with ten spaces. *)
Theorem subtree_lines_are_indented :
  (forall node indent_level value_prefix line,
     In line (fst (print_tree node (S indent_level) value_prefix)) ->
     indented (S indent_level) line)
  /\ (forall a cs value_prefix, exists rest,
        fst (print_tree (Some (TreeNode_init (Some a) cs None)) 0 value_prefix) =
        ("Atrybut: " ++ str_of_int (a + 1))%string :: rest
        /\ forall line, In line rest -> indented 1 line).
Proof.
  split; [intros; eapply print_tree_indented; eauto |].
  intros a cs value_prefix. rewrite print_tree_internal.
  destruct (fold_then_print_rest
              (map (print_child 0) (py_sorted child_key cs))
              (print_line (header_line a 0 value_prefix)))
    as (rest & Hrest & Hfrom).
  exists rest. split; [exact Hrest |].
  intros line Hin. destruct (Hfrom line Hin) as (q & Hq & Hline).
  apply in_map_iff in Hq. destruct Hq as (item & <- & _).
  eapply print_tree_indented. exact Hline.
Qed.

End Indentation.
